(** * GRC Supplier Finder: the sheet parser and the filter/aggregation script

    A shallow embedding of [main.py]: [parse_pivot_rules] (lines 5-52) and the
    module-level script that builds the answers dictionary, filters the
    frame, aggregates it per supplier and chooses what to display
    (lines 116-220).

    Modelling conventions.
    - A sheet is the rectangular grid [read_excel] returns with
      [header=None].  A cell is missing ([NaN]), a text or an integer.  The
      forward fill makes pandas infer the type of a column again: a column
      of integers that keeps a missing cell becomes a float64 column, which
      holds the integer [n] as the float [Flt n].  Integers are those a
      float holds exactly and prints without an exponent (below 10^15 in
      magnitude, as a sheet stores them).  Other floating point, boolean
      and date cells are outside the model.
    - Text is a Rocq [string]; a character stands for one code point below
      256, so that Python's comparison of [str] values is [String.compare].
    - A frame is row-major: its column labels and its rows, every row
      carrying its index label.  A label that several columns carry does
      not denote a Series; where the program needs one ([.str], [==],
      [isin], [groupby]) the model stops with [NotASeries].  The [.str]
      accessor of a column that holds numbers and no text is [NotText].
    - Exceptions are values of [error]; code that can raise lives in the
      [result] monad. *)

From Stdlib Require Import List String Ascii ZArith Bool Arith Lia.
From Stdlib Require Import Sorting.Sorted Sorting.Permutation.
From Stdlib Require Import Numbers.DecimalString Structures.OrderedTypeEx.
Import ListNotations.

Local Open Scope string_scope.
Local Open Scope list_scope.

(** ** Python strings *)

Module PyStr.

(** [str.isspace] on the code points below 256. *)
Definition isspace (c : ascii) : bool :=
  let n := nat_of_ascii c in
  (((9 <=? n) && (n <=? 13)) || ((28 <=? n) && (n <=? 32))
   || (n =? 133) || (n =? 160))%nat.

Fixpoint lstrip (s : string) : string :=
  match s with
  | EmptyString => EmptyString
  | String c s' => if isspace c then lstrip s' else s
  end.

Fixpoint rstrip (s : string) : string :=
  match s with
  | EmptyString => EmptyString
  | String c s' =>
      match rstrip s' with
      | EmptyString => if isspace c then EmptyString else String c EmptyString
      | r => String c r
      end
  end.

(** [s.strip()] *)
Definition strip (s : string) : string := rstrip (lstrip s).

Definition isupper (c : ascii) : bool :=
  let n := nat_of_ascii c in ((65 <=? n) && (n <=? 90))%nat.

(** Case folding as [re.IGNORECASE] applies it to a pattern of ASCII
    letters: only ['A'..'Z'] fold onto such letters. *)
Definition lower_char (c : ascii) : ascii :=
  if isupper c then ascii_of_nat (nat_of_ascii c + 32) else c.

Fixpoint lower (s : string) : string :=
  match s with
  | EmptyString => EmptyString
  | String c s' => String (lower_char c) (lower s')
  end.

(** [pat in s] *)
Fixpoint contains (pat s : string) : bool :=
  String.prefix pat s
  || match s with
     | EmptyString => false
     | String _ s' => contains pat s'
     end.

(** [re.search(pat, s, re.IGNORECASE)] for a pattern without
    metacharacters. *)
Definition contains_nocase (pat s : string) : bool :=
  contains (lower pat) (lower s).

(** [sep.join(xs)] is [String.concat sep xs]. *)
Definition join (sep : string) (xs : list string) : string :=
  String.concat sep xs.

(** [sorted]: ascending on the sort key, equal keys in their first order. *)
Section Sort.
Context {A : Type} (key : A -> string).

Fixpoint insert (x : A) (l : list A) : list A :=
  match l with
  | [] => [x]
  | y :: l' =>
      if (key x <=? key y)%string then x :: l else y :: insert x l'
  end.

Fixpoint sort_by (l : list A) : list A :=
  match l with
  | [] => []
  | x :: l' => insert x (sort_by l')
  end.
End Sort.

Definition sorted (l : list string) : list string := sort_by (fun s => s) l.

(** The order [sorted] sorts by. *)
Definition key_le {A : Type} (key : A -> string) (a b : A) : Prop :=
  (key a <=? key b)%string = true.

(** [set(xs)], kept as a duplicate-free list. *)
Definition set (xs : list string) : list string := nodup string_dec xs.

(** [str(n)] for an [int]. *)
Definition str_of_int (n : Z) : string := NilZero.string_of_int (Z.to_int n).

End PyStr.

(** ** Exceptions *)

Inductive error : Type :=
| HeaderNotFound              (* ValueError("Header row not found ...") *)
| KeyError (key : string)     (* no column carries the label *)
| NotASeries (key : string)   (* several columns carry the label *)
| NotText (key : string)      (* [.str] on a column without text *)
| TypeError.                  (* [isin] given a [str] *)

Inductive result (A : Type) : Type :=
| Ok (a : A)
| Err (e : error).

Arguments Ok {A} a.
Arguments Err {A} e.

Definition bind {A B : Type} (m : result A) (k : A -> result B) : result B :=
  match m with
  | Ok a => k a
  | Err e => Err e
  end.

Notation "x <- m ;; k" := (bind m (fun x => k))
  (at level 61, m at next level, right associativity).

(** ** Frames *)

Module Pandas.
Import PyStr.

Inductive cell : Type :=
| NaN
| Str (s : string)
| Num (n : Z)
| Flt (n : Z).   (* the float of integral value [n] *)

Definition cell_eq_dec (a b : cell) : {a = b} + {a <> b}.
Proof.
  decide equality; [apply string_dec | apply Z.eq_dec | apply Z.eq_dec].
Defined.

Definition cell_eqb (a b : cell) : bool :=
  if cell_eq_dec a b then true else false.

Definition isna (c : cell) : bool :=
  match c with NaN => true | _ => false end.

Definition is_text (c : cell) : bool :=
  match c with Str _ => true | _ => false end.

Definition is_float (c : cell) : bool :=
  match c with Flt _ => true | _ => false end.

Definition is_number (c : cell) : bool :=
  match c with Num _ | Flt _ => true | _ => false end.

(** [float(c)] for a number; other cells stay. *)
Definition to_float (c : cell) : cell :=
  match c with Num n => Flt n | _ => c end.

(** The value of a number. *)
Definition number_value (c : cell) : Z :=
  match c with Num n | Flt n => n | _ => 0%Z end.

(** [str(c)] *)
Definition py_str (c : cell) : string :=
  match c with
  | NaN => "nan"
  | Str s => s
  | Num n => str_of_int n
  | Flt n => (str_of_int n ++ ".0")%string
  end.

Record row : Type := { label : nat; cells : list cell }.

Record DataFrame : Type := { columns : list cell; rows : list row }.

Definition index (df : DataFrame) : list nat := map label (rows df).

(** [df.empty]: some axis has length 0. *)
Definition empty (df : DataFrame) : bool :=
  match columns df, rows df with
  | _ :: _, _ :: _ => false
  | _, _ => true
  end.

(** The cell of a row at column position [j]. *)
Definition at_ (j : nat) (r : row) : cell := nth j (cells r) NaN.

(** The values of the column at position [j]. *)
Definition column (j : nat) (df : DataFrame) : list cell :=
  map (at_ j) (rows df).

Fixpoint set_nth (j : nat) (v : cell) (l : list cell) : list cell :=
  match l, j with
  | [], _ => []
  | _ :: l', O => v :: l'
  | x :: l', S j' => x :: set_nth j' v l'
  end.

Fixpoint set_values (j : nat) (vals : list cell) (rs : list row) : list row :=
  match rs, vals with
  | r :: rs', v :: vals' =>
      {| label := label r; cells := set_nth j v (cells r) |}
      :: set_values j vals' rs'
  | _, _ => rs
  end.

(** Assignment of a Series of the frame's own length to the column at
    position [j]. *)
Definition set_column (j : nat) (vals : list cell) (df : DataFrame) : DataFrame :=
  {| columns := columns df; rows := set_values j vals (rows df) |}.

(** Positions of the columns labelled [key]. *)
Fixpoint get_loc_from (j : nat) (key : string) (cols : list cell) : list nat :=
  match cols with
  | [] => []
  | c :: cols' =>
      if cell_eqb c (Str key) then j :: get_loc_from (S j) key cols'
      else get_loc_from (S j) key cols'
  end.

Definition get_loc (key : string) (df : DataFrame) : list nat :=
  get_loc_from 0 key (columns df).

(** [df[key]] where the program goes on to use it as a Series. *)
Definition series_loc (key : string) (df : DataFrame) : result nat :=
  match get_loc key df with
  | [] => Err (KeyError key)
  | [j] => Ok j
  | _ => Err (NotASeries key)
  end.

(** [df[mask]]: boolean selection of rows; labels are kept. *)
Definition select (keep : row -> bool) (df : DataFrame) : DataFrame :=
  {| columns := columns df; rows := filter keep (rows df) |}.

(** [Series.fillna(method='ffill')] *)
Fixpoint ffill_from (last : cell) (xs : list cell) : list cell :=
  match xs with
  | [] => []
  | x :: xs' =>
      let v := if isna x then last else x in
      v :: ffill_from v xs'
  end.

Definition ffill (xs : list cell) : list cell := ffill_from NaN xs.

(** The type pandas infers for an object column once [fillna] has run
    (the column of a sheet that holds its own header text is an object
    column): a column that holds a text stays as it is; a column without
    text is float64, its integers turned into floats, when it holds a
    missing cell or a float, and int64, cells as they are, otherwise. *)
Definition infer_objects (xs : list cell) : list cell :=
  if existsb is_text xs then xs
  else if existsb (fun c => isna c || is_float c) xs then map to_float xs
  else xs.

(** [df[key] = df[key].fillna(method='ffill')]; [df[key]] is every column
    labelled [key]. *)
Definition ffill_label (key : string) (df : DataFrame) : result DataFrame :=
  match get_loc key df with
  | [] => Err (KeyError key)
  | js =>
      Ok (fold_left
            (fun d j => set_column j (infer_objects (ffill (column j d))) d)
            js df)
  end.

(** [df.dropna(subset=[key])] *)
Definition dropna_subset (key : string) (df : DataFrame) : result DataFrame :=
  match get_loc key df with
  | [] => Err (KeyError key)
  | js => Ok (select (fun r => forallb (fun j => negb (isna (at_ j r))) js) df)
  end.

(** [Series.astype(str).str.strip()] *)
Definition astype_str_strip (xs : list cell) : list cell :=
  map (fun c => Str (strip (py_str c))) xs.

(** [Index.str.strip()]: labels that are not text become missing. *)
Definition str_strip (c : cell) : cell :=
  match c with
  | Str s => Str (strip s)
  | _ => NaN
  end.

(** [Series.str]: pandas checks the inferred type of the column before it
    hands out the accessor and raises [AttributeError] otherwise.  A
    column of dtype int64 or float64 has no accessor.  An object column
    has one when its non-missing cells are none at all, texts, or texts
    among numbers, and none when they are numbers only.  [filled] is the
    column as the fill left it, where its dtype was inferred: numeric
    when it has cells and no text among them (rows dropped later do not
    change the dtype).  [vals] are the cells of the column now. *)
Definition str_accessor (key : string) (filled vals : list cell) : result unit :=
  if (match filled with [] => false | _ => negb (existsb is_text filled) end)
     || (existsb is_number vals && negb (existsb is_text vals))
  then Err (NotText key)
  else Ok tt.

(** [Series.str.contains(pat, case=False, na=False)] at one cell. *)
Definition str_contains_nocase (pat : string) (c : cell) : bool :=
  match c with
  | Str s => contains_nocase pat s
  | _ => false
  end.

Fixpoint relabel_from (i : nat) (rs : list row) : list row :=
  match rs with
  | [] => []
  | r :: rs' => {| label := i; cells := cells r |} :: relabel_from (S i) rs'
  end.

(** [df.reset_index(drop=True)] *)
Definition reset_index (df : DataFrame) : DataFrame :=
  {| columns := columns df; rows := relabel_from 0 (rows df) |}.

Definition cells_in (cs : list cell) (seen : list (list cell)) : bool :=
  if in_dec (list_eq_dec cell_eq_dec) cs seen then true else false.

Fixpoint drop_seen (seen : list (list cell)) (rs : list row) : list row :=
  match rs with
  | [] => []
  | r :: rs' =>
      if cells_in (cells r) seen then drop_seen seen rs'
      else r :: drop_seen (cells r :: seen) rs'
  end.

(** [df.drop_duplicates()]: the first of the rows equal in every column
    stays, with its label. *)
Definition drop_duplicates (df : DataFrame) : DataFrame :=
  {| columns := columns df; rows := drop_seen [] (rows df) |}.

End Pandas.

(** ** 1. The parser (lines 5-52) *)

Module Parser.
Import PyStr Pandas.

Definition key_cols : list string :=
  [ "Segment"; "Modules(tags)"; "Hosting"; "Orientation";
    "Regulatory focus (typical)"; "AU support"; "Impl"; "Proj$";
    "Lic$ (p.a.)" ].

Definition supplier_col : string := "Supplier / Product".

(** [x in row.values] *)
Definition in_values (s : string) (vals : list cell) : bool :=
  existsb (fun c => cell_eqb c (Str s)) vals.

Definition is_header (vals : list cell) : bool :=
  in_values "Segment" vals && in_values "Supplier / Product" vals.

(** The rows of a grid, labelled [b], [b + 1], ... *)
Definition rows_from (b : nat) (g : list (list cell)) : list row :=
  map (fun p => {| label := fst p; cells := snd p |})
      (combine (seq b (List.length g)) g).

(** [df_raw.iterrows()]: the sheet is read with [header=None], its rows
    are labelled 0, 1, ... *)
Definition iterrows (df_raw : list (list cell)) : list row :=
  rows_from 0 df_raw.

(** Lines 9-13 *)
Fixpoint find_header (rs : list row) : option nat :=
  match rs with
  | [] => None
  | r :: rs' => if is_header (cells r) then Some (label r) else find_header rs'
  end.

(** Lines 37-38 *)
Fixpoint ffill_keys (keys : list string) (df : DataFrame) : result DataFrame :=
  match keys with
  | [] => Ok df
  | col :: keys' => df' <- ffill_label col df ;; ffill_keys keys' df'
  end.

(** Lines 18-20: the rows below the header, under its stripped labels. *)
Definition below_header (df_raw : list (list cell)) (h : nat) : DataFrame :=
  {| columns := map str_strip (nth h df_raw []);
     rows := skipn (h + 1) (iterrows df_raw) |}.

(** Lines 37-52 *)
Definition clean (df : DataFrame) : result DataFrame :=
  filled <- ffill_keys key_cols df ;;
  df <- dropna_subset supplier_col filled ;;
  j <- series_loc supplier_col df ;;
  let df := set_column j (astype_str_strip (column j df)) df in
  let df := select (fun r => negb (cell_eqb (at_ j r) (Str ""))) df in
  let df := select (fun r => negb (str_contains_nocase "Grand Total" (at_ j r))) df in
  k <- series_loc "Segment" df ;;
  _ <- str_accessor "Segment" (column k filled) (column k df) ;;
  let df := select (fun r => negb (str_contains_nocase "Grand Total" (at_ k r))) df in
  let df := reset_index df in
  let df := drop_duplicates df in
  Ok df.

Definition parse_pivot_rules (df_raw : list (list cell)) : result DataFrame :=
  match find_header (iterrows df_raw) with
  | None => Err HeaderNotFound
  | Some header_row_idx => clean (below_header df_raw header_row_idx)
  end.

End Parser.

(** ** 2. The script (lines 62-220) *)

Module App.
Import PyStr Pandas Parser.

(** [st.session_state], the five widget keys. *)
Record session_state : Type := {
  seg_widget : string;
  mod_widget : list string;
  host_widget : string;
  orient_widget : string;
  reg_widget : string
}.

(** Lines 76-83 *)
Definition reset_filters (_ : session_state) : session_state :=
  {| seg_widget := ""; mod_widget := []; host_widget := "";
     orient_widget := ""; reg_widget := "" |}.

(** An entry of [user_strategic_answers]: the text of a selectbox under
    its column label, or the list of the multiselect, which the script
    stores under "Modules(tags)" only. *)
Inductive entry : Type :=
| Single (key value : string)
| Modules (value : list string).

Definition nonempty_str (s : string) : bool :=
  match s with EmptyString => false | _ => true end.

Definition nonempty_list (l : list string) : bool :=
  match l with [] => false | _ => true end.

(** Lines 119-129: the dictionary, in insertion order. *)
Definition user_strategic_answers (st : session_state) : list entry :=
  (if nonempty_str (seg_widget st) then [Single "Segment" (seg_widget st)] else [])
  ++ (if nonempty_list (mod_widget st) then [Modules (mod_widget st)] else [])
  ++ (if nonempty_str (host_widget st) then [Single "Hosting" (host_widget st)] else [])
  ++ (if nonempty_str (orient_widget st) then [Single "Orientation" (orient_widget st)] else [])
  ++ (if nonempty_str (reg_widget st)
      then [Single "Regulatory focus (typical)" (reg_widget st)] else []).

(** [Series.isin(value)] at one cell. *)
Definition isin (value : list string) (c : cell) : bool :=
  existsb (cell_eqb c) (map Str value).

(** [Series == value] at one cell. *)
Definition eq_value (value : string) (c : cell) : bool :=
  cell_eqb c (Str value).

(** Lines 166-176 *)
Fixpoint filter_loop (items : list entry) (current_df : DataFrame)
  : result DataFrame :=
  match items with
  | [] => Ok current_df
  | Modules value :: items' =>
      if nonempty_list value then
        j <- series_loc "Modules(tags)" current_df ;;
        filter_loop items' (select (fun r => isin value (at_ j r)) current_df)
      else filter_loop items' current_df
  | Single key value :: items' =>
      if (key =? "Modules(tags)")%string then
        if nonempty_str value then Err TypeError
        else filter_loop items' current_df
      else if nonempty_str value then
        j <- series_loc key current_df ;;
        filter_loop items' (select (fun r => eq_value value (at_ j r)) current_df)
      else filter_loop items' current_df
  end.

Definition detail_cols : list string :=
  [ "AU support"; "Impl"; "Proj$"; "Lic$ (p.a.)" ].

(** Lines 186-189: [lambda x: ", ".join(sorted(set(x.dropna().astype(str))))] *)
Definition join_unique (x : list cell) : cell :=
  Str (join ", "
         (sorted (set (map py_str (filter (fun c => negb (isna c)) x))))).

Fixpoint texts (xs : list cell) : list string :=
  match xs with
  | [] => []
  | Str s :: xs' => s :: texts xs'
  | _ :: xs' => texts xs'
  end.

(** The keys of [groupby]: distinct and sorted; rows with a missing key
    belong to no group.  The key column of a parsed frame holds text only
    (line 42). *)
Definition group_keys (j : nat) (df : DataFrame) : list string :=
  sorted (set (texts (column j df))).

Definition group (j : nat) (key : string) (df : DataFrame) : DataFrame :=
  select (fun r => cell_eqb (at_ j r) (Str key)) df.

Fixpoint series_locs (keys : list string) (df : DataFrame) : result (list nat) :=
  match keys with
  | [] => Ok []
  | key :: keys' =>
      j <- series_loc key df ;;
      js <- series_locs keys' df ;;
      Ok (j :: js)
  end.

(** Lines 185-191: [df.groupby(by).agg({c: join_unique ...}).reset_index()] *)
Definition groupby_agg (by_ : string) (aggs : list string) (df : DataFrame)
  : result DataFrame :=
  j <- series_loc by_ df ;;
  ds <- series_locs aggs df ;;
  Ok {| columns := Str by_ :: map Str aggs;
        rows :=
          relabel_from 0
            (map (fun key =>
                    {| label := 0;
                       cells :=
                         Str key
                         :: map (fun d => join_unique (column d (group j key df))) ds |})
                 (group_keys j df)) |}.

Fixpoint lookup (mapping : list (string * string)) (s : string) : option string :=
  match mapping with
  | [] => None
  | (old, new) :: mapping' =>
      if (old =? s)%string then Some new else lookup mapping' s
  end.

(** [df.rename(columns=mapping)] *)
Definition rename (mapping : list (string * string)) (df : DataFrame) : DataFrame :=
  {| columns :=
       map (fun c =>
              match c with
              | Str s => match lookup mapping s with Some new => Str new | None => c end
              | _ => c
              end) (columns df);
     rows := rows df |}.

(** [df.sort_values(by=key)] on a column of text. *)
Definition sort_values (key : string) (df : DataFrame) : result DataFrame :=
  j <- series_loc key df ;;
  Ok {| columns := columns df;
        rows := sort_by (fun r => py_str (at_ j r)) (rows df) |}.

Definition output_columns : list string :=
  [ "Supplier / Product"; "AU Support"; "Impl. Time"; "Proj. Budget";
    "Lic. Budget (p.a.)" ].

(** Lines 182-206 *)
Definition aggregate (filtered_df : DataFrame) : result DataFrame :=
  if negb (empty filtered_df) then
    aggregated_df <- groupby_agg "Supplier / Product" detail_cols filtered_df ;;
    let aggregated_df :=
      rename [ ("AU support", "AU Support"); ("Impl", "Impl. Time");
               ("Proj$", "Proj. Budget"); ("Lic$ (p.a.)", "Lic. Budget (p.a.)") ]
             aggregated_df in
    aggregated_df <- sort_values "Supplier / Product" aggregated_df ;;
    Ok (reset_index aggregated_df)
  else
    Ok {| columns := map Str output_columns; rows := [] |}.

(** What lines 212-220 put on the page. *)
Inductive display : Type :=
| info_select_criterion                     (* line 213 *)
| warning_no_match                          (* line 215 *)
| success_dataframe (found : nat) (table : DataFrame).  (* lines 217-220 *)

(** The variables of the script once it has run. *)
Record outcome : Type := {
  answers : list entry;
  filtered_df : DataFrame;
  aggregated_df : DataFrame;
  shown : display
}.

(** Lines 119-220, on the parsed frame [df]. *)
Definition script (df : DataFrame) (st : session_state) : result outcome :=
  let user_answers := user_strategic_answers st in
  current_df <- filter_loop user_answers df ;;
  let filtered := current_df in
  aggregated <- aggregate filtered ;;
  Ok {| answers := user_answers;
        filtered_df := filtered;
        aggregated_df := aggregated;
        shown :=
          match user_answers with
          | [] => info_select_criterion
          | _ =>
              if empty aggregated then warning_no_match
              else success_dataframe (List.length (rows aggregated)) aggregated
          end |}.

End App.

(** ** What the specification says, in its own words *)

Module Spec.
Import PyStr Pandas Parser App.

(** The value of a row under a label. *)
Definition attribute (df : DataFrame) (key : string) (r : row) : cell :=
  match get_loc key df with
  | j :: _ => at_ j r
  | [] => NaN
  end.

(** Each of the ten labels the program addresses names one column. *)
Definition well_labelled (df : DataFrame) : Prop :=
  forall key, In key (supplier_col :: key_cols) -> exists j, get_loc key df = [j].

(** A normalized table: well labelled, every supplier a text. *)
Definition normalized (df : DataFrame) : Prop :=
  well_labelled df
  /\ forall r, In r (rows df) -> exists s, attribute df supplier_col r = Str s.

(** A single-select predicate: inactive when blank, else equality. *)
Definition single_ok (df : DataFrame) (key selected : string) (r : row) : Prop :=
  selected = "" \/ attribute df key r = Str selected.

(** The multi-select predicate: inactive when empty, else membership. *)
Definition modules_ok (df : DataFrame) (selected : list string) (r : row) : Prop :=
  selected = [] \/ exists tag, In tag selected /\ attribute df "Modules(tags)" r = Str tag.

(** All active predicates, conjoined. *)
Definition satisfies (df : DataFrame) (st : session_state) (r : row) : Prop :=
  single_ok df "Segment" (seg_widget st) r
  /\ modules_ok df (mod_widget st) r
  /\ single_ok df "Hosting" (host_widget st) r
  /\ single_ok df "Orientation" (orient_widget st) r
  /\ single_ok df "Regulatory focus (typical)" (reg_widget st) r.

Definition no_selection (st : session_state) : Prop :=
  seg_widget st = "" /\ mod_widget st = [] /\ host_widget st = ""
  /\ orient_widget st = "" /\ reg_widget st = "".

(** [st'] is [st] with one more active predicate. *)
Inductive adds_predicate (st : session_state) : session_state -> Prop :=
| add_segment v :
    seg_widget st = "" -> v <> "" ->
    adds_predicate st
      {| seg_widget := v; mod_widget := mod_widget st;
         host_widget := host_widget st; orient_widget := orient_widget st;
         reg_widget := reg_widget st |}
| add_modules v :
    mod_widget st = [] -> v <> [] ->
    adds_predicate st
      {| seg_widget := seg_widget st; mod_widget := v;
         host_widget := host_widget st; orient_widget := orient_widget st;
         reg_widget := reg_widget st |}
| add_hosting v :
    host_widget st = "" -> v <> "" ->
    adds_predicate st
      {| seg_widget := seg_widget st; mod_widget := mod_widget st;
         host_widget := v; orient_widget := orient_widget st;
         reg_widget := reg_widget st |}
| add_orientation v :
    orient_widget st = "" -> v <> "" ->
    adds_predicate st
      {| seg_widget := seg_widget st; mod_widget := mod_widget st;
         host_widget := host_widget st; orient_widget := v;
         reg_widget := reg_widget st |}
| add_regulatory v :
    reg_widget st = "" -> v <> "" ->
    adds_predicate st
      {| seg_widget := seg_widget st; mod_widget := mod_widget st;
         host_widget := host_widget st; orient_widget := orient_widget st;
         reg_widget := v |}.

(** The nearest non-missing value strictly above position [i] of a
    column; missing when there is none. *)
Fixpoint nearest_preceding (xs : list cell) (i : nat) : cell :=
  match i with
  | O => NaN
  | S k =>
      match nth k xs NaN with
      | NaN => nearest_preceding xs k
      | v => v
      end
  end.

(** Every row of the frame has a cell in every column. *)
Definition rectangular (df : DataFrame) : Prop :=
  Forall (fun r => List.length (cells r) = List.length (columns df)) (rows df).

(** The number of cells of each row. *)
Definition widths (df : DataFrame) : list nat :=
  map (fun r => List.length (cells r)) (rows df).

(** Lines 41-50 once the supplier column is found at [j] and the segment
    column at [k]. *)
Definition clean_at (j k : nat) (d1 : DataFrame) : DataFrame :=
  let d2 := select (fun r => forallb (fun j => negb (isna (at_ j r))) [j]) d1 in
  let d3 := set_column j (astype_str_strip (column j d2)) d2 in
  let d4 := select (fun r => negb (cell_eqb (at_ j r) (Str ""))) d3 in
  let d5 := select (fun r => negb (str_contains_nocase "Grand Total" (at_ j r))) d4 in
  let d6 := select (fun r => negb (str_contains_nocase "Grand Total" (at_ k r))) d5 in
  drop_duplicates (reset_index d6).

(** Lines 41-46 once the supplier column is found at [j]: the rows whose
    supplier is there, is not blank and is not a total. *)
Definition supplier_rows (j : nat) (d1 : DataFrame) : DataFrame :=
  let d2 := select (fun r => forallb (fun j => negb (isna (at_ j r))) [j]) d1 in
  let d3 := set_column j (astype_str_strip (column j d2)) d2 in
  let d4 := select (fun r => negb (cell_eqb (at_ j r) (Str ""))) d3 in
  select (fun r => negb (str_contains_nocase "Grand Total" (at_ j r))) d4.

(** The column starts with a missing cell. *)
Definition leading_missing (xs : list cell) : bool :=
  match xs with
  | NaN :: _ => true
  | _ => false
  end.

(** A column without text that starts with a missing cell, or holds a
    float, is a column of floats once filled. *)
Definition becomes_float (xs : list cell) : bool :=
  negb (existsb is_text xs) && (leading_missing xs || existsb is_float xs).

(** The value [v] as the filled column [xs] stores it. *)
Definition stored (xs : list cell) (v : cell) : cell :=
  if becomes_float xs then to_float v else v.

(** Every row of the sheet has the same number of cells. *)
Definition rectangular_grid (g : list (list cell)) : Prop :=
  forall r1 r2, In r1 g -> In r2 g -> List.length r1 = List.length r2.

(** The text contains the grand-total marker, whatever the case of its
    letters. *)
Definition has_marker (s : string) : Prop :=
  exists pre mid suf : string,
    s = (pre ++ mid ++ suf)%string /\ lower mid = "grand total".

(** A row of the sheet holds both marker labels as cell values. *)
Definition both_markers (vals : list cell) : Prop :=
  In (Str "Segment") vals /\ In (Str "Supplier / Product") vals.

(** [l] lists, in ascending order and once each, the texts with [P]. *)
Definition sorted_set (l : list string) (P : string -> Prop) : Prop :=
  NoDup l
  /\ StronglySorted (fun a b => (a <=? b)%string = true) l
  /\ forall s, In s l <-> P s.

(** The text of a non-missing value of column [key] in a row of
    supplier [name]. *)
Definition detail_value (df : DataFrame) (name key : string) (s : string) : Prop :=
  exists r, In r (rows df)
            /\ attribute df supplier_col r = Str name
            /\ attribute df key r <> NaN
            /\ s = py_str (attribute df key r).

(** What one dictionary entry asks of a row. *)
Definition entry_keep (df : DataFrame) (e : entry) (r : row) : bool :=
  match e with
  | Modules v =>
      if nonempty_list v then isin v (attribute df "Modules(tags)" r) else true
  | Single k v =>
      if nonempty_str v then eq_value v (attribute df k r) else true
  end.

(** The dictionary entries the script can build. *)
Definition grouping (e : entry) : Prop :=
  match e with
  | Modules _ => True
  | Single k _ =>
      In k ["Segment"; "Hosting"; "Orientation"; "Regulatory focus (typical)"]
  end.

(** The five widgets as entries, active or not. *)
Definition all_entries (st : session_state) : list entry :=
  [ Single "Segment" (seg_widget st); Modules (mod_widget st);
    Single "Hosting" (host_widget st); Single "Orientation" (orient_widget st);
    Single "Regulatory focus (typical)" (reg_widget st) ].

(** The row [groupby(...).agg(...)] computes for the group of [key],
    with the key column at [j] and the detail columns at [ds]. *)
Definition agg_row (df : DataFrame) (j : nat) (ds : list nat) (key : string) : row :=
  {| label := 0;
     cells := Str key :: map (fun d => join_unique (column d (group j key df))) ds |}.

End Spec.

(** ** A sheet to run the program on *)

Module Examples.
Import Pandas Parser App.

Definition header : list cell :=
  [ Str "Segment"; Str "Modules(tags)"; Str "Hosting"; Str "Orientation";
    Str "Regulatory focus (typical)"; Str "Supplier / Product";
    Str "AU support"; Str " Impl"; Str "Proj$"; Str "Lic$ (p.a.)" ].

Definition sheet : list (list cell) :=
  [ [ Str "GRC rules"; NaN; NaN; NaN; NaN; NaN; NaN; NaN; NaN; NaN ];
    header;
    [ Str "Finance"; Str "Risk"; Str "SaaS"; Str "Best-of-breed"; Str "APRA";
      Str " AcmeGRC "; Str "Yes"; Str "3-6m"; Num 100; Num 50 ];
    [ NaN; NaN; NaN; NaN; NaN; Str "AcmeGRC"; NaN; NaN; NaN; NaN ];
    [ NaN; Str "Audit"; NaN; NaN; NaN; Str "AcmeGRC"; NaN; NaN; Num 20; NaN ];
    [ NaN; NaN; NaN; NaN; NaN; NaN; NaN; NaN; NaN; NaN ];
    [ Str "Health"; Str "Audit"; Str "On-prem"; NaN; NaN; Str "Zeta"; Str "No";
      NaN; NaN; NaN ];
    [ Str "Grand Total"; NaN; NaN; NaN; NaN; Str "All"; NaN; NaN; NaN; NaN ] ].

(** The frame [parse_pivot_rules] returns for [sheet]. *)
Definition frame : DataFrame :=
  {| columns :=
       [ Str "Segment"; Str "Modules(tags)"; Str "Hosting"; Str "Orientation";
         Str "Regulatory focus (typical)"; Str "Supplier / Product";
         Str "AU support"; Str "Impl"; Str "Proj$"; Str "Lic$ (p.a.)" ];
     rows :=
       [ {| label := 0;
            cells := [ Str "Finance"; Str "Risk"; Str "SaaS"; Str "Best-of-breed";
                       Str "APRA"; Str "AcmeGRC"; Str "Yes"; Str "3-6m";
                       Num 100; Num 50 ] |};
         {| label := 2;
            cells := [ Str "Finance"; Str "Audit"; Str "SaaS"; Str "Best-of-breed";
                       Str "APRA"; Str "AcmeGRC"; Str "Yes"; Str "3-6m";
                       Num 20; Num 50 ] |};
         {| label := 3;
            cells := [ Str "Health"; Str "Audit"; Str "On-prem"; Str "Best-of-breed";
                       Str "APRA"; Str "Zeta"; Str "No"; Str "3-6m";
                       Num 20; Num 50 ] |} ] |}.

(** A sheet whose header names the hosting column "Hosting model". *)
Definition sheet_without_hosting : list (list cell) :=
  [ [ Str "Segment"; Str "Modules(tags)"; Str "Hosting model";
      Str "Orientation"; Str "Regulatory focus (typical)";
      Str "Supplier / Product"; Str "AU support"; Str "Impl";
      Str "Proj$"; Str "Lic$ (p.a.)" ];
    [ Str "Finance"; Str "Risk"; Str "SaaS"; Str "Suite"; Str "APRA";
      Str "AcmeGRC"; Str "Yes"; Str "3-6m"; Num 100; Num 50 ] ].

Definition blank : session_state :=
  {| seg_widget := ""; mod_widget := []; host_widget := "";
     orient_widget := ""; reg_widget := "" |}.

Definition finance : session_state :=
  {| seg_widget := "Finance"; mod_widget := []; host_widget := "";
     orient_widget := ""; reg_widget := "" |}.

Definition finance_audit : session_state :=
  {| seg_widget := "Finance"; mod_widget := ["Audit"; "Policy"]; host_widget := "";
     orient_widget := ""; reg_widget := "" |}.

Definition lower_case_finance : session_state :=
  {| seg_widget := "finance"; mod_widget := []; host_widget := "";
     orient_widget := ""; reg_widget := "" |}.

End Examples.

Import PyStr Pandas Parser App Spec.

(** ** 3. The rest of the page (lines 62-73, 99-103, 134-158) *)

Module Page.
Import PyStr Pandas Parser App.

(** A value held by [st.session_state]. *)
Inductive value : Type :=
| VStr (s : string)
| VList (l : list string).

Fixpoint dict_get (d : list (string * value)) (key : string) : option value :=
  match d with
  | [] => None
  | (k, v) :: d' => if (k =? key)%string then Some v else dict_get d' key
  end.

(** [d[key] = v] *)
Fixpoint dict_set (d : list (string * value)) (key : string) (v : value)
  : list (string * value) :=
  match d with
  | [] => [(key, v)]
  | (k, w) :: d' =>
      if (k =? key)%string then (k, v) :: d' else (k, w) :: dict_set d' key v
  end.

Definition widget_keys : list string :=
  [ "seg_widget"; "mod_widget"; "host_widget"; "orient_widget"; "reg_widget" ].

(** Lines 68-73 *)
Fixpoint init_session_state (keys : list string) (d : list (string * value))
  : list (string * value) :=
  match keys with
  | [] => d
  | key :: keys' =>
      init_session_state keys'
        (match dict_get d key with
         | Some _ => d
         | None =>
             if contains "mod" key then dict_set d key (VList [])
             else dict_set d key (VStr "")
         end)
  end.

(** Lines 76-83, on the dictionary. *)
Definition reset_dict (d : list (string * value)) : list (string * value) :=
  dict_set
    (dict_set
       (dict_set
          (dict_set (dict_set d "seg_widget" (VStr "")) "mod_widget" (VList []))
          "host_widget" (VStr ""))
       "orient_widget" (VStr ""))
    "reg_widget" (VStr "").

(** The five widget values the script reads (lines 120-129), when each has
    the type its widget writes. *)
Definition read_widgets (d : list (string * value)) : option session_state :=
  match dict_get d "seg_widget", dict_get d "mod_widget", dict_get d "host_widget",
        dict_get d "orient_widget", dict_get d "reg_widget" with
  | Some (VStr seg), Some (VList mods), Some (VStr host), Some (VStr orient),
    Some (VStr reg) =>
      Some {| seg_widget := seg; mod_widget := mods; host_widget := host;
              orient_widget := orient; reg_widget := reg |}
  | _, _, _, _, _ => None
  end.

(** [Series.dropna()] *)
Definition dropna (xs : list cell) : list cell :=
  filter (fun c => negb (isna c)) xs.

Fixpoint unique_from (seen : list cell) (xs : list cell) : list cell :=
  match xs with
  | [] => []
  | x :: xs' =>
      if existsb (cell_eqb x) seen then unique_from seen xs'
      else x :: unique_from (x :: seen) xs'
  end.

(** [Series.unique()]: the values in their order of first appearance. *)
Definition unique (xs : list cell) : list cell := unique_from [] xs.

Fixpoint all_text (xs : list cell) : option (list string) :=
  match xs with
  | [] => Some []
  | Str s :: xs' =>
      match all_text xs' with Some ts => Some (s :: ts) | None => None end
  | _ :: _ => None
  end.

Fixpoint insert_number (x : cell) (l : list cell) : list cell :=
  match l with
  | [] => [x]
  | y :: l' =>
      if (number_value x <=? number_value y)%Z then x :: l
      else y :: insert_number x l'
  end.

Fixpoint sort_numbers (l : list cell) : list cell :=
  match l with
  | [] => []
  | x :: l' => insert_number x (sort_numbers l')
  end.

(** [sorted(xs)] on non-missing cell values: texts compare with texts,
    numbers with numbers, a text with a number raises [TypeError]. *)
Definition sorted_values (xs : list cell) : result (list cell) :=
  match all_text xs with
  | Some ts => Ok (map Str (sorted ts))
  | None =>
      if forallb is_number xs then Ok (sort_numbers xs) else Err TypeError
  end.

(** [sorted(df[key].dropna().unique())] *)
Definition sorted_unique (key : string) (df : DataFrame) : result (list cell) :=
  j <- series_loc key df ;;
  sorted_values (unique (dropna (column j df))).

Record sidebar : Type := {
  seg_opts : list cell;
  mod_opts : list cell;
  host_opts : list cell;
  orient_opts : list cell;
  reg_opts : list cell
}.

(** Lines 99-103 *)
Definition sidebar_options (df : DataFrame) : result sidebar :=
  seg <- sorted_unique "Segment" df ;;
  mods <- sorted_unique "Modules(tags)" df ;;
  host <- sorted_unique "Hosting" df ;;
  orient <- sorted_unique "Orientation" df ;;
  reg <- sorted_unique "Regulatory focus (typical)" df ;;
  Ok {| seg_opts := Str "" :: seg; mod_opts := mods; host_opts := Str "" :: host;
        orient_opts := Str "" :: orient; reg_opts := Str "" :: reg |}.

(** Lines 147-152 *)
Definition col_to_key_map : list (string * string) :=
  [ ("Segment", "seg_widget"); ("Hosting", "host_widget");
    ("Orientation", "orient_widget");
    ("Regulatory focus (typical)", "reg_widget") ].

(** [st.session_state[key]] for the keys of the four selectboxes. *)
Definition session_text (st : session_state) (key : string) : option string :=
  if (key =? "seg_widget")%string then Some (seg_widget st)
  else if (key =? "host_widget")%string then Some (host_widget st)
  else if (key =? "orient_widget")%string then Some (orient_widget st)
  else if (key =? "reg_widget")%string then Some (reg_widget st)
  else None.

(** Lines 135-154: the strings appended to [active_filters]. *)
Fixpoint active_filters (st : session_state) (items : list entry)
  : result (list string) :=
  match items with
  | [] => Ok []
  | Modules value :: items' =>
      rest <- active_filters st items' ;;
      if nonempty_list value then
        Ok (("**Modules(tags)**: " ++ join ", " (sorted (mod_widget st)))%string :: rest)
      else Ok rest
  | Single key value :: items' =>
      if nonempty_str value then
        if (key =? "Modules(tags)")%string then
          rest <- active_filters st items' ;;
          Ok (("**" ++ key ++ "**: " ++ join ", " (sorted (mod_widget st)))%string :: rest)
        else
          match lookup col_to_key_map key with
          | None => Err (KeyError key)
          | Some session_state_key =>
              match session_text st session_state_key with
              | None => Err (KeyError session_state_key)
              | Some v =>
                  rest <- active_filters st items' ;;
                  Ok (("**" ++ key ++ "**: " ++ v)%string :: rest)
              end
          end
      else active_filters st items'
  end.

(** Lines 156-158: the line of active filters, when there is one. *)
Definition filters_banner (st : session_state) : result (option string) :=
  filters <- active_filters st (user_strategic_answers st) ;;
  match filters with
  | [] => Ok None
  | _ => Ok (Some (join " &nbsp; | &nbsp; " filters))
  end.

End Page.

(** ** Notions the further properties are stated with *)

Module More.
Import PyStr Pandas Parser App Page.

(** The label an entry of the answers dictionary is stored under. *)
Definition entry_key (e : entry) : string :=
  match e with
  | Single key _ => key
  | Modules _ => "Modules(tags)"
  end.

(** No column of the frame is labelled [key]. *)
Definition missing_label (df : DataFrame) (key : string) : bool :=
  match get_loc key df with
  | [] => true
  | _ => false
  end.

(** Position [j] of the frame carries one of the labels [keys]. *)
Definition labelled_among (keys : list string) (df : DataFrame) (j : nat) : Prop :=
  exists key, In key keys /\ nth_error (columns df) j = Some (Str key).

(** The session state with another list of chosen modules. *)
Definition with_modules (st : session_state) (mods : list string) : session_state :=
  {| seg_widget := seg_widget st; mod_widget := mods;
     host_widget := host_widget st; orient_widget := orient_widget st;
     reg_widget := reg_widget st |}.

(** A session state whose only selection is the segment [v]. *)
Definition only_segment (v : string) : session_state :=
  {| seg_widget := v; mod_widget := []; host_widget := "";
     orient_widget := ""; reg_widget := "" |}.

(** A frame of the same columns with the given rows. *)
Definition with_rows (df : DataFrame) (rs : list row) : DataFrame :=
  {| columns := columns df; rows := rs |}.

(** An entry as the script stores it: under a label of its kind, with a
    value that is not blank. *)
Definition active_entry (e : entry) : Prop :=
  match e with
  | Single key value =>
      nonempty_str value = true /\ (key =? "Modules(tags)")%string = false
  | Modules value => nonempty_list value = true
  end.

(** The session state with another chosen segment. *)
Definition with_segment (st : session_state) (v : string) : session_state :=
  {| seg_widget := v; mod_widget := mod_widget st;
     host_widget := host_widget st; orient_widget := orient_widget st;
     reg_widget := reg_widget st |}.

(** Two rows whose implementation times are a text and an integer. *)
Definition months_as_text : row :=
  {| label := 0;
     cells := [ Str "Finance"; Str "Risk"; Str "SaaS"; Str "Suite"; Str "APRA";
                Str "AcmeGRC"; Str "Yes"; Str "3-6m"; Num 100; Num 50 ] |}.

Definition months_as_number : row :=
  {| label := 1;
     cells := [ Str "Health"; Str "Audit"; Str "SaaS"; Str "Suite"; Str "APRA";
                Str "Zeta"; Str "No"; Num 6; Num 20; Num 50 ] |}.

Definition mixed_frame : DataFrame :=
  {| columns := columns Examples.frame;
     rows := [ months_as_text; months_as_number ] |}.

(** The choices the sidebar offers for [Examples.frame]. *)
Definition frame_sidebar : sidebar :=
  {| seg_opts := [ Str ""; Str "Finance"; Str "Health" ];
     mod_opts := [ Str "Audit"; Str "Risk" ];
     host_opts := [ Str ""; Str "On-prem"; Str "SaaS" ];
     orient_opts := [ Str ""; Str "Best-of-breed" ];
     reg_opts := [ Str ""; Str "APRA" ] |}.

(** The data rows of [Examples.sheet] once forward-filled. *)
Definition filled_sheet : DataFrame :=
  Eval vm_compute in
    match ffill_keys key_cols (below_header Examples.sheet 1) with
    | Ok d => d
    | Err _ => below_header Examples.sheet 1
    end.

(** Its row of the audit module of AcmeGRC. *)
Definition audit_row : row :=
  {| label := 4;
     cells := [ Str "Finance"; Str "Audit"; Str "SaaS"; Str "Best-of-breed";
                Str "APRA"; Str "AcmeGRC"; Str "Yes"; Str "3-6m"; Num 20; Num 50 ] |}.

(** A sheet that gives one supplier a blank AU support and a "Yes". *)
Definition blank_support_sheet : list (list cell) :=
  [ Examples.header;
    [ Str "Finance"; Str "Risk"; Str "SaaS"; Str "Suite"; Str "APRA";
      Str "AcmeGRC"; Str " "; Str "3-6m"; Num 100; Num 50 ];
    [ Str "Finance"; Str "Audit"; Str "SaaS"; Str "Suite"; Str "APRA";
      Str "AcmeGRC"; Str "Yes"; Str "3-6m"; Num 100; Num 50 ] ].

(** The frame the parser returns for it. *)
Definition blank_support_frame : DataFrame :=
  {| columns := columns Examples.frame;
     rows :=
       [ {| label := 0;
            cells := [ Str "Finance"; Str "Risk"; Str "SaaS"; Str "Suite";
                       Str "APRA"; Str "AcmeGRC"; Str " "; Str "3-6m";
                       Num 100; Num 50 ] |};
         {| label := 1;
            cells := [ Str "Finance"; Str "Audit"; Str "SaaS"; Str "Suite";
                       Str "APRA"; Str "AcmeGRC"; Str "Yes"; Str "3-6m";
                       Num 100; Num 50 ] |} ] |}.

(** A sheet whose project budget is missing in its first data row. *)
Definition sheet_budget_after_gap : list (list cell) :=
  [ Examples.header;
    [ Str "Finance"; Str "Risk"; Str "SaaS"; Str "Suite"; Str "APRA";
      Str "AcmeGRC"; Str "Yes"; Str "3-6m"; NaN; Num 50 ];
    [ Str "Finance"; Str "Audit"; Str "SaaS"; Str "Suite"; Str "APRA";
      Str "AcmeGRC"; Str "Yes"; Str "3-6m"; Num 100; Num 50 ] ].

(** [Examples.frame] with its hosting column under another label. *)
Definition frame_without_hosting : DataFrame :=
  {| columns :=
       [ Str "Segment"; Str "Modules(tags)"; Str "Hosting model";
         Str "Orientation"; Str "Regulatory focus (typical)";
         Str "Supplier / Product"; Str "AU support"; Str "Impl"; Str "Proj$";
         Str "Lic$ (p.a.)" ];
     rows := rows Examples.frame |}.

(** A session state that selects a segment and a hosting. *)
Definition finance_saas : session_state :=
  {| seg_widget := "Finance"; mod_widget := []; host_widget := "SaaS";
     orient_widget := ""; reg_widget := "" |}.

(** Two rows of a title block, as wide as [Examples.sheet]. *)
Definition title_rows : list (list cell) :=
  [ [ Str "Segment"; NaN; NaN; NaN; NaN; NaN; NaN; NaN; NaN; NaN ];
    [ NaN; Num 2024; NaN; NaN; NaN; NaN; NaN; NaN; NaN; NaN ] ].

(** A sheet whose segments are numbers. *)
Definition sheet_numbered_segments : list (list cell) :=
  [ [ Str "Segment"; Str "Modules(tags)"; Str "Hosting"; Str "Orientation";
      Str "Regulatory focus (typical)"; Str "Supplier / Product";
      Str "AU support"; Str "Impl"; Str "Proj$"; Str "Lic$ (p.a.)" ];
    [ Num 1; Str "Risk"; Str "SaaS"; Str "Suite"; Str "APRA";
      Str "AcmeGRC"; Str "Yes"; Str "3-6m"; Num 100; Num 50 ];
    [ Num 2; Str "Audit"; Str "On-prem"; Str "Suite"; Str "APRA";
      Str "Zeta"; Str "No"; Str "6-9m"; Num 20; Num 50 ] ].


(** A sheet whose header carries the supplier label twice once stripped. *)
Definition sheet_two_suppliers : list (list cell) :=
  [ [ Str "Segment"; Str "Modules(tags)"; Str "Hosting"; Str "Orientation";
      Str "Regulatory focus (typical)"; Str "Supplier / Product";
      Str "AU support"; Str "Impl"; Str "Proj$"; Str "Lic$ (p.a.)";
      Str "Supplier / Product " ];
    [ Str "Finance"; Str "Risk"; Str "SaaS"; Str "Suite"; Str "APRA";
      Str "AcmeGRC"; Str "Yes"; Str "3-6m"; Num 100; Num 50; Str "Acme" ] ].

End More.

Import Page More.

(** * Proofs *)

(** ** Frames and labels *)

Section Labels.

Lemma cell_eqb_eq a b : cell_eqb a b = true <-> a = b.
Proof.
  unfold cell_eqb. destruct (cell_eq_dec a b); split; congruence.
Qed.

Lemma cell_eqb_refl a : cell_eqb a a = true.
Proof. now apply cell_eqb_eq. Qed.

Lemma series_loc_same_columns key df df' :
  columns df = columns df' -> series_loc key df = series_loc key df'.
Proof. intros H. unfold series_loc, get_loc. now rewrite H. Qed.

Lemma get_loc_same_columns key df df' :
  columns df = columns df' -> get_loc key df = get_loc key df'.
Proof. intros H. unfold get_loc. now rewrite H. Qed.

Lemma attribute_same_columns key df df' r :
  columns df = columns df' -> attribute df key r = attribute df' key r.
Proof. intros H. unfold attribute. now rewrite (get_loc_same_columns key df df' H). Qed.

Lemma series_loc_get_loc key df j :
  get_loc key df = [j] -> series_loc key df = Ok j.
Proof. intros H. unfold series_loc. now rewrite H. Qed.

Lemma series_loc_inv key df j :
  series_loc key df = Ok j -> get_loc key df = [j].
Proof.
  unfold series_loc. destruct (get_loc key df) as [|a [|b l]]; congruence.
Qed.

Lemma attribute_get_loc key df j r :
  get_loc key df = [j] -> attribute df key r = at_ j r.
Proof. intros H. unfold attribute. now rewrite H. Qed.

Lemma well_labelled_same_columns df df' :
  columns df = columns df' -> well_labelled df -> well_labelled df'.
Proof.
  intros H W key Hk. destruct (W key Hk) as [j Hj]. exists j.
  now rewrite <- (get_loc_same_columns key df df' H).
Qed.

End Labels.

(** ** The filter loop *)

Section FilterLoop.

Lemma filter_filter {A} (f g : A -> bool) l :
  filter f (filter g l) = filter (fun x => g x && f x) l.
Proof.
  induction l as [|x l IH]; simpl; [reflexivity|].
  destruct (g x); simpl; [destruct (f x)|]; now rewrite IH.
Qed.

Lemma filter_all {A} (l : list A) : filter (fun _ => true) l = l.
Proof. induction l as [|x l IH]; simpl; congruence. Qed.

Lemma filter_length_implies {A} (f g : A -> bool) l :
  (forall x, f x = true -> g x = true) ->
  List.length (filter f l) <= List.length (filter g l).
Proof.
  intros H. induction l as [|x l IH]; simpl; [lia|].
  destruct (f x) eqn:Hf.
  - rewrite (H x Hf). simpl. lia.
  - destruct (g x); simpl; lia.
Qed.

Lemma grouping_label_single k :
  In k ["Segment"; "Hosting"; "Orientation"; "Regulatory focus (typical)"] ->
  (k =? "Modules(tags)")%string = false /\ In k (supplier_col :: key_cols).
Proof.
  intros [<-|[<-|[<-|[<-|[]]]]]; split; try reflexivity;
    unfold supplier_col, key_cols; simpl; tauto.
Qed.

(** The loop keeps the columns and selects the rows every entry keeps. *)
Lemma filter_loop_spec df items :
  well_labelled df -> Forall grouping items ->
  forall cur, columns cur = columns df ->
    filter_loop items cur =
      Ok {| columns := columns cur;
            rows := filter (fun r => forallb (fun e => entry_keep df e r) items)
                           (rows cur) |}.
Proof.
  intros W. induction 1 as [|e items He Hitems IH]; intros cur Hc.
  - simpl. destruct cur as [c rs]. simpl. now rewrite filter_all.
  - destruct e as [k v|v]; simpl in *.
    + destruct (grouping_label_single k He) as [-> Hk].
      destruct (W k Hk) as [j Hj].
      destruct (nonempty_str v).
      * rewrite (series_loc_same_columns k cur df Hc), (series_loc_get_loc _ _ _ Hj).
        simpl. rewrite IH by exact Hc. simpl. rewrite filter_filter.
        f_equal. f_equal. apply filter_ext. intros r.
        now rewrite (attribute_get_loc _ _ _ r Hj).
      * now rewrite IH.
    + destruct (W "Modules(tags)") as [j Hj];
        [unfold supplier_col, key_cols; simpl; tauto|].
      destruct (nonempty_list v).
      * rewrite (series_loc_same_columns _ cur df Hc), (series_loc_get_loc _ _ _ Hj).
        simpl. rewrite IH by exact Hc. simpl. rewrite filter_filter.
        f_equal. f_equal. apply filter_ext. intros r.
        now rewrite (attribute_get_loc _ _ _ r Hj).
      * now rewrite IH.
Qed.

Lemma filter_loop_cons_ext e l1 l2 :
  (forall cur, filter_loop l1 cur = filter_loop l2 cur) ->
  forall cur, filter_loop (e :: l1) cur = filter_loop (e :: l2) cur.
Proof.
  intros H cur. destruct e as [k v|v]; simpl.
  - destruct (k =? "Modules(tags)")%string, (nonempty_str v); try apply H; try reflexivity.
    destruct (series_loc k cur); simpl; [apply H | reflexivity].
  - destruct (nonempty_list v); try apply H.
    destruct (series_loc "Modules(tags)" cur); simpl; [apply H | reflexivity].
Qed.

Lemma filter_loop_blank_single k v rest cur :
  filter_loop ((if nonempty_str v then [Single k v] else []) ++ rest) cur
  = filter_loop (Single k v :: rest) cur.
Proof.
  destruct (nonempty_str v) eqn:E; simpl; [reflexivity|].
  rewrite E. now destruct (k =? "Modules(tags)")%string.
Qed.

Lemma filter_loop_blank_modules v rest cur :
  filter_loop ((if nonempty_list v then [Modules v] else []) ++ rest) cur
  = filter_loop (Modules v :: rest) cur.
Proof.
  destruct (nonempty_list v) eqn:E; simpl; [reflexivity|]. now rewrite E.
Qed.

(** Entries of blank widgets change nothing: the dictionary filters as
    the five widgets do. *)
Lemma filter_loop_answers st cur :
  filter_loop (user_strategic_answers st) cur = filter_loop (all_entries st) cur.
Proof.
  unfold user_strategic_answers, all_entries.
  rewrite filter_loop_blank_single. revert cur. apply filter_loop_cons_ext. intros cur.
  rewrite filter_loop_blank_modules. revert cur. apply filter_loop_cons_ext. intros cur.
  rewrite filter_loop_blank_single. revert cur. apply filter_loop_cons_ext. intros cur.
  rewrite filter_loop_blank_single. revert cur. apply filter_loop_cons_ext. intros cur.
  rewrite <- (app_nil_r (if nonempty_str (reg_widget st) then _ else _)).
  now rewrite filter_loop_blank_single.
Qed.

Lemma all_entries_grouping st : Forall grouping (all_entries st).
Proof. unfold all_entries. repeat constructor; simpl; tauto. Qed.

Lemma nonempty_str_false s : nonempty_str s = false <-> s = "".
Proof. destruct s; simpl; split; congruence. Qed.

Lemma nonempty_list_false l : nonempty_list l = false <-> l = [].
Proof. destruct l; simpl; split; congruence. Qed.

Lemma single_keep_iff df k v r :
  entry_keep df (Single k v) r = true <-> single_ok df k v r.
Proof.
  unfold single_ok. simpl. destruct (nonempty_str v) eqn:E.
  - unfold eq_value. rewrite cell_eqb_eq. split; [tauto|].
    intros [->|H]; [discriminate | exact H].
  - apply nonempty_str_false in E. tauto.
Qed.

Lemma isin_iff v c :
  isin v c = true <-> exists tag, In tag v /\ c = Str tag.
Proof.
  unfold isin. rewrite existsb_exists. split.
  - intros [x [Hx Hc]]. apply in_map_iff in Hx as [tag [<- Ht]].
    apply cell_eqb_eq in Hc. eauto.
  - intros [tag [Ht ->]]. exists (Str tag). split; [now apply in_map | apply cell_eqb_refl].
Qed.

Lemma modules_keep_iff df v r :
  entry_keep df (Modules v) r = true <-> modules_ok df v r.
Proof.
  unfold modules_ok. simpl. destruct (nonempty_list v) eqn:E.
  - rewrite isin_iff. split; [tauto|].
    intros [->|H]; [discriminate | exact H].
  - apply nonempty_list_false in E. tauto.
Qed.

Lemma all_entries_keep_iff df st r :
  forallb (fun e => entry_keep df e r) (all_entries st) = true <-> satisfies df st r.
Proof.
  unfold all_entries, satisfies. cbn [forallb].
  rewrite !andb_true_iff, !single_keep_iff, modules_keep_iff. tauto.
Qed.

Lemma filter_rows_spec df st :
  well_labelled df ->
  filter_loop (user_strategic_answers st) df =
    Ok {| columns := columns df;
          rows := filter (fun r => forallb (fun e => entry_keep df e r) (all_entries st))
                         (rows df) |}.
Proof.
  intros W. rewrite filter_loop_answers.
  now apply filter_loop_spec; [|apply all_entries_grouping|].
Qed.

End FilterLoop.

(** ** The example sheet *)

Ltac labels_by_computation :=
  let key := fresh "key" in
  let Hk := fresh "Hk" in
  intros key Hk; simpl in Hk;
  repeat (destruct Hk as [<-|Hk]; [eexists; reflexivity|]);
  contradiction.

Example parse_example_sheet : parse_pivot_rules Examples.sheet = Ok Examples.frame.
Proof. vm_compute. reflexivity. Qed.

Lemma example_frame_well_labelled : well_labelled Examples.frame.
Proof. labels_by_computation. Qed.

(** ** Claims on the filter engine *)

Section FilterClaims.

(** C1: the filter keeps exactly the rows that satisfy every active
    predicate -- equality with the chosen text for the four single-select
    attributes (no case folding), membership of the row's tag in the
    chosen list for the modules -- all of them conjoined; the columns
    and the order of the rows stay. *)
Theorem filter_keeps_satisfying_rows df st :
  well_labelled df ->
  exists keep : row -> bool,
    (forall r, keep r = true <-> satisfies df st r)
    /\ filter_loop (user_strategic_answers st) df
       = Ok {| columns := columns df; rows := filter keep (rows df) |}.
Proof.
  intros W.
  exists (fun r => forallb (fun e => entry_keep df e r) (all_entries st)).
  split; [intros r; apply all_entries_keep_iff | now apply filter_rows_spec].
Qed.

(** C8: one more active predicate never gives more rows. *)
Theorem filter_monotonic df st st' :
  well_labelled df -> adds_predicate st st' ->
  exists f f',
    filter_loop (user_strategic_answers st) df = Ok f
    /\ filter_loop (user_strategic_answers st') df = Ok f'
    /\ List.length (rows f') <= List.length (rows f).
Proof.
  intros W Hadd. do 2 eexists.
  split; [now apply filter_rows_spec|]. split; [now apply filter_rows_spec|].
  cbn [rows]. apply filter_length_implies. intros r.
  rewrite !all_entries_keep_iff. unfold satisfies, single_ok, modules_ok.
  destruct Hadd; simpl; intuition.
Qed.

(** C10: a filtered row is a row of the table, field for field; the
    filter removes rows and writes no cell. *)
Theorem filter_never_rewrites df st :
  well_labelled df ->
  exists f,
    filter_loop (user_strategic_answers st) df = Ok f
    /\ columns f = columns df
    /\ forall r, In r (rows f) -> In r (rows df).
Proof.
  intros W. eexists. split; [now apply filter_rows_spec|]. simpl.
  split; [reflexivity|]. intros r Hr. now apply filter_In in Hr.
Qed.

Lemma filter_keeps_satisfying_rows_witness :
  well_labelled Examples.frame
  /\ exists keep : row -> bool,
       (forall r, keep r = true <-> satisfies Examples.frame Examples.finance_audit r)
       /\ filter_loop (user_strategic_answers Examples.finance_audit) Examples.frame
          = Ok {| columns := columns Examples.frame;
                  rows := filter keep (rows Examples.frame) |}.
Proof.
  split; [labels_by_computation|].
  apply (filter_keeps_satisfying_rows Examples.frame Examples.finance_audit).
  labels_by_computation.
Defined.

Lemma filter_monotonic_witness :
  well_labelled Examples.frame
  /\ adds_predicate Examples.finance Examples.finance_audit
  /\ exists f f',
       filter_loop (user_strategic_answers Examples.finance) Examples.frame = Ok f
       /\ filter_loop (user_strategic_answers Examples.finance_audit) Examples.frame = Ok f'
       /\ List.length (rows f') <= List.length (rows f).
Proof.
  assert (Hadd : adds_predicate Examples.finance Examples.finance_audit)
    by (apply (add_modules Examples.finance ["Audit"; "Policy"]);
        [reflexivity | discriminate]).
  split; [labels_by_computation|]. split; [exact Hadd|].
  apply (filter_monotonic Examples.frame Examples.finance Examples.finance_audit);
    [labels_by_computation | exact Hadd].
Defined.

Lemma filter_never_rewrites_witness :
  well_labelled Examples.frame
  /\ exists f,
       filter_loop (user_strategic_answers Examples.lower_case_finance) Examples.frame = Ok f
       /\ columns f = columns Examples.frame
       /\ forall r, In r (rows f) -> In r (rows Examples.frame).
Proof.
  split; [labels_by_computation|].
  apply (filter_never_rewrites Examples.frame Examples.lower_case_finance).
  labels_by_computation.
Defined.

End FilterClaims.

(** ** The aggregation and the page *)

Section Script.

Lemma series_locs_detail f :
  well_labelled f ->
  exists d1 d2 d3 d4,
    get_loc "AU support" f = [d1] /\ get_loc "Impl" f = [d2]
    /\ get_loc "Proj$" f = [d3] /\ get_loc "Lic$ (p.a.)" f = [d4]
    /\ series_locs detail_cols f = Ok [d1; d2; d3; d4].
Proof.
  intros W.
  destruct (W "AU support") as [d1 H1]; [unfold supplier_col, key_cols; simpl; tauto|].
  destruct (W "Impl") as [d2 H2]; [unfold supplier_col, key_cols; simpl; tauto|].
  destruct (W "Proj$") as [d3 H3]; [unfold supplier_col, key_cols; simpl; tauto|].
  destruct (W "Lic$ (p.a.)") as [d4 H4]; [unfold supplier_col, key_cols; simpl; tauto|].
  exists d1, d2, d3, d4. repeat (split; [assumption|]).
  unfold detail_cols, series_locs.
  now rewrite (series_loc_get_loc _ _ _ H1), (series_loc_get_loc _ _ _ H2),
    (series_loc_get_loc _ _ _ H3), (series_loc_get_loc _ _ _ H4).
Qed.

Lemma aggregate_empty f :
  empty f = true ->
  aggregate f = Ok {| columns := map Str output_columns; rows := [] |}.
Proof. intros H. unfold aggregate. now rewrite H. Qed.

Lemma empty_no_rows f : rows f = [] -> empty f = true.
Proof. intros H. unfold empty. rewrite H. now destruct (columns f). Qed.

Lemma empty_false_rows f : well_labelled f -> rows f <> [] -> empty f = false.
Proof.
  intros W H. unfold empty.
  destruct (W supplier_col) as [j Hj]; [simpl; tauto|].
  unfold get_loc in Hj.
  destruct (columns f); [discriminate|]. now destruct (rows f).
Qed.

(** Lines 185-202 on a frame with rows. *)
Lemma aggregate_rows f :
  well_labelled f -> empty f = false ->
  exists j d1 d2 d3 d4,
    get_loc supplier_col f = [j]
    /\ get_loc "AU support" f = [d1] /\ get_loc "Impl" f = [d2]
    /\ get_loc "Proj$" f = [d3] /\ get_loc "Lic$ (p.a.)" f = [d4]
    /\ aggregate f =
         Ok {| columns := map Str output_columns;
               rows :=
                 relabel_from 0
                   (sort_by (fun r => py_str (at_ 0 r))
                      (relabel_from 0
                         (map (agg_row f j [d1; d2; d3; d4]) (group_keys j f)))) |}.
Proof.
  intros W He.
  destruct (W supplier_col) as [j Hj]; [simpl; tauto|].
  destruct (series_locs_detail f W) as (d1 & d2 & d3 & d4 & H1 & H2 & H3 & H4 & Hd).
  exists j, d1, d2, d3, d4. repeat (split; [assumption|]).
  unfold aggregate, groupby_agg. rewrite He. cbn [negb].
  change "Supplier / Product" with supplier_col.
  rewrite (series_loc_get_loc _ _ _ Hj), Hd. reflexivity.
Qed.

Lemma aggregate_total f :
  well_labelled f ->
  exists a, aggregate f = Ok a /\ columns a = map Str output_columns.
Proof.
  intros W. destruct (empty f) eqn:He.
  - eexists. split; [now apply aggregate_empty | reflexivity].
  - destruct (aggregate_rows f W He) as (j & d1 & d2 & d3 & d4 & _ & _ & _ & _ & _ & H).
    eexists. split; [exact H | reflexivity].
Qed.

Lemma script_total df st :
  well_labelled df ->
  exists f a,
    filter_loop (user_strategic_answers st) df = Ok f
    /\ columns f = columns df
    /\ aggregate f = Ok a
    /\ columns a = map Str output_columns
    /\ script df st =
         Ok {| answers := user_strategic_answers st;
               filtered_df := f;
               aggregated_df := a;
               shown :=
                 match user_strategic_answers st with
                 | [] => info_select_criterion
                 | _ =>
                     if empty a then warning_no_match
                     else success_dataframe (List.length (rows a)) a
                 end |}.
Proof.
  intros W.
  pose proof (filter_rows_spec df st W) as Hf.
  set (f := {| columns := columns df; rows := _ |}) in Hf.
  assert (Wf : well_labelled f) by now apply (well_labelled_same_columns df f).
  destruct (aggregate_total f Wf) as (a & Ha & Hc).
  exists f, a. repeat (split; [assumption || reflexivity|]).
  unfold script. rewrite Hf. cbn [bind]. rewrite Ha. reflexivity.
Qed.

(** C9: when no row survives, the aggregated frame is an empty table
    under the five output columns, the columns every aggregated result
    has. *)
Theorem empty_result_same_shape df st :
  well_labelled df ->
  exists out,
    script df st = Ok out
    /\ columns (aggregated_df out) = map Str output_columns
    /\ (rows (filtered_df out) = [] ->
        aggregated_df out = {| columns := map Str output_columns; rows := [] |}).
Proof.
  intros W.
  destruct (script_total df st W) as (f & a & Hf & Hfc & Ha & Hc & Hs).
  eexists. split; [exact Hs|]. cbn [aggregated_df filtered_df].
  split; [exact Hc|]. intros Hr.
  rewrite (aggregate_empty f (empty_no_rows f Hr)) in Ha. congruence.
Qed.

Lemma empty_result_same_shape_witness :
  well_labelled Examples.frame
  /\ exists out,
       script Examples.frame Examples.lower_case_finance = Ok out
       /\ columns (aggregated_df out) = map Str output_columns
       /\ (rows (filtered_df out) = [] ->
           aggregated_df out = {| columns := map Str output_columns; rows := [] |}).
Proof.
  split; [labels_by_computation|].
  apply (empty_result_same_shape Examples.frame Examples.lower_case_finance).
  labels_by_computation.
Defined.

Lemma no_selection_answers st :
  no_selection st -> user_strategic_answers st = [].
Proof.
  intros (H1 & H2 & H3 & H4 & H5). unfold user_strategic_answers.
  now rewrite H1, H2, H3, H4, H5.
Qed.

(** C5, as the code has it: with no active predicate the page shows the
    prompt to select a criterion and no table; the frame is left whole
    and its aggregation is computed all the same, unseen. *)
Theorem no_selection_prompts df st :
  well_labelled df -> no_selection st ->
  exists out,
    script df st = Ok out
    /\ shown out = info_select_criterion
    /\ filtered_df out = df
    /\ aggregate df = Ok (aggregated_df out).
Proof.
  intros W Hn. destruct (aggregate_total df W) as (a & Ha & _).
  exists {| answers := []; filtered_df := df; aggregated_df := a;
            shown := info_select_criterion |}.
  repeat split; try assumption.
  unfold script. rewrite (no_selection_answers st Hn). cbn [filter_loop bind].
  now rewrite Ha.
Qed.

Lemma no_selection_prompts_witness :
  well_labelled Examples.frame /\ no_selection Examples.blank
  /\ exists out,
       script Examples.frame Examples.blank = Ok out
       /\ shown out = info_select_criterion
       /\ filtered_df out = Examples.frame
       /\ aggregate Examples.frame = Ok (aggregated_df out).
Proof.
  split; [labels_by_computation|].
  split; [repeat split; reflexivity|].
  apply (no_selection_prompts Examples.frame Examples.blank);
    [labels_by_computation | repeat split; reflexivity].
Defined.

(** C5, as stated, fails: with every widget blank the script still runs
    the aggregation, over the whole frame; only the page leaves it out. *)
Lemma no_selection_still_aggregates :
  no_selection Examples.blank
  /\ script Examples.frame Examples.blank =
       Ok {| answers := [];
             filtered_df := Examples.frame;
             aggregated_df :=
               {| columns := map Str output_columns;
                  rows :=
                    [ {| label := 0;
                         cells := [ Str "AcmeGRC"; Str "Yes"; Str "3-6m";
                                    Str "100, 20"; Str "50" ] |};
                      {| label := 1;
                         cells := [ Str "Zeta"; Str "No"; Str "3-6m";
                                    Str "20"; Str "50" ] |} ] |};
             shown := info_select_criterion |}.
Proof. split; [repeat split; reflexivity | vm_compute; reflexivity]. Qed.

End Script.

(** ** The header row *)

Section Header.

Lemma in_values_iff s vals : in_values s vals = true <-> In (Str s) vals.
Proof.
  unfold in_values. rewrite existsb_exists. split.
  - intros [c [Hc He]]. apply cell_eqb_eq in He. now subst.
  - intros H. exists (Str s). split; [assumption | apply cell_eqb_refl].
Qed.

Lemma is_header_iff vals : is_header vals = true <-> both_markers vals.
Proof.
  unfold is_header, both_markers. now rewrite andb_true_iff, !in_values_iff.
Qed.

Lemma is_header_false vals : is_header vals = false <-> ~ both_markers vals.
Proof.
  rewrite <- is_header_iff. destruct (is_header vals); split; congruence.
Qed.

Lemma find_header_none b g :
  find_header (rows_from b g) = None <-> forall vals, In vals g -> ~ both_markers vals.
Proof.
  revert b. induction g as [|v g IH]; intros b.
  - simpl. split; [intros _ vals [] | reflexivity].
  - unfold rows_from. cbn. fold (rows_from (S b) g).
    destruct (is_header v) eqn:E.
    + split; [discriminate|]. intros H. exfalso.
      apply (H v); [now left | now apply is_header_iff].
    + rewrite IH. apply is_header_false in E. split.
      * intros H vals [<-|Hv]; auto.
      * intros H vals Hv. apply H. now right.
Qed.

Lemma find_header_some b g h :
  find_header (rows_from b g) = Some h ->
  b <= h
  /\ exists hdr,
       nth_error g (h - b) = Some hdr /\ both_markers hdr
       /\ forall i v, i < h - b -> nth_error g i = Some v -> ~ both_markers v.
Proof.
  revert b. induction g as [|v g IH]; intros b.
  - discriminate.
  - unfold rows_from. cbn. fold (rows_from (S b) g).
    destruct (is_header v) eqn:E.
    + intros [= <-]. split; [lia|]. exists v. rewrite Nat.sub_diag.
      split; [reflexivity|]. split; [now apply is_header_iff|]. intros; lia.
    + intros H. destruct (IH _ H) as (Hb & hdr & Hn & Hm & Hfirst).
      split; [lia|]. exists hdr.
      replace (h - b) with (S (h - S b)) by lia.
      split; [exact Hn|]. split; [exact Hm|].
      intros [|i] w Hi Hw.
      * injection Hw as <-. now apply is_header_false.
      * apply (Hfirst i w); [lia | exact Hw].
Qed.

Lemma rows_from_cons b v g :
  rows_from b (v :: g) = {| label := b; cells := v |} :: rows_from (S b) g.
Proof. reflexivity. Qed.

Lemma rows_from_cells g : forall b, map cells (rows_from b g) = g.
Proof.
  induction g as [|v g IH]; intros b; [reflexivity|].
  rewrite rows_from_cons. simpl. now rewrite IH.
Qed.

Lemma skipn_cells n (rs : list row) : map cells (skipn n rs) = skipn n (map cells rs).
Proof.
  revert rs. induction n as [|n IH]; intros [|r rs]; simpl; try reflexivity. apply IH.
Qed.

Lemma ffill_keys_not_header_error keys df :
  ffill_keys keys df <> Err HeaderNotFound.
Proof.
  revert df. induction keys as [|k keys IH]; intros df; simpl; [discriminate|].
  unfold ffill_label. destruct (get_loc k df); simpl; [discriminate | apply IH].
Qed.

Lemma series_loc_not_header_error key df :
  series_loc key df <> Err HeaderNotFound.
Proof.
  unfold series_loc. destruct (get_loc key df) as [|a [|b l]]; discriminate.
Qed.

(** Past the header search no step reports a missing header. *)
Lemma clean_not_header_error df : clean df <> Err HeaderNotFound.
Proof.
  unfold clean.
  destruct (ffill_keys key_cols df) as [d1|e] eqn:E1; simpl;
    [|intros [= ->]; now apply (ffill_keys_not_header_error key_cols df)].
  unfold dropna_subset. destruct (get_loc supplier_col d1) eqn:E2; simpl; [discriminate|].
  match goal with |- context [series_loc supplier_col ?d] =>
    destruct (series_loc supplier_col d) as [j|e] eqn:E3 end; simpl;
    [|intros [= ->]; now apply (series_loc_not_header_error _ _ E3)].
  match goal with |- context [series_loc "Segment" ?d] =>
    destruct (series_loc "Segment" d) as [k|e] eqn:E4 end; cbn [bind];
    [|intros [= ->]; now apply (series_loc_not_header_error _ _ E4)].
  match goal with |- context [str_accessor ?a ?b ?c] =>
    destruct (str_accessor a b c) as [u|e] eqn:E5 end; cbn [bind];
    [discriminate|].
  unfold str_accessor in E5.
  match type of E5 with (if ?b then _ else _) = _ => destruct b end;
    [injection E5 as <- | discriminate E5]. discriminate.
Qed.

End Header.

(** ** Forward fill *)

Section ForwardFill.

Lemma nearest_preceding_cons x xs k :
  nearest_preceding (x :: xs) (S k) =
    match nearest_preceding xs k with
    | NaN => x
    | v => v
    end.
Proof.
  induction k as [|k IH].
  - simpl. now destruct x.
  - change (nearest_preceding (x :: xs) (S (S k)))
      with (match nth k xs NaN with
            | NaN => nearest_preceding (x :: xs) (S k)
            | v => v
            end).
    rewrite IH. simpl. now destruct (nth k xs NaN).
Qed.

Lemma ffill_from_nth xs : forall last i,
  i < List.length xs ->
  nth i (ffill_from last xs) NaN =
    match nth i xs NaN with
    | NaN => match nearest_preceding xs i with NaN => last | v => v end
    | v => v
    end.
Proof.
  induction xs as [|x xs IH]; intros last i Hi; simpl in Hi; [lia|].
  destruct i as [|i].
  - simpl. now destruct x.
  - cbn [ffill_from nth]. rewrite IH by lia. rewrite nearest_preceding_cons.
    destruct (nth i xs NaN); try reflexivity.
    destruct (nearest_preceding xs i); try reflexivity.
    now destruct x.
Qed.

(** The Series operation: a missing value takes the nearest value
    above it. *)
Lemma ffill_nth xs i :
  i < List.length xs ->
  nth i (ffill xs) NaN =
    match nth i xs NaN with
    | NaN => nearest_preceding xs i
    | v => v
    end.
Proof.
  intros Hi. unfold ffill. rewrite ffill_from_nth by exact Hi.
  destruct (nth i xs NaN); try reflexivity.
  now destruct (nearest_preceding xs i).
Qed.

Lemma nearest_preceding_missing xs i :
  nearest_preceding xs i = NaN <-> forall k, k < i -> nth k xs NaN = NaN.
Proof.
  induction i as [|i IH].
  - simpl. split; [intros _ k Hk; lia | reflexivity].
  - simpl. destruct (nth i xs NaN) eqn:E.
    + rewrite IH. split.
      * intros H k Hk. destruct (Nat.eq_dec k i) as [->|]; [exact E | apply H; lia].
      * intros H k Hk. apply H. lia.
    + split; [discriminate|]. intros H. rewrite <- E. apply H. lia.
    + split; [discriminate|]. intros H. rewrite <- E. apply H. lia.
    + split; [discriminate|]. intros H. rewrite <- E. apply H. lia.
Qed.

Lemma ffill_from_length xs : forall last,
  List.length (ffill_from last xs) = List.length xs.
Proof. induction xs as [|x xs IH]; intros last; simpl; [reflexivity | now rewrite IH]. Qed.

Lemma ffill_length xs : List.length (ffill xs) = List.length xs.
Proof. apply ffill_from_length. Qed.

Lemma infer_objects_length xs : List.length (infer_objects xs) = List.length xs.
Proof.
  unfold infer_objects. destruct (existsb is_text xs); [reflexivity|].
  destruct (existsb _ xs); [apply length_map | reflexivity].
Qed.

Lemma set_nth_length j v l : List.length (set_nth j v l) = List.length l.
Proof.
  revert j. induction l as [|x l IH]; intros [|j]; simpl; try reflexivity.
  now rewrite IH.
Qed.

Lemma nth_set_nth_same j v l :
  j < List.length l -> nth j (set_nth j v l) NaN = v.
Proof.
  revert j. induction l as [|x l IH]; intros [|j] H; simpl in *; try lia.
  - reflexivity.
  - apply IH. lia.
Qed.

Lemma nth_set_nth_other j j' v l :
  j <> j' -> nth j' (set_nth j v l) NaN = nth j' l NaN.
Proof.
  revert j j'. induction l as [|x l IH]; intros [|j] [|j'] H; simpl; try reflexivity.
  - congruence.
  - apply IH. congruence.
Qed.

Lemma set_values_other j j' vals rs :
  j <> j' -> map (at_ j') (set_values j vals rs) = map (at_ j') rs.
Proof.
  intros H. revert vals. induction rs as [|r rs IH]; intros [|v vals]; simpl; try reflexivity.
  rewrite IH. f_equal. unfold at_. simpl. now apply nth_set_nth_other.
Qed.

Lemma set_values_same j vals rs :
  List.length vals = List.length rs ->
  Forall (fun r => j < List.length (cells r)) rs ->
  map (at_ j) (set_values j vals rs) = vals.
Proof.
  revert vals. induction rs as [|r rs IH]; intros [|v vals] Hl Hw;
    simpl in *; try discriminate; [reflexivity|].
  inversion Hw; subst. rewrite IH by (assumption || lia). f_equal.
  unfold at_. simpl. now apply nth_set_nth_same.
Qed.

Lemma set_values_widths j vals rs :
  map (fun r => List.length (cells r)) (set_values j vals rs)
  = map (fun r => List.length (cells r)) rs.
Proof.
  revert vals. induction rs as [|r rs IH]; intros [|v vals]; simpl; try reflexivity.
  now rewrite IH, set_nth_length.
Qed.

Lemma set_values_labels j vals rs :
  map label (set_values j vals rs) = map label rs.
Proof.
  revert vals. induction rs as [|r rs IH]; intros [|v vals]; simpl; try reflexivity.
  now rewrite IH.
Qed.

Lemma wide_enough df j :
  rectangular df -> j < List.length (columns df) ->
  Forall (fun w => j < w) (widths df).
Proof.
  unfold rectangular, widths. intros R Hj. rewrite Forall_map.
  eapply Forall_impl; [|exact R]. simpl. intros r Hr. now rewrite Hr.
Qed.

Lemma get_loc_from_In b key cols j :
  In j (get_loc_from b key cols)
  <-> b <= j /\ nth_error cols (j - b) = Some (Str key).
Proof.
  revert b. induction cols as [|c cols IH]; intros b; simpl.
  - split; [intros [] | intros [_ H]]. now destruct (j - b).
  - assert (Hcase : (b <= j /\ nth_error (c :: cols) (j - b) = Some (Str key))
                    <-> (j = b /\ c = Str key)
                        \/ (S b <= j /\ nth_error cols (j - S b) = Some (Str key))).
    { destruct (Nat.eq_dec j b) as [->|Hne].
      - rewrite Nat.sub_diag. simpl. split.
        + intros [_ [= ->]]. now left.
        + intros [[_ ->]|[H _]]; [split; [lia | reflexivity] | lia].
      - split.
        + intros [Hb Hn]. right. split; [lia|].
          replace (j - b) with (S (j - S b)) in Hn by lia. exact Hn.
        + intros [[-> _]|[Hb Hn]]; [congruence|]. split; [lia|].
          replace (j - b) with (S (j - S b)) by lia. exact Hn. }
    rewrite Hcase. destruct (cell_eqb c (Str key)) eqn:E.
    + apply cell_eqb_eq in E. simpl. rewrite IH. intuition.
    + rewrite IH. split; [tauto|]. intros [[_ Hc]|H]; [|exact H].
      apply cell_eqb_eq in Hc. congruence.
Qed.

Lemma get_loc_In key df j :
  In j (get_loc key df) <-> nth_error (columns df) j = Some (Str key).
Proof.
  unfold get_loc. rewrite get_loc_from_In, Nat.sub_0_r. intuition lia.
Qed.

Lemma get_loc_from_NoDup b key cols : NoDup (get_loc_from b key cols).
Proof.
  revert b. induction cols as [|c cols IH]; intros b; simpl; [constructor|].
  destruct (cell_eqb c (Str key)); [|apply IH].
  constructor; [|apply IH]. rewrite get_loc_from_In. lia.
Qed.

(** One assignment per position of the label: the columns at [js] are
    filled, every other column stays. *)
Lemma fill_positions js : forall d,
  NoDup js ->
  (forall j, In j js -> Forall (fun w => j < w) (widths d)) ->
  let d' :=
    fold_left (fun d j => set_column j (infer_objects (ffill (column j d))) d)
              js d in
  columns d' = columns d
  /\ widths d' = widths d
  /\ index d' = index d
  /\ forall j, (In j js -> column j d' = infer_objects (ffill (column j d)))
               /\ (~ In j js -> column j d' = column j d).
Proof.
  induction js as [|a js IH]; intros d Hnd Hw; simpl.
  - repeat split; tauto.
  - inversion Hnd as [|? ? Ha Hnd']; subst.
    set (d1 := set_column a (infer_objects (ffill (column a d))) d).
    assert (Hw1 : widths d1 = widths d) by apply set_values_widths.
    assert (Hsame : column a d1 = infer_objects (ffill (column a d))).
    { unfold d1, column, set_column. cbn [rows]. apply set_values_same.
      - now rewrite infer_objects_length, ffill_length, length_map.
      - specialize (Hw a (or_introl eq_refl)). unfold widths in Hw.
        now rewrite Forall_map in Hw. }
    assert (Hother : forall j, j <> a -> column j d1 = column j d).
    { intros j Hj. unfold d1, column, set_column. cbn [rows].
      apply set_values_other. congruence. }
    destruct (IH d1 Hnd') as (Hc & Hwd & Hi & Hcol).
    { intros j Hj. rewrite Hw1. apply Hw. now right. }
    split; [exact Hc|]. split; [now rewrite Hwd|].
    split; [rewrite Hi; apply set_values_labels|].
    intros j. split.
    + intros [<-|Hj].
      * now rewrite (proj2 (Hcol a) Ha).
      * rewrite (proj1 (Hcol j) Hj), Hother; [reflexivity | congruence].
    + intros Hj. simpl in Hj. rewrite (proj2 (Hcol j)) by tauto.
      apply Hother. intros ->. tauto.
Qed.

Lemma fill_positions_columns js : forall d,
  columns (fold_left
             (fun d j => set_column j (infer_objects (ffill (column j d))) d)
             js d)
  = columns d.
Proof. induction js as [|a js IH]; intros d; simpl; [reflexivity | now rewrite IH]. Qed.

Lemma ffill_label_spec key d d' :
  rectangular d -> ffill_label key d = Ok d' ->
  columns d' = columns d
  /\ widths d' = widths d
  /\ index d' = index d
  /\ forall j, (nth_error (columns d) j = Some (Str key) ->
                column j d' = infer_objects (ffill (column j d)))
               /\ (nth_error (columns d) j <> Some (Str key) -> column j d' = column j d).
Proof.
  intros R. unfold ffill_label.
  destruct (get_loc key d) as [|a js] eqn:E; [discriminate|].
  rewrite <- E. intros [= <-].
  destruct (fill_positions (get_loc key d) d) as (Hc & Hw & Hi & Hcol).
  - apply get_loc_from_NoDup.
  - intros j Hj. apply wide_enough; [exact R|]. apply get_loc_In in Hj.
    apply nth_error_Some. congruence.
  - repeat (split; [assumption|]). intros j. rewrite <- get_loc_In. apply Hcol.
Qed.

Lemma rectangular_same d d' :
  columns d' = columns d -> widths d' = widths d -> rectangular d -> rectangular d'.
Proof.
  unfold rectangular, widths. intros Hc Hw R.
  rewrite Hc. rewrite <- (Forall_map (fun r => List.length (cells r))
                             (fun w => w = List.length (columns d))), Hw.
  now rewrite Forall_map.
Qed.

Lemma ffill_keys_spec keys : forall d d',
  NoDup keys -> rectangular d -> ffill_keys keys d = Ok d' ->
  columns d' = columns d
  /\ widths d' = widths d
  /\ index d' = index d
  /\ forall j,
       (forall key, In key keys -> nth_error (columns d) j = Some (Str key) ->
                    column j d' = infer_objects (ffill (column j d)))
       /\ ((forall key, In key keys -> nth_error (columns d) j <> Some (Str key)) ->
           column j d' = column j d).
Proof.
  induction keys as [|k keys IH]; intros d d' Hnd R; simpl.
  - intros [= <-]. repeat split; try reflexivity. intros key [].
  - destruct (ffill_label k d) as [d1|e] eqn:E; simpl; [|discriminate]. intros H.
    inversion Hnd as [|? ? Hk Hnd']; subst.
    destruct (ffill_label_spec k d d1 R E) as (Hc1 & Hw1 & Hi1 & Hcol1).
    destruct (IH d1 d' Hnd' (rectangular_same d d1 Hc1 Hw1 R) H) as (Hc & Hw & Hi & Hcol).
    split; [congruence|]. split; [congruence|]. split; [congruence|].
    intros j. split.
    + intros key [<-|Hin] Hj.
      * rewrite (proj2 (Hcol j)); [now apply Hcol1|].
        intros key' Hin'. rewrite Hc1, Hj. intros [= ->]. contradiction.
      * rewrite (proj1 (Hcol j) key Hin) by now rewrite Hc1.
        rewrite (proj2 (Hcol1 j)); [reflexivity|].
        rewrite Hj. intros [= ->]. contradiction.
    + intros Hnone. rewrite (proj2 (Hcol j)).
      * apply Hcol1. apply Hnone. now left.
      * intros key Hin. rewrite Hc1. apply Hnone. now right.
Qed.

Lemma ffill_keys_total keys : forall d,
  (forall key, In key keys -> get_loc key d <> []) ->
  exists d', ffill_keys keys d = Ok d'.
Proof.
  induction keys as [|k keys IH]; intros d H; simpl; [eauto|].
  unfold ffill_label. destruct (get_loc k d) as [|a js] eqn:E.
  - exfalso. apply (H k); [now left | exact E].
  - simpl. apply IH. intros key Hk. unfold get_loc.
    rewrite fill_positions_columns. apply H. now right.
Qed.

Lemma key_cols_NoDup : NoDup key_cols.
Proof.
  unfold key_cols.
  repeat (constructor; [simpl; intuition discriminate|]). constructor.
Qed.

End ForwardFill.

(** ** Duplicates and the index *)

Section Duplicates.

Lemma cells_in_iff cs seen : cells_in cs seen = true <-> In cs seen.
Proof.
  unfold cells_in.
  destruct (in_dec (list_eq_dec cell_eq_dec) cs seen); split; congruence.
Qed.

Lemma drop_seen_spec rs : forall seen,
  NoDup (map cells (drop_seen seen rs))
  /\ forall r, In r (drop_seen seen rs) -> In r rs /\ ~ In (cells r) seen.
Proof.
  induction rs as [|r rs IH]; intros seen; simpl.
  - split; [constructor | intros r []].
  - destruct (cells_in (cells r) seen) eqn:E.
    + destruct (IH seen) as [Hnd Hin]. split; [exact Hnd|].
      intros r' Hr'. destruct (Hin r' Hr'). tauto.
    + destruct (IH (cells r :: seen)) as [Hnd Hin]. split.
      * simpl. constructor; [|exact Hnd]. intros Hc.
        apply in_map_iff in Hc as (r' & Heq & Hr').
        destruct (Hin r' Hr') as [_ Hns]. apply Hns. left. now symmetry.
      * intros r' [<-|Hr'].
        -- split; [now left|]. intros Hc. apply cells_in_iff in Hc. congruence.
        -- destruct (Hin r' Hr') as [Hrs Hns]. split; [now right|].
           intros Hc. apply Hns. now right.
Qed.

Lemma relabel_from_cells rs : forall b,
  map cells (relabel_from b rs) = map cells rs.
Proof. induction rs as [|r rs IH]; intros b; simpl; [reflexivity | now rewrite IH]. Qed.

Lemma relabel_from_labels rs : forall b,
  map label (relabel_from b rs) = seq b (List.length rs).
Proof. induction rs as [|r rs IH]; intros b; simpl; [reflexivity | now rewrite IH]. Qed.

Lemma relabel_from_length rs : forall b,
  List.length (relabel_from b rs) = List.length rs.
Proof. induction rs as [|r rs IH]; intros b; simpl; [reflexivity | now rewrite IH]. Qed.

Lemma drop_duplicates_NoDup df : NoDup (map cells (rows (drop_duplicates df))).
Proof. apply drop_seen_spec. Qed.

(** C6 on the example sheet: the parser reindexes (line 49) before it
    drops duplicates (line 50), so the label of a dropped row is missing
    from the index it returns: 0, 2, 3 for three rows. *)
Theorem reindex_before_dedup_leaves_gap :
  exists df,
    parse_pivot_rules Examples.sheet = Ok df
    /\ NoDup (map cells (rows df))
    /\ index df = [0; 2; 3]
    /\ index df <> seq 0 (List.length (rows df)).
Proof.
  exists Examples.frame. split; [vm_compute; reflexivity|].
  split; [|split; [reflexivity | discriminate]].
  repeat (constructor; [simpl; intuition discriminate|]). constructor.
Qed.

End Duplicates.

(** ** Stripping and searching text *)

Section Text.

Lemma rstrip_keeps_head c t :
  isspace c = false -> rstrip (String c t) = String c (rstrip t).
Proof. intros H. simpl. rewrite H. now destruct (rstrip t). Qed.

Lemma rstrip_idempotent s : rstrip (rstrip s) = rstrip s.
Proof.
  induction s as [|c t IH]; [reflexivity|]. simpl.
  destruct (rstrip t) as [|c' r] eqn:E.
  - destruct (isspace c) eqn:Ec; [reflexivity|]. simpl. now rewrite Ec.
  - change (rstrip (String c (String c' r))) with
      (match rstrip (String c' r) with
       | EmptyString => if isspace c then EmptyString else String c EmptyString
       | r0 => String c r0
       end).
    now rewrite IH.
Qed.

Lemma lstrip_head s :
  lstrip s = EmptyString
  \/ exists c t, lstrip s = String c t /\ isspace c = false.
Proof.
  induction s as [|c t IH]; [now left|]. simpl.
  destruct (isspace c) eqn:E; [exact IH|]. right. eauto.
Qed.

Lemma lstrip_strip s : lstrip (strip s) = strip s.
Proof.
  unfold strip. destruct (lstrip_head s) as [->|(c & t & -> & Hc)]; [reflexivity|].
  rewrite (rstrip_keeps_head c t Hc). simpl. now rewrite Hc.
Qed.

Lemma strip_idempotent s : strip (strip s) = strip s.
Proof.
  unfold strip at 1. rewrite lstrip_strip. unfold strip. apply rstrip_idempotent.
Qed.

Lemma prefix_iff p s :
  String.prefix p s = true <-> exists suf, s = (p ++ suf)%string.
Proof.
  revert s. induction p as [|a p IH]; intros s.
  - destruct s; simpl; split; eauto.
  - destruct s as [|b s]; simpl.
    + split; [discriminate | intros [suf H]; discriminate].
    + destruct (ascii_dec a b) as [->|Hne].
      * rewrite IH. split; intros [suf H]; exists suf; congruence.
      * split; [discriminate | intros [suf H]; congruence].
Qed.

Lemma contains_iff p s :
  contains p s = true <-> exists pre suf, s = (pre ++ p ++ suf)%string.
Proof.
  induction s as [|c s IH].
  - change (contains p EmptyString) with (String.prefix p EmptyString || false).
    rewrite orb_false_r, prefix_iff. split.
    + intros [suf H]. now exists EmptyString, suf.
    + intros (pre & suf & H). destruct pre; [eauto | discriminate].
  - change (contains p (String c s)) with (String.prefix p (String c s) || contains p s).
    rewrite orb_true_iff, prefix_iff, IH. split.
    + intros [[suf H]|(pre & suf & H)].
      * now exists EmptyString, suf.
      * exists (String c pre), suf. simpl. now rewrite H.
    + intros (pre & suf & H). destruct pre as [|c' pre].
      * left. now exists suf.
      * right. exists pre, suf. simpl in H. congruence.
Qed.

Lemma lower_app a b : lower (a ++ b)%string = (lower a ++ lower b)%string.
Proof. induction a as [|c a IH]; simpl; [reflexivity | now rewrite IH]. Qed.

Lemma lower_split s : forall x y,
  lower s = (x ++ y)%string ->
  exists s1 s2, s = (s1 ++ s2)%string /\ lower s1 = x /\ lower s2 = y.
Proof.
  induction s as [|c s IH]; intros x y H.
  - destruct x; [|discriminate]. exists EmptyString, EmptyString.
    simpl in H. now subst.
  - destruct x as [|cx x].
    + exists EmptyString, (String c s). now subst.
    + simpl in H. injection H as Hc Hs.
      destruct (IH x y Hs) as (s1 & s2 & -> & H1 & H2).
      exists (String c s1), s2. simpl. now subst.
Qed.

(** The search of lines 46-47 finds the marker exactly in the texts that
    contain it in some case of its letters. *)
Lemma contains_marker_iff s :
  contains_nocase "Grand Total" s = true <-> has_marker s.
Proof.
  unfold contains_nocase, has_marker. rewrite contains_iff.
  change (lower "Grand Total") with "grand total". split.
  - intros (pre & suf & H).
    destruct (lower_split s _ _ H) as (s1 & s23 & -> & H1 & H23).
    destruct (lower_split s23 _ _ H23) as (s2 & s3 & -> & H2 & H3).
    now exists s1, s2, s3.
  - intros (pre & mid & suf & -> & Hm).
    exists (lower pre), (lower suf). now rewrite !lower_app, Hm.
Qed.

End Text.

(** ** The cleaning steps *)

Section Clean.

Lemma ffill_keys_columns keys : forall d d',
  ffill_keys keys d = Ok d' -> columns d' = columns d.
Proof.
  induction keys as [|k keys IH]; intros d d'; simpl; [now intros [= <-]|].
  unfold ffill_label. destruct (get_loc k d) as [|a js]; [discriminate|].
  cbn [bind]. intros H. rewrite (IH _ _ H). apply fill_positions_columns.
Qed.

(** The parser's steps after the header search, in one expression. *)
Lemma clean_unfold d :
  clean d =
    match ffill_keys key_cols d with
    | Err e => Err e
    | Ok d1 =>
        match get_loc supplier_col d1 with
        | [] => Err (KeyError supplier_col)
        | [j] =>
            match get_loc "Segment" d1 with
            | [] => Err (KeyError "Segment")
            | [k] =>
                match str_accessor "Segment" (column k d1)
                        (column k (supplier_rows j d1)) with
                | Ok _ => Ok (clean_at j k d1)
                | Err e => Err e
                end
            | _ => Err (NotASeries "Segment")
            end
        | _ => Err (NotASeries supplier_col)
        end
    end.
Proof.
  unfold clean. destruct (ffill_keys key_cols d) as [d1|e]; cbn [bind]; [|reflexivity].
  unfold dropna_subset.
  destruct (get_loc supplier_col d1) as [|j js] eqn:E; cbn [bind]; [reflexivity|].
  unfold series_loc at 1. unfold get_loc at 1. cbn [columns select].
  fold (get_loc supplier_col d1). rewrite E.
  destruct js as [|j' js]; cbn [bind]; [|reflexivity].
  unfold series_loc. unfold get_loc at 1. cbn [columns select set_column].
  fold (get_loc "Segment" d1).
  destruct (get_loc "Segment" d1) as [|k [|k' ks]]; reflexivity.
Qed.

Lemma str_accessor_error key filled vals e :
  str_accessor key filled vals = Err e -> e = NotText key.
Proof.
  unfold str_accessor.
  match goal with |- (if ?b then _ else _) = _ -> _ => destruct b end;
    [now intros [= <-] | discriminate].
Qed.

Lemma str_accessor_ok key filled vals :
  str_accessor key filled vals = Ok tt
  <-> (filled = [] \/ existsb is_text filled = true)
      /\ (existsb is_number vals = true -> existsb is_text vals = true).
Proof.
  unfold str_accessor.
  assert (Hf : (match filled with
                | [] => false
                | _ => negb (existsb is_text filled)
                end) = false
               <-> (filled = [] \/ existsb is_text filled = true)).
  { destruct filled as [|c l]; [split; auto|].
    destruct (existsb is_text (c :: l)); cbn [negb]; split; auto.
    intros [H|H]; discriminate. }
  rewrite <- Hf.
  destruct (match filled with [] => false | _ => _ end),
    (existsb is_number vals), (existsb is_text vals);
    cbn [orb andb negb]; split; try discriminate; intuition discriminate.
Qed.

(** The steps of a parse that returns a frame, the accessor's test at
    line 47 among them. *)
Lemma clean_inv_accessor df d :
  clean df = Ok d ->
  exists d1 j k,
    ffill_keys key_cols df = Ok d1
    /\ get_loc supplier_col d1 = [j]
    /\ get_loc "Segment" d1 = [k]
    /\ str_accessor "Segment" (column k d1) (column k (supplier_rows j d1)) = Ok tt
    /\ d = clean_at j k d1.
Proof.
  rewrite clean_unfold.
  destruct (ffill_keys key_cols df) as [d1|e] eqn:E1; [|discriminate].
  destruct (get_loc supplier_col d1) as [|j [|j' js]] eqn:E2; try discriminate.
  destruct (get_loc "Segment" d1) as [|k [|k' ks]] eqn:E3; try discriminate.
  destruct (str_accessor _ _ _) as [[]|e] eqn:E4; [|discriminate].
  intros [= <-]. exists d1, j, k. repeat split; assumption || reflexivity.
Qed.

(** The parser's steps after the header search, unfolded. *)
Lemma clean_inv df d :
  clean df = Ok d ->
  exists d1 j k,
    ffill_keys key_cols df = Ok d1
    /\ get_loc supplier_col d1 = [j]
    /\ get_loc "Segment" d1 = [k]
    /\ d = clean_at j k d1.
Proof.
  intros H. apply clean_inv_accessor in H as (d1 & j & k & H1 & H2 & H3 & _ & H4).
  now exists d1, j, k.
Qed.

Lemma clean_fwd df d1 j k :
  ffill_keys key_cols df = Ok d1 ->
  get_loc supplier_col d1 = [j] ->
  get_loc "Segment" d1 = [k] ->
  str_accessor "Segment" (column k d1) (column k (supplier_rows j d1)) = Ok tt ->
  clean df = Ok (clean_at j k d1).
Proof.
  intros H1 Hj Hk Ha. rewrite clean_unfold, H1, Hj, Hk. now rewrite Ha.
Qed.

Lemma relabel_from_In rs : forall b r,
  In r (relabel_from b rs) -> exists r0, In r0 rs /\ cells r = cells r0.
Proof.
  induction rs as [|r0 rs IH]; intros b r; simpl; [intros []|].
  intros [<-|H]; [exists r0; auto|].
  destruct (IH _ _ H) as (r1 & H1 & H2). eauto.
Qed.

Lemma set_values_In j (f : cell -> cell) rs r :
  In r (set_values j (map f (map (at_ j) rs)) rs) ->
  exists r0, In r0 rs /\ label r = label r0
             /\ cells r = set_nth j (f (at_ j r0)) (cells r0).
Proof.
  induction rs as [|r0 rs IH]; simpl; [intros []|].
  intros [<-|H]; [exists r0; auto|].
  destruct (IH H) as (r1 & H1 & H2). eauto.
Qed.

Lemma at_not_missing j r : at_ j r <> NaN -> j < List.length (cells r).
Proof.
  unfold at_. intros H. destruct (Nat.lt_ge_cases j (List.length (cells r))) as [|Hge];
    [assumption|]. now rewrite nth_overflow in H.
Qed.

(** What lines 41-50 leave in the frame. *)
Lemma clean_at_rows j k d1 r :
  In r (rows (clean_at j k d1)) ->
  (exists s, at_ j r = Str s /\ s <> "" /\ strip s = s /\ ~ has_marker s)
  /\ (forall t, at_ k r = Str t -> ~ has_marker t).
Proof.
  unfold clean_at. cbn [rows drop_duplicates reset_index select set_column].
  intros H. apply drop_seen_spec in H as [H _].
  apply relabel_from_In in H as (r6 & H & Hcells).
  apply filter_In in H as [H P3]. apply filter_In in H as [H P2].
  apply filter_In in H as [H P1].
  unfold astype_str_strip, column in H. cbn [rows select] in H.
  apply set_values_In in H as (r2 & H2 & _ & Hr6).
  apply filter_In in H2 as [_ Hna]. cbn [forallb] in Hna.
  rewrite andb_true_r, negb_true_iff in Hna.
  assert (Hj : j < List.length (cells r2)).
  { apply at_not_missing. now destruct (at_ j r2). }
  assert (Hat : at_ j r6 = Str (strip (py_str (at_ j r2)))).
  { unfold at_ at 1. rewrite Hr6. now apply nth_set_nth_same. }
  assert (Hsame : forall i, at_ i r = at_ i r6) by (intros i; unfold at_; now rewrite Hcells).
  rewrite !Hsame. rewrite Hat in P1, P2 |- *. split.
  - exists (strip (py_str (at_ j r2))). split; [reflexivity|].
    split; [|split; [apply strip_idempotent|]].
    + intros E. rewrite E in P1. now rewrite cell_eqb_refl in P1.
    + rewrite <- contains_marker_iff. simpl in P2.
      now destruct (contains_nocase "Grand Total" (strip (py_str (at_ j r2)))).
  - intros t Ht. rewrite Ht in P3. simpl in P3.
    rewrite <- contains_marker_iff.
    now destruct (contains_nocase "Grand Total" t).
Qed.

Lemma parse_inv g df :
  parse_pivot_rules g = Ok df ->
  exists h, find_header (iterrows g) = Some h /\ clean (below_header g h) = Ok df.
Proof.
  unfold parse_pivot_rules. destruct (find_header (iterrows g)) as [h|]; [eauto | discriminate].
Qed.

(** The frame the parser returns has no two rows equal in every column. *)
Lemma parse_no_duplicate_rows g df :
  parse_pivot_rules g = Ok df -> NoDup (map cells (rows df)).
Proof.
  intros H. apply parse_inv in H as (h & _ & H).
  apply clean_inv in H as (d1 & j & k & _ & _ & _ & ->).
  unfold clean_at. apply drop_duplicates_NoDup.
Qed.

(** C3: in every row of the frame the parser returns, the supplier is a
    text, stripped and not empty, that nowhere contains the grand-total
    marker in any case of its letters; nor does the row's segment. *)
Theorem parsed_rows_have_supplier_and_no_total g df :
  parse_pivot_rules g = Ok df ->
  exists j k,
    series_loc supplier_col df = Ok j
    /\ series_loc "Segment" df = Ok k
    /\ forall r, In r (rows df) ->
         (exists s, at_ j r = Str s /\ s <> "" /\ strip s = s /\ ~ has_marker s)
         /\ (forall t, at_ k r = Str t -> ~ has_marker t).
Proof.
  intros H. apply parse_inv in H as (h & _ & H).
  apply clean_inv in H as (d1 & j & k & _ & Hj & Hk & ->).
  exists j, k. split; [now apply series_loc_get_loc|].
  split; [now apply series_loc_get_loc|]. intros r. apply clean_at_rows.
Qed.

Lemma parsed_rows_have_supplier_and_no_total_witness :
  parse_pivot_rules Examples.sheet = Ok Examples.frame
  /\ exists j k,
       series_loc supplier_col Examples.frame = Ok j
       /\ series_loc "Segment" Examples.frame = Ok k
       /\ forall r, In r (rows Examples.frame) ->
            (exists s, at_ j r = Str s /\ s <> "" /\ strip s = s /\ ~ has_marker s)
            /\ (forall t, at_ k r = Str t -> ~ has_marker t).
Proof.
  assert (H : parse_pivot_rules Examples.sheet = Ok Examples.frame)
    by (vm_compute; reflexivity).
  split; [exact H|].
  exact (parsed_rows_have_supplier_and_no_total Examples.sheet Examples.frame H).
Defined.

End Clean.

(** ** Sorting *)

Section Sorting.

Context {A : Type} (key : A -> string).

Lemma insert_Permutation x l : Permutation (insert key x l) (x :: l).
Proof.
  induction l as [|y l IH]; simpl; [reflexivity|].
  destruct (key x <=? key y)%string; [reflexivity|].
  rewrite IH. apply perm_swap.
Qed.

Lemma sort_by_Permutation l : Permutation (sort_by key l) l.
Proof.
  induction l as [|x l IH]; simpl; [reflexivity|].
  rewrite insert_Permutation. now constructor.
Qed.

Lemma insert_HdRel a x l :
  (key_le key) a x -> HdRel (key_le key) a l -> HdRel (key_le key) a (insert key x l).
Proof.
  intros Hax Hal. destruct l as [|y l]; simpl; [now constructor|].
  destruct (key x <=? key y)%string; constructor; [assumption|].
  now inversion Hal.
Qed.

Lemma insert_Sorted x l : Sorted (key_le key) l -> Sorted (key_le key) (insert key x l).
Proof.
  induction 1 as [|y l Hs IH Hhd]; simpl; [repeat constructor|].
  destruct (key x <=? key y)%string eqn:E.
  - constructor; [now constructor | now constructor].
  - constructor; [exact IH|]. apply insert_HdRel; [|exact Hhd].
    unfold key_le. destruct (String.leb_total (key x) (key y)); congruence.
Qed.

Lemma sort_by_Sorted l : Sorted (key_le key) (sort_by key l).
Proof.
  induction l as [|x l IH]; simpl; [constructor | now apply insert_Sorted].
Qed.

(** Sorting what is sorted changes nothing. *)
Lemma sort_by_of_Sorted l : Sorted (key_le key) l -> sort_by key l = l.
Proof.
  induction 1 as [|x l Hs IH Hhd]; simpl; [reflexivity|].
  rewrite IH. destruct Hhd as [|y l Hxy]; simpl; [reflexivity|].
  unfold key_le in Hxy. now rewrite Hxy.
Qed.

Lemma Sorted_map_key l :
  Sorted (fun a b => (a <=? b)%string = true) (map key l) -> Sorted (key_le key) l.
Proof.
  induction l as [|x l IH]; simpl; intros H; [constructor|].
  inversion H as [|? ? Hs Hhd]; subst. constructor; [now apply IH|].
  destruct l; simpl in *; constructor. now inversion Hhd.
Qed.

End Sorting.

Section SortedSets.

Lemma leb_iff a b :
  (a <=? b)%string = true <-> a = b \/ String_as_OT.lt a b.
Proof.
  unfold String.leb. rewrite <- String_as_OT.cmp_lt, <- String_as_OT.cmp_eq.
  unfold String_as_OT.cmp. destruct (a ?= b)%string; split; intros H;
    try reflexivity; try discriminate; try tauto.
  destruct H; discriminate.
Qed.

Lemma leb_trans a b c :
  (a <=? b)%string = true -> (b <=? c)%string = true -> (a <=? c)%string = true.
Proof.
  rewrite !leb_iff. intros [->|Hab] [->|Hbc]; try tauto.
  right. now apply (String_as_OT.lt_trans a b c).
Qed.

Lemma sorted_is_sorted_set xs :
  sorted_set (sorted (set xs)) (fun s => In s xs).
Proof.
  unfold sorted, set. split; [|split].
  - eapply Permutation_NoDup; [symmetry; apply sort_by_Permutation|].
    apply NoDup_nodup.
  - apply Sorted_StronglySorted; [intros a b c; apply leb_trans|].
    apply (sort_by_Sorted (fun s : string => s)).
  - intros s. rewrite <- (nodup_In string_dec xs s). split; apply Permutation_in.
    + apply sort_by_Permutation.
    + symmetry. apply sort_by_Permutation.
Qed.

Lemma texts_In xs s : In s (texts xs) <-> In (Str s) xs.
Proof.
  induction xs as [|c xs IH]; simpl; [tauto|].
  destruct c as [|t|n|n]; simpl; rewrite IH.
  - split; [tauto | intros [H|H]; [discriminate | exact H]].
  - split; intros [H|H]; try tauto; left; congruence.
  - split; [tauto | intros [H|H]; [discriminate | exact H]].
  - split; [tauto | intros [H|H]; [discriminate | exact H]].
Qed.

End SortedSets.

(** ** The aggregation *)

Section Aggregation.

Lemma sorted_set_ext l (P Q : string -> Prop) :
  (forall s, P s <-> Q s) -> sorted_set l P -> sorted_set l Q.
Proof.
  intros H (Hnd & Hs & Hin). repeat split; try assumption.
  - intros Hl. apply H. now apply Hin.
  - intros Hq. apply Hin. now apply H.
Qed.

Lemma group_keys_sorted_set f j :
  get_loc supplier_col f = [j] ->
  sorted_set (group_keys j f)
    (fun n => exists r, In r (rows f) /\ attribute f supplier_col r = Str n).
Proof.
  intros Hj. unfold group_keys.
  eapply sorted_set_ext; [|apply sorted_is_sorted_set].
  intros n. cbn beta. rewrite texts_In. unfold column. rewrite in_map_iff.
  split; intros (r & H1 & H2); exists r;
    rewrite (attribute_get_loc _ _ _ r Hj) in *; tauto.
Qed.

Lemma join_unique_sorted_set f j d n key :
  get_loc supplier_col f = [j] -> get_loc key f = [d] ->
  exists l,
    join_unique (column d (group j n f)) = Str (join ", " l)
    /\ sorted_set l (detail_value f n key).
Proof.
  intros Hj Hd. eexists. split; [reflexivity|].
  eapply sorted_set_ext; [|apply sorted_is_sorted_set].
  intros s. cbn beta. unfold detail_value, column, group. cbn [rows select].
  rewrite in_map_iff. split.
  - intros (c & <- & Hc). apply filter_In in Hc as [Hc Hna].
    apply in_map_iff in Hc as (r & <- & Hr). apply filter_In in Hr as [Hr Hn].
    apply cell_eqb_eq in Hn. exists r.
    rewrite (attribute_get_loc _ _ _ r Hj), (attribute_get_loc _ _ _ r Hd).
    repeat split; try assumption. intros E. now rewrite E in Hna.
  - intros (r & Hr & Hn & Hna & ->).
    rewrite (attribute_get_loc _ _ _ r Hj) in Hn.
    rewrite (attribute_get_loc _ _ _ r Hd) in Hna |- *.
    exists (at_ d r). split; [reflexivity|]. apply filter_In. split.
    + apply in_map. apply filter_In. split; [assumption | now apply cell_eqb_eq].
    + now destruct (at_ d r).
Qed.

Lemma map_eq_Forall2 {A B C} (f : A -> C) (g : B -> C) l1 l2 :
  map f l1 = map g l2 -> Forall2 (fun a b => g b = f a) l1 l2.
Proof.
  revert l2. induction l1 as [|a l1 IH]; intros [|b l2] H; simpl in H;
    try discriminate; constructor.
  - now injection H.
  - apply IH. now injection H.
Qed.

Lemma aggregated_rows_sorted f j ds :
  let made := relabel_from 0 (map (agg_row f j ds) (group_keys j f)) in
  sort_by (fun r => py_str (at_ 0 r)) made = made.
Proof.
  intros made. apply sort_by_of_Sorted. apply Sorted_map_key.
  assert (E : map (fun r => py_str (at_ 0 r)) made = group_keys j f).
  { change (fun r => py_str (at_ 0 r))
      with (fun r => (fun cs => py_str (nth 0 cs NaN)) (cells r)).
    rewrite <- (map_map cells). unfold made.
    rewrite relabel_from_cells, !map_map. simpl. apply map_id. }
  rewrite E. unfold group_keys, sorted. apply (sort_by_Sorted (fun s : string => s)).
Qed.

(** C2, as the code has it: on a frame with rows the aggregation returns,
    under the five output columns, one row per distinct supplier name, the
    names ascending; each of its four detail cells is the ", "-join of the
    ascending, duplicate-free list of the texts of the non-missing values
    of that column in the supplier's rows.  Only missing values are left
    out: a blank text is a value like any other. *)
Theorem aggregate_one_row_per_supplier f :
  normalized f -> rows f <> [] ->
  exists agg names,
    aggregate f = Ok agg
    /\ columns agg = map Str output_columns
    /\ sorted_set names
         (fun n => exists r, In r (rows f) /\ attribute f supplier_col r = Str n)
    /\ index agg = seq 0 (List.length names)
    /\ Forall2
         (fun n r =>
            exists au impl proj lic,
              cells r = [ Str n; Str (join ", " au); Str (join ", " impl);
                          Str (join ", " proj); Str (join ", " lic) ]
              /\ sorted_set au (detail_value f n "AU support")
              /\ sorted_set impl (detail_value f n "Impl")
              /\ sorted_set proj (detail_value f n "Proj$")
              /\ sorted_set lic (detail_value f n "Lic$ (p.a.)"))
         names (rows agg).
Proof.
  intros [W _] Hrows.
  destruct (aggregate_rows f W (empty_false_rows f W Hrows))
    as (j & d1 & d2 & d3 & d4 & Hj & H1 & H2 & H3 & H4 & Hagg).
  rewrite aggregated_rows_sorted in Hagg.
  eexists. exists (group_keys j f). split; [exact Hagg|]. cbn [columns rows].
  split; [reflexivity|]. split; [now apply group_keys_sorted_set|].
  split.
  - unfold index. cbn [rows].
    now rewrite relabel_from_labels, relabel_from_length, length_map.
  - eapply Forall2_impl;
      [|apply (map_eq_Forall2 (fun n => cells (agg_row f j [d1; d2; d3; d4] n)) cells)].
    + intros n r Hr. cbn beta in Hr. rewrite Hr. unfold agg_row. cbn [cells map].
      destruct (join_unique_sorted_set f j d1 n "AU support" Hj H1) as (au & -> & Hau).
      destruct (join_unique_sorted_set f j d2 n "Impl" Hj H2) as (impl & -> & Himpl).
      destruct (join_unique_sorted_set f j d3 n "Proj$" Hj H3) as (proj & -> & Hproj).
      destruct (join_unique_sorted_set f j d4 n "Lic$ (p.a.)" Hj H4) as (lic & -> & Hlic).
      exists au, impl, proj, lic.
      split; [reflexivity|]. split; [exact Hau|]. split; [exact Himpl|].
      split; [exact Hproj | exact Hlic].
    + rewrite !relabel_from_cells. now rewrite map_map.
Qed.

Lemma aggregate_one_row_per_supplier_witness :
  normalized Examples.frame /\ rows Examples.frame <> []
  /\ exists agg names,
       aggregate Examples.frame = Ok agg
       /\ columns agg = map Str output_columns
       /\ sorted_set names
            (fun n => exists r, In r (rows Examples.frame)
                                /\ attribute Examples.frame supplier_col r = Str n)
       /\ index agg = seq 0 (List.length names)
       /\ Forall2
            (fun n r =>
               exists au impl proj lic,
                 cells r = [ Str n; Str (join ", " au); Str (join ", " impl);
                             Str (join ", " proj); Str (join ", " lic) ]
                 /\ sorted_set au (detail_value Examples.frame n "AU support")
                 /\ sorted_set impl (detail_value Examples.frame n "Impl")
                 /\ sorted_set proj (detail_value Examples.frame n "Proj$")
                 /\ sorted_set lic (detail_value Examples.frame n "Lic$ (p.a.)"))
            names (rows agg).
Proof.
  assert (N : normalized Examples.frame).
  { split; [labels_by_computation|].
    intros r Hr. simpl in Hr.
    repeat (destruct Hr as [<-|Hr]; [eexists; reflexivity|]). contradiction. }
  assert (R : rows Examples.frame <> []) by discriminate.
  split; [exact N|]. split; [exact R|].
  exact (aggregate_one_row_per_supplier Examples.frame N R).
Defined.

(** C2, as stated, fails: a detail value that is a blank text is not
    dropped.  The sheet gives one supplier the AU support texts " " and
    "Yes"; the aggregated field joins both. *)
Lemma aggregate_joins_blank_texts :
  parse_pivot_rules blank_support_sheet = Ok blank_support_frame
  /\ normalized blank_support_frame
  /\ rows blank_support_frame <> []
  /\ exists agg,
       aggregate blank_support_frame = Ok agg
       /\ map cells (rows agg)
          = [ [ Str "AcmeGRC"; Str " , Yes"; Str "3-6m"; Str "100"; Str "50" ] ].
Proof.
  split; [vm_compute; reflexivity|]. split; [|split; [discriminate|]].
  - split; [labels_by_computation|].
    intros r Hr. simpl in Hr.
    repeat (destruct Hr as [<-|Hr]; [eexists; reflexivity|]). contradiction.
  - eexists. split; vm_compute; reflexivity.
Qed.

End Aggregation.

(** ** Parsed and filtered frames are normalized tables *)

Section Normalized.

Lemma ffill_keys_present keys : forall d d',
  ffill_keys keys d = Ok d' ->
  forall key, In key keys -> get_loc key d <> [].
Proof.
  induction keys as [|k keys IH]; intros d d' H key; simpl; [intros []|].
  simpl in H. destruct (ffill_label k d) as [d1|e] eqn:E; [|discriminate].
  cbn [bind] in H. intros [<-|Hk].
  - unfold ffill_label in E. now destruct (get_loc k d).
  - assert (Hc : columns d1 = columns d).
    { unfold ffill_label in E. destruct (get_loc k d) as [|a js]; [discriminate|].
      injection E as <-. exact (fill_positions_columns (a :: js) d). }
    rewrite <- (get_loc_same_columns key d1 d Hc). now apply (IH d1 d').
Qed.

(** The parser's frame has the ten labels and a text in every supplier
    cell; it is a normalized table once no key label is on two columns. *)
Lemma parse_gives_normalized g df :
  parse_pivot_rules g = Ok df ->
  (forall key, In key key_cols -> List.length (get_loc key df) <= 1) ->
  normalized df.
Proof.
  intros H Huniq. apply parse_inv in H as (h & _ & H).
  apply clean_inv in H as (d1 & j & k & Hfill & Hj & Hk & ->).
  assert (Hc : columns (clean_at j k d1) = columns d1) by reflexivity.
  split.
  - intros key [<-|Hkey].
    + exists j. now rewrite (get_loc_same_columns _ _ _ Hc).
    + specialize (Huniq key Hkey).
      pose proof (ffill_keys_present _ _ _ Hfill key Hkey) as Hp.
      rewrite (get_loc_same_columns key _ d1
                 (eq_sym (ffill_keys_columns _ _ _ Hfill))) in Hp.
      rewrite (get_loc_same_columns _ _ _ Hc) in Huniq |- *.
      destruct (get_loc key d1) as [|a [|b l]]; simpl in *; [congruence | eauto | lia].
  - intros r Hr. destruct (clean_at_rows j k d1 r Hr) as [(s & Hs & _) _].
    exists s. rewrite (attribute_same_columns _ _ d1 r Hc).
    now rewrite (attribute_get_loc _ _ _ r Hj).
Qed.

(** Filtering a normalized table gives a normalized table. *)
Lemma filter_keeps_normalized df st :
  normalized df ->
  exists f, filter_loop (user_strategic_answers st) df = Ok f /\ normalized f.
Proof.
  intros [W T]. eexists. split; [now apply filter_rows_spec|]. split.
  - now apply (well_labelled_same_columns df).
  - intros r Hr. cbn [rows] in Hr. apply filter_In in Hr as [Hr _].
    destruct (T r Hr) as [s Hs]. exists s. now rewrite <- Hs.
Qed.

End Normalized.

(** ** The fill during normalization *)

Section FilledTypes.

Lemma ffill_from_no_missing xs : forall last,
  isna last = false -> existsb isna (ffill_from last xs) = false.
Proof.
  induction xs as [|x xs IH]; intros last Hl; [reflexivity|].
  cbn [ffill_from existsb]. destruct (isna x) eqn:Ex.
  - rewrite Hl. now apply IH.
  - rewrite Ex. now apply IH.
Qed.

(** A filled column keeps a missing cell exactly when it starts with
    one. *)
Lemma ffill_missing xs : existsb isna (ffill xs) = leading_missing xs.
Proof.
  unfold ffill. destruct xs as [|x xs]; [reflexivity|].
  cbn [ffill_from existsb].
  destruct x; cbn [isna leading_missing orb]; try reflexivity;
    now apply ffill_from_no_missing.
Qed.

Lemma existsb_ffill_from (p : cell -> bool) xs :
  p NaN = false ->
  forall last,
    existsb p (ffill_from last xs) = (leading_missing xs && p last) || existsb p xs.
Proof.
  intros Hp. induction xs as [|x xs IH]; intros last; [reflexivity|].
  cbn [ffill_from existsb]. rewrite IH.
  destruct x; cbn [isna leading_missing andb orb]; rewrite ?Hp;
    destruct (leading_missing xs), (existsb p xs);
    cbn [andb orb]; rewrite ?orb_true_r, ?orb_false_r, ?orb_diag;
    try reflexivity; now destruct (p last).
Qed.

(** The fill brings no new kind of value into a column. *)
Lemma ffill_keeps (p : cell -> bool) xs :
  p NaN = false -> existsb p (ffill xs) = existsb p xs.
Proof.
  intros Hp. unfold ffill. rewrite (existsb_ffill_from p xs Hp).
  now rewrite Hp, andb_false_r.
Qed.

Lemma existsb_to_float (p : cell -> bool) xs :
  (forall c, p (to_float c) = p c) ->
  existsb p (map to_float xs) = existsb p xs.
Proof.
  intros Hp. induction xs as [|x xs IH]; simpl; [reflexivity|].
  now rewrite Hp, IH.
Qed.

Lemma infer_objects_keeps (p : cell -> bool) ys :
  (forall c, p (to_float c) = p c) ->
  existsb p (infer_objects ys) = existsb p ys.
Proof.
  intros Hp. unfold infer_objects. destruct (existsb is_text ys); [reflexivity|].
  destruct (existsb _ ys); [now apply existsb_to_float | reflexivity].
Qed.

Lemma filled_keeps (p : cell -> bool) xs :
  p NaN = false -> (forall c, p (to_float c) = p c) ->
  existsb p (infer_objects (ffill xs)) = existsb p xs.
Proof.
  intros H1 H2. now rewrite (infer_objects_keeps p _ H2), (ffill_keeps p xs H1).
Qed.

Lemma is_text_to_float c : is_text (to_float c) = is_text c.
Proof. now destruct c. Qed.

Lemma is_number_to_float c : is_number (to_float c) = is_number c.
Proof. now destruct c. Qed.

Lemma existsb_orb {A : Type} (p q : A -> bool) l :
  existsb (fun c => p c || q c) l = existsb p l || existsb q l.
Proof.
  induction l as [|x l IH]; simpl; [reflexivity|]. rewrite IH.
  destruct (p x), (q x), (existsb p l), (existsb q l); reflexivity.
Qed.

Lemma stored_missing xs : stored xs NaN = NaN.
Proof. unfold stored. now destruct (becomes_float xs). Qed.

Lemma stored_missing_iff xs v : stored xs v = NaN <-> v = NaN.
Proof.
  unfold stored. destruct (becomes_float xs); [|tauto].
  destruct v; simpl; split; congruence.
Qed.

(** The type inferred for a filled column, cell by cell. *)
Lemma infer_objects_filled xs :
  infer_objects (ffill xs) = map (stored xs) (ffill xs).
Proof.
  unfold infer_objects, stored, becomes_float.
  rewrite existsb_orb, ffill_missing, !ffill_keeps by reflexivity.
  destruct (existsb is_text xs); cbn [negb andb]; [now rewrite map_id|].
  destruct (leading_missing xs || existsb is_float xs);
    [reflexivity | now rewrite map_id].
Qed.

Lemma nth_map_stored xs ys i :
  nth i (map (stored xs) ys) NaN = stored xs (nth i ys NaN).
Proof.
  rewrite <- (map_nth (stored xs)). f_equal. symmetry. apply stored_missing.
Qed.

Lemma skipn_subset {A : Type} n : forall (l : list A) x,
  In x (skipn n l) -> In x l.
Proof.
  induction n as [|n IH]; intros [|v l] x; simpl; auto.
Qed.

Lemma rectangular_below g h :
  rectangular_grid g -> find_header (iterrows g) = Some h ->
  rectangular (below_header g h).
Proof.
  intros G Hh. destruct (find_header_some 0 g h Hh) as (_ & hdr & Hn & _).
  rewrite Nat.sub_0_r in Hn. unfold rectangular, below_header. cbn [columns rows].
  rewrite (nth_error_nth g h [] Hn), length_map. apply Forall_forall. intros r Hr.
  apply G; [|now apply (nth_error_In g h)].
  apply (in_map cells) in Hr. rewrite skipn_cells in Hr.
  unfold iterrows in Hr. rewrite rows_from_cells in Hr.
  now apply skipn_subset in Hr.
Qed.

(** A row that lines 41-46 keep is a filled row with its supplier made a
    stripped text. *)
Lemma supplier_rows_source j d1 r :
  In r (rows (supplier_rows j d1)) ->
  exists r2, In r2 (rows d1)
             /\ cells r = set_nth j (Str (strip (py_str (at_ j r2)))) (cells r2).
Proof.
  unfold supplier_rows. cbn [rows select set_column]. intros H.
  apply filter_In in H as [H _]. apply filter_In in H as [H _].
  unfold astype_str_strip, column in H. cbn [rows select] in H.
  apply set_values_In in H as (r2 & H2 & _ & Hr).
  apply filter_In in H2 as [H2 _]. eauto.
Qed.

Lemma supplier_rows_column j k d1 c :
  j <> k -> In c (column k (supplier_rows j d1)) -> In c (column k d1).
Proof.
  intros Hjk H. unfold column in *. apply in_map_iff in H as (r & <- & Hr).
  apply supplier_rows_source in Hr as (r2 & H2 & Hc).
  apply in_map_iff. exists r2. split; [|exact H2].
  unfold at_. rewrite Hc. symmetry. now apply nth_set_nth_other.
Qed.

Lemma clean_at_source j k d1 r :
  In r (rows (clean_at j k d1)) ->
  exists r2, In r2 (rows d1) /\ forall j', j' <> j -> at_ j' r = at_ j' r2.
Proof.
  change (clean_at j k d1)
    with (drop_duplicates
            (reset_index
               (select (fun r => negb (str_contains_nocase "Grand Total" (at_ k r)))
                       (supplier_rows j d1)))).
  cbn [rows drop_duplicates reset_index select]. intros H.
  apply drop_seen_spec in H as [H _].
  apply relabel_from_In in H as (r6 & H & Hcells).
  apply filter_In in H as [H _].
  apply supplier_rows_source in H as (r2 & H2 & Hc).
  exists r2. split; [exact H2|]. intros j' Hj'.
  unfold at_. rewrite Hcells, Hc. apply nth_set_nth_other. congruence.
Qed.

Lemma sheet_rectangular : rectangular_grid Examples.sheet.
Proof.
  assert (H : forall r, In r Examples.sheet -> List.length r = 10).
  { intros r Hr. simpl in Hr.
    repeat (destruct Hr as [<-|Hr]; [reflexivity|]). contradiction. }
  intros r1 r2 H1 H2. now rewrite (H r1 H1), (H r2 H2).
Qed.

(** C7: while the parser normalizes the sheet, each of the nine key
    columns is filled downwards: a missing value takes the nearest
    non-missing value above it in that column, the other values stay, and
    a value is missing afterwards only where the column has no value at or
    above that row.  A column without text that keeps a missing cell on
    top holds its numbers as floats afterwards.  The rows the parser
    returns carry these filled values in the nine columns. *)
Theorem forward_fill_key_columns g h df :
  rectangular_grid g ->
  find_header (iterrows g) = Some h ->
  parse_pivot_rules g = Ok df ->
  exists filled,
    ffill_keys key_cols (below_header g h) = Ok filled
    /\ index filled = index (below_header g h)
    /\ (forall key j i,
          In key [ "Segment"; "Modules(tags)"; "Hosting"; "Orientation";
                   "Regulatory focus (typical)"; "AU support"; "Impl";
                   "Proj$"; "Lic$ (p.a.)" ] ->
          nth_error (columns (below_header g h)) j = Some (Str key) ->
          i < List.length (rows (below_header g h)) ->
          nth i (column j filled) NaN =
            stored (column j (below_header g h))
              match nth i (column j (below_header g h)) NaN with
              | NaN => nearest_preceding (column j (below_header g h)) i
              | v => v
              end
          /\ (nth i (column j filled) NaN = NaN
              <-> forall k, k <= i -> nth k (column j (below_header g h)) NaN = NaN))
    /\ (forall r, In r (rows df) ->
          exists r1,
            In r1 (rows filled)
            /\ forall key j,
                 In key [ "Segment"; "Modules(tags)"; "Hosting"; "Orientation";
                          "Regulatory focus (typical)"; "AU support"; "Impl";
                          "Proj$"; "Lic$ (p.a.)" ] ->
                 nth_error (columns df) j = Some (Str key) ->
                 at_ j r = at_ j r1).
Proof.
  intros G Hh Hp. unfold parse_pivot_rules in Hp. rewrite Hh in Hp.
  apply clean_inv in Hp as (d1 & j0 & k0 & Hfill & Hj0 & _ & ->).
  exists d1. split; [exact Hfill|].
  pose proof (rectangular_below g h G Hh) as R.
  destruct (ffill_keys_spec key_cols _ d1 key_cols_NoDup R Hfill)
    as (Hc & _ & Hi & Hcol).
  split; [exact Hi|]. split.
  - intros key j i Hkey Hj Hlt.
    rewrite (proj1 (Hcol j) key Hkey Hj).
    assert (Hlen : i < List.length (column j (below_header g h)))
      by (unfold column; now rewrite length_map).
    rewrite infer_objects_filled, nth_map_stored, (ffill_nth _ _ Hlen).
    split; [reflexivity|]. rewrite stored_missing_iff.
    destruct (nth i (column j (below_header g h)) NaN) eqn:Ei.
    + rewrite nearest_preceding_missing. split.
      * intros H k Hk. destruct (Nat.eq_dec k i) as [->|]; [exact Ei | apply H; lia].
      * intros H k Hk. apply H. lia.
    + split; [discriminate|]. intros H. rewrite <- Ei. apply H. lia.
    + split; [discriminate|]. intros H. rewrite <- Ei. apply H. lia.
    + split; [discriminate|]. intros H. rewrite <- Ei. apply H. lia.
  - intros r Hr. destruct (clean_at_source j0 k0 d1 r Hr) as (r1 & H1 & Hat).
    exists r1. split; [exact H1|]. intros key j Hkey Hj. apply Hat. intros ->.
    change (columns (clean_at j0 k0 d1)) with (columns d1) in Hj.
    assert (Hs : In j0 (get_loc supplier_col d1)) by (rewrite Hj0; now left).
    apply get_loc_In in Hs. rewrite Hs in Hj. injection Hj as <-.
    simpl in Hkey. intuition discriminate.
Qed.

Lemma forward_fill_key_columns_witness :
  rectangular_grid Examples.sheet
  /\ find_header (iterrows Examples.sheet) = Some 1
  /\ parse_pivot_rules Examples.sheet = Ok Examples.frame
  /\ exists filled,
       ffill_keys key_cols (below_header Examples.sheet 1) = Ok filled
       /\ index filled = index (below_header Examples.sheet 1)
       /\ (forall key j i,
             In key [ "Segment"; "Modules(tags)"; "Hosting"; "Orientation";
                      "Regulatory focus (typical)"; "AU support"; "Impl";
                      "Proj$"; "Lic$ (p.a.)" ] ->
             nth_error (columns (below_header Examples.sheet 1)) j = Some (Str key) ->
             i < List.length (rows (below_header Examples.sheet 1)) ->
             nth i (column j filled) NaN =
               stored (column j (below_header Examples.sheet 1))
                 match nth i (column j (below_header Examples.sheet 1)) NaN with
                 | NaN => nearest_preceding (column j (below_header Examples.sheet 1)) i
                 | v => v
                 end
             /\ (nth i (column j filled) NaN = NaN
                 <-> forall k, k <= i ->
                       nth k (column j (below_header Examples.sheet 1)) NaN = NaN))
       /\ (forall r, In r (rows Examples.frame) ->
             exists r1,
               In r1 (rows filled)
               /\ forall key j,
                    In key [ "Segment"; "Modules(tags)"; "Hosting"; "Orientation";
                             "Regulatory focus (typical)"; "AU support"; "Impl";
                             "Proj$"; "Lic$ (p.a.)" ] ->
                    nth_error (columns Examples.frame) j = Some (Str key) ->
                    at_ j r = at_ j r1).
Proof.
  assert (H1 : find_header (iterrows Examples.sheet) = Some 1) by reflexivity.
  assert (H2 : parse_pivot_rules Examples.sheet = Ok Examples.frame)
    by (vm_compute; reflexivity).
  split; [exact sheet_rectangular|]. split; [exact H1|]. split; [exact H2|].
  exact (forward_fill_key_columns Examples.sheet 1 Examples.frame
           sheet_rectangular H1 H2).
Defined.

End FilledTypes.

(** * Further properties of the code *)

(** ** What the parser returns *)

Section ParserOutcome.

Lemma missing_label_same_columns d d' key :
  columns d = columns d' -> missing_label d key = missing_label d' key.
Proof. intros H. unfold missing_label. now rewrite (get_loc_same_columns key d d' H). Qed.

Lemma ffill_label_columns key d d' :
  ffill_label key d = Ok d' -> columns d' = columns d.
Proof.
  unfold ffill_label. destruct (get_loc key d) as [|a js]; [discriminate|].
  intros [= <-]. exact (fill_positions_columns (a :: js) d).
Qed.

Lemma find_same {A} (f g : A -> bool) l :
  (forall x, f x = g x) -> find f l = find g l.
Proof.
  intros H. induction l as [|x l IH]; simpl; [reflexivity|].
  now rewrite H, IH.
Qed.

Lemma ffill_keys_first_missing keys : forall d key,
  find (missing_label d) keys = Some key ->
  ffill_keys keys d = Err (KeyError key).
Proof.
  induction keys as [|k keys IH]; intros d key; simpl; [discriminate|].
  unfold missing_label at 1, ffill_label.
  destruct (get_loc k d) as [|a js] eqn:E.
  - now intros [= <-].
  - cbn [bind]. intros H. apply IH. rewrite <- H. apply find_same. intros key'.
    apply missing_label_same_columns. exact (fill_positions_columns (a :: js) d).
Qed.

Lemma header_keeps_exact_label g h hdr s :
  nth_error g h = Some hdr -> In (Str s) hdr -> strip s = s ->
  get_loc s (below_header g h) <> [].
Proof.
  intros Hn Hin Hs E. apply In_nth_error in Hin as [j Hj].
  assert (Hj' : In j (get_loc s (below_header g h))).
  { apply get_loc_In. unfold below_header. cbn [columns].
    rewrite (nth_error_nth g h [] Hn), nth_error_map, Hj. simpl. now rewrite Hs. }
  now rewrite E in Hj'.
Qed.

Lemma found_header_row g h :
  find_header (iterrows g) = Some h ->
  exists hdr, nth_error g h = Some hdr /\ both_markers hdr.
Proof.
  intros H. destruct (find_header_some 0 g h H) as (_ & hdr & Hn & Hm & _).
  rewrite Nat.sub_0_r in Hn. eauto.
Qed.

Lemma get_loc_nil_iff key df :
  get_loc key df = [] <-> ~ In (Str key) (columns df).
Proof.
  split.
  - intros E Hin. apply In_nth_error in Hin as [j Hj].
    apply get_loc_In in Hj. now rewrite E in Hj.
  - intros H. destruct (get_loc key df) as [|j l] eqn:E; [reflexivity|].
    exfalso. apply H. apply (nth_error_In _ j). apply get_loc_In.
    rewrite E. now left.
Qed.

(** C4, as the code has it: the parser stops with the header error
    exactly when no row of the sheet holds both marker labels as cell
    values; otherwise the header is the first such row, the rows strictly
    below it are the data, and the whole result, a frame or a later
    error, is what the cleaning of those rows gives: a [KeyError] for a
    key label whenever one of the nine is not among the stripped labels
    of the header. *)
Theorem header_row_decides_parse g :
  (parse_pivot_rules g = Err HeaderNotFound
   <-> forall vals, In vals g -> ~ both_markers vals)
  /\ ((exists vals, In vals g /\ both_markers vals) ->
      exists h hdr,
        nth_error g h = Some hdr
        /\ both_markers hdr
        /\ (forall i v, i < h -> nth_error g i = Some v -> ~ both_markers v)
        /\ parse_pivot_rules g =
             clean {| columns := map str_strip hdr;
                      rows := skipn (S h) (iterrows g) |}
        /\ ((exists key,
               In key [ "Segment"; "Modules(tags)"; "Hosting"; "Orientation";
                        "Regulatory focus (typical)"; "AU support"; "Impl";
                        "Proj$"; "Lic$ (p.a.)" ]
               /\ ~ In (Str key) (map str_strip hdr)) ->
            exists key,
              In key [ "Segment"; "Modules(tags)"; "Hosting"; "Orientation";
                       "Regulatory focus (typical)"; "AU support"; "Impl";
                       "Proj$"; "Lic$ (p.a.)" ]
              /\ ~ In (Str key) (map str_strip hdr)
              /\ parse_pivot_rules g = Err (KeyError key))).
Proof.
  unfold parse_pivot_rules. change (iterrows g) with (rows_from 0 g).
  destruct (find_header (rows_from 0 g)) as [h|] eqn:E.
  - destruct (find_header_some 0 g h E) as (_ & hdr & Hn & Hm & Hfirst).
    rewrite Nat.sub_0_r in Hn, Hfirst. split.
    + split.
      * intros H. now apply clean_not_header_error in H.
      * intros H. exfalso. apply nth_error_In in Hn. now apply (H hdr).
    + intros _. exists h, hdr. repeat (split; [assumption|]).
      assert (Hb : below_header g h
                   = {| columns := map str_strip hdr;
                        rows := skipn (S h) (rows_from 0 g) |}).
      { unfold below_header. rewrite Nat.add_1_r.
        now rewrite (nth_error_nth g h [] Hn). }
      rewrite Hb. split; [reflexivity|].
      intros (key & Hkey & Hmiss).
      destruct (find (missing_label (below_header g h)) key_cols) as [key'|] eqn:F.
      * exists key'. destruct (find_some _ _ F) as [Hin Hm'].
        split; [exact Hin|]. split.
        -- unfold missing_label in Hm'.
           destruct (get_loc key' (below_header g h)) eqn:Eg; [|discriminate].
           apply get_loc_nil_iff in Eg. now rewrite Hb in Eg.
        -- rewrite <- Hb. unfold clean.
           now rewrite (ffill_keys_first_missing _ _ _ F).
      * exfalso. pose proof (find_none _ _ F key Hkey) as Hf.
        unfold missing_label in Hf.
        assert (Eg : get_loc key (below_header g h) = [])
          by (apply get_loc_nil_iff; now rewrite Hb).
        rewrite Eg in Hf. discriminate.
  - pose proof (proj1 (find_header_none 0 g) E) as E'. split.
    + split; [intros _; exact E' | reflexivity].
    + intros (vals & Hv & Hm). exfalso. now apply (E' vals).
Qed.

(** C4, as stated, fails: a sheet whose header row holds both markers
    but names the hosting column otherwise is refused as well, at the
    forward fill of line 38. *)
Lemma header_found_yet_parse_fails :
  (exists vals, In vals Examples.sheet_without_hosting /\ both_markers vals)
  /\ parse_pivot_rules Examples.sheet_without_hosting = Err (KeyError "Hosting").
Proof.
  split; [|vm_compute; reflexivity].
  eexists. split; [left; reflexivity|]. split; simpl; tauto.
Qed.

Lemma str_accessor_no_text key filled vals :
  filled <> [] -> existsb is_text filled = false ->
  str_accessor key filled vals = Err (NotText key).
Proof.
  intros Hne Ht. unfold str_accessor. rewrite Ht.
  now destruct filled.
Qed.

Lemma ffill_keys_column key k d d1 :
  rectangular d -> ffill_keys key_cols d = Ok d1 ->
  In key key_cols -> nth_error (columns d) k = Some (Str key) ->
  column k d1 = infer_objects (ffill (column k d)).
Proof.
  intros R Hfill Hkey Hk.
  destruct (ffill_keys_spec key_cols d d1 key_cols_NoDup R Hfill) as (_ & _ & _ & Hcol).
  exact (proj1 (Hcol k) key Hkey Hk).
Qed.

(** X1: on a rectangular sheet whose header repeats neither the supplier
    nor the segment label and whose segment column, below the header,
    holds no number and, unless no row is below the header, some text,
    the parser returns a frame exactly when some row holds both markers
    and each of the nine key labels occurs among the stripped labels of
    the first such row. *)
Theorem parse_succeeds_iff g :
  rectangular_grid g ->
  (forall h, find_header (iterrows g) = Some h ->
     List.length (get_loc supplier_col (below_header g h)) <= 1
     /\ List.length (get_loc "Segment" (below_header g h)) <= 1) ->
  (forall h k, find_header (iterrows g) = Some h ->
     nth_error (columns (below_header g h)) k = Some (Str "Segment") ->
     (rows (below_header g h) = []
      \/ exists r, In r (rows (below_header g h)) /\ is_text (at_ k r) = true)
     /\ forall r, In r (rows (below_header g h)) -> is_number (at_ k r) = false) ->
  ((exists df, parse_pivot_rules g = Ok df)
   <-> exists h,
         find_header (iterrows g) = Some h
         /\ forall key, In key key_cols -> get_loc key (below_header g h) <> []).
Proof.
  intros G U T. split.
  - intros [df H]. apply parse_inv in H as (h & Hh & H). exists h. split; [exact Hh|].
    apply clean_inv in H as (d1 & j & k & Hfill & _).
    exact (ffill_keys_present _ _ _ Hfill).
  - intros (h & Hh & Hkeys).
    destruct (U h Hh) as [U1 U2].
    destruct (found_header_row g h Hh) as (hdr & Hn & Hseg & Hsup).
    pose proof (header_keeps_exact_label g h hdr "Segment" Hn Hseg eq_refl) as Pseg.
    pose proof (header_keeps_exact_label g h hdr "Supplier / Product" Hn Hsup eq_refl)
      as Psup.
    change "Supplier / Product" with supplier_col in Psup.
    destruct (get_loc supplier_col (below_header g h)) as [|j [|j' l]] eqn:Ej;
      [contradiction | | simpl in U1; lia].
    destruct (get_loc "Segment" (below_header g h)) as [|k [|k' l]] eqn:Ek;
      [contradiction | | simpl in U2; lia].
    destruct (ffill_keys_total key_cols _ Hkeys) as [d1 Hfill].
    pose proof (ffill_keys_columns _ _ _ Hfill) as Hc.
    exists (clean_at j k d1). unfold parse_pivot_rules. rewrite Hh.
    assert (Hk : nth_error (columns (below_header g h)) k = Some (Str "Segment"))
      by (apply get_loc_In; rewrite Ek; now left).
    assert (Hj : nth_error (columns (below_header g h)) j = Some (Str supplier_col))
      by (apply get_loc_In; rewrite Ej; now left).
    assert (Hjk : j <> k) by (intros ->; rewrite Hk in Hj; discriminate).
    pose proof (ffill_keys_column "Segment" k _ d1 (rectangular_below g h G Hh) Hfill
                  (or_introl eq_refl) Hk) as Hcolk.
    destruct (T h k Hh Hk) as [T1 T2].
    apply clean_fwd; [exact Hfill | | |].
    + now rewrite (get_loc_same_columns _ d1 (below_header g h) Hc).
    + now rewrite (get_loc_same_columns _ d1 (below_header g h) Hc).
    + apply str_accessor_ok. split.
      * rewrite Hcolk. destruct T1 as [E0|(r & Hr & Ht)].
        -- left. unfold column. now rewrite E0.
        -- right. rewrite filled_keeps by (reflexivity || apply is_text_to_float).
           apply existsb_exists. exists (at_ k r). split; [|exact Ht].
           unfold column. now apply in_map.
      * intros Hnum. exfalso. apply existsb_exists in Hnum as (c & Hin & Hnc).
        apply (supplier_rows_column j k d1 c Hjk) in Hin.
        assert (E0 : existsb is_number (column k d1) = true)
          by (apply existsb_exists; eauto).
        rewrite Hcolk, filled_keeps in E0
          by (reflexivity || apply is_number_to_float).
        apply existsb_exists in E0 as (c' & Hin' & Hn').
        unfold column in Hin'. apply in_map_iff in Hin' as (r & <- & Hr).
        rewrite (T2 r Hr) in Hn'. discriminate.
Qed.

Lemma parse_succeeds_iff_witness :
  rectangular_grid Examples.sheet
  /\ (forall h, find_header (iterrows Examples.sheet) = Some h ->
        List.length (get_loc supplier_col (below_header Examples.sheet h)) <= 1
        /\ List.length (get_loc "Segment" (below_header Examples.sheet h)) <= 1)
  /\ (forall h k, find_header (iterrows Examples.sheet) = Some h ->
        nth_error (columns (below_header Examples.sheet h)) k = Some (Str "Segment") ->
        (rows (below_header Examples.sheet h) = []
         \/ exists r, In r (rows (below_header Examples.sheet h))
                      /\ is_text (at_ k r) = true)
        /\ forall r, In r (rows (below_header Examples.sheet h)) ->
                     is_number (at_ k r) = false)
  /\ ((exists df, parse_pivot_rules Examples.sheet = Ok df)
      <-> exists h,
            find_header (iterrows Examples.sheet) = Some h
            /\ forall key, In key key_cols ->
                 get_loc key (below_header Examples.sheet h) <> []).
Proof.
  assert (U : forall h, find_header (iterrows Examples.sheet) = Some h ->
                List.length (get_loc supplier_col (below_header Examples.sheet h)) <= 1
                /\ List.length (get_loc "Segment" (below_header Examples.sheet h)) <= 1).
  { intros h Hh. assert (E : h = 1) by (vm_compute in Hh; congruence). subst h.
    split; vm_compute; lia. }
  assert (T : forall h k, find_header (iterrows Examples.sheet) = Some h ->
                nth_error (columns (below_header Examples.sheet h)) k
                = Some (Str "Segment") ->
                (rows (below_header Examples.sheet h) = []
                 \/ exists r, In r (rows (below_header Examples.sheet h))
                              /\ is_text (at_ k r) = true)
                /\ forall r, In r (rows (below_header Examples.sheet h)) ->
                             is_number (at_ k r) = false).
  { intros h k Hh Hk. assert (E : h = 1) by (vm_compute in Hh; congruence). subst h.
    assert (E : k = 0).
    { apply get_loc_In in Hk.
      change (get_loc "Segment" (below_header Examples.sheet 1)) with [0] in Hk.
      destruct Hk as [<-|[]]. reflexivity. }
    subst k. split.
    - right. eexists. split; [left; reflexivity | reflexivity].
    - intros r Hr. simpl in Hr.
      repeat (destruct Hr as [<-|Hr]; [reflexivity|]). contradiction. }
  split; [exact sheet_rectangular|]. split; [exact U|]. split; [exact T|].
  exact (parse_succeeds_iff Examples.sheet sheet_rectangular U T).
Defined.

(** X2: with a header row found, the first key label, in the order of
    [key_cols], that no column carries is reported as a [KeyError]. *)
Theorem parse_missing_key_column g h key :
  find_header (iterrows g) = Some h ->
  find (missing_label (below_header g h)) key_cols = Some key ->
  parse_pivot_rules g = Err (KeyError key).
Proof.
  intros Hh Hf. unfold parse_pivot_rules, clean. rewrite Hh.
  now rewrite (ffill_keys_first_missing _ _ _ Hf).
Qed.

Lemma parse_missing_key_column_witness :
  find_header (iterrows Examples.sheet_without_hosting) = Some 0
  /\ find (missing_label (below_header Examples.sheet_without_hosting 0)) key_cols
     = Some "Hosting"
  /\ parse_pivot_rules Examples.sheet_without_hosting = Err (KeyError "Hosting").
Proof.
  assert (H1 : find_header (iterrows Examples.sheet_without_hosting) = Some 0)
    by reflexivity.
  assert (H2 : find (missing_label (below_header Examples.sheet_without_hosting 0))
                 key_cols = Some "Hosting") by (vm_compute; reflexivity).
  split; [exact H1|]. split; [exact H2|].
  exact (parse_missing_key_column Examples.sheet_without_hosting 0 "Hosting" H1 H2).
Defined.

(** X3: with a header row found and the nine key labels present, a
    supplier label on two or more columns stops the parser at line 42,
    where a single column is needed. *)
Theorem parse_repeated_label g h :
  find_header (iterrows g) = Some h ->
  (forall key, In key key_cols -> get_loc key (below_header g h) <> []) ->
  2 <= List.length (get_loc supplier_col (below_header g h)) ->
  parse_pivot_rules g = Err (NotASeries supplier_col).
Proof.
  intros Hh Hkeys.
  destruct (ffill_keys_total key_cols _ Hkeys) as [d1 Hfill].
  pose proof (ffill_keys_columns _ _ _ Hfill) as Hc.
  unfold parse_pivot_rules. rewrite Hh, clean_unfold, Hfill.
  rewrite <- !(get_loc_same_columns _ d1 (below_header g h) Hc).
  intros Hlen. destruct (get_loc supplier_col d1) as [|a [|b l]] eqn:E;
    simpl in Hlen; try lia. reflexivity.
Qed.

(** X5: a column is addressed by its stripped header label: the positions the
    parser finds for [key] are those of the header cells that are texts
    stripping to [key]. *)
Theorem columns_addressed_by_stripped_label g h key j :
  In j (get_loc key (below_header g h))
  <-> exists s, nth_error (nth h g []) j = Some (Str s) /\ strip s = key.
Proof.
  rewrite get_loc_In. unfold below_header. cbn [columns]. rewrite nth_error_map.
  destruct (nth_error (nth h g []) j) as [c|]; simpl.
  - destruct c as [|s|n|n]; simpl; split.
    + discriminate.
    + intros (s & [=] & _).
    + intros [= <-]. eauto.
    + intros (s' & [= <-] & <-). reflexivity.
    + discriminate.
    + intros (s & [=] & _).
    + discriminate.
    + intros (s & [=] & _).
  - split; [discriminate | intros (s & [=] & _)].
Qed.

End ParserOutcome.

Section ParserErrors.

Lemma parse_repeated_label_witness :
  find_header (iterrows sheet_two_suppliers) = Some 0
  /\ (forall key, In key key_cols ->
        get_loc key (below_header sheet_two_suppliers 0) <> [])
  /\ 2 <= List.length (get_loc supplier_col (below_header sheet_two_suppliers 0))
  /\ parse_pivot_rules sheet_two_suppliers = Err (NotASeries supplier_col).
Proof.
  assert (H1 : find_header (iterrows sheet_two_suppliers) = Some 0) by reflexivity.
  assert (H2 : forall key, In key key_cols ->
                 get_loc key (below_header sheet_two_suppliers 0) <> [])
    by (intros key Hk; simpl in Hk;
        repeat (destruct Hk as [<-|Hk]; [vm_compute; discriminate|]);
        contradiction).
  assert (H3 : 2 <= List.length (get_loc supplier_col (below_header sheet_two_suppliers 0)))
    by (vm_compute; lia).
  split; [exact H1|]. split; [exact H2|]. split; [exact H3|].
  exact (parse_repeated_label sheet_two_suppliers 0 H1 H2 H3).
Defined.

Lemma ffill_keys_error keys : forall d e,
  ffill_keys keys d = Err e ->
  exists key, In key keys /\ get_loc key d = [] /\ e = KeyError key.
Proof.
  induction keys as [|k keys IH]; intros d e; simpl; [discriminate|].
  destruct (ffill_label k d) as [d1|e1] eqn:E; cbn [bind].
  - intros H. destruct (IH _ _ H) as (key & Hin & Hg & ->).
    exists key. split; [now right|]. split; [|reflexivity].
    now rewrite (get_loc_same_columns key d d1 (eq_sym (ffill_label_columns _ _ _ E))).
  - intros [= <-]. unfold ffill_label in E.
    destruct (get_loc k d) eqn:Eg; [|discriminate]. injection E as <-.
    exists k. split; [now left|]. now split.
Qed.

(** X4: whatever the sheet, the parser stops only with the header error, with
    a [KeyError] for one of the eight key labels other than the segment,
    because the supplier or the segment label is on several columns, or
    because the segment column has no [.str] accessor at line 47. *)
Theorem parse_errors g e :
  parse_pivot_rules g = Err e ->
  e = HeaderNotFound
  \/ (exists key, In key key_cols /\ key <> "Segment" /\ e = KeyError key)
  \/ e = NotASeries supplier_col
  \/ e = NotASeries "Segment"
  \/ e = NotText "Segment".
Proof.
  unfold parse_pivot_rules.
  destruct (find_header (iterrows g)) as [h|] eqn:Hh; [|intros [= <-]; now left].
  destruct (found_header_row g h Hh) as (hdr & Hn & Hseg & Hsup).
  pose proof (header_keeps_exact_label g h hdr "Segment" Hn Hseg eq_refl) as Pseg.
  pose proof (header_keeps_exact_label g h hdr "Supplier / Product" Hn Hsup eq_refl) as Psup.
  rewrite clean_unfold.
  destruct (ffill_keys key_cols (below_header g h)) as [d1|e1] eqn:Hfill.
  - pose proof (ffill_keys_columns _ _ _ Hfill) as Hc.
    rewrite <- (get_loc_same_columns "Segment" d1 _ Hc) in Pseg.
    rewrite <- (get_loc_same_columns "Supplier / Product" d1 _ Hc) in Psup.
    change supplier_col with "Supplier / Product".
    destruct (get_loc "Supplier / Product" d1) as [|j [|j' l]] eqn:E1;
      [contradiction | | intros [= <-]; right; right; now left].
    destruct (get_loc "Segment" d1) as [|k [|k' ks]];
      [contradiction | | intros [= <-]; right; right; right; now left].
    destruct (str_accessor _ _ _) as [u|e2] eqn:E2; [discriminate|].
    intros [= <-]. apply str_accessor_error in E2. now repeat right.
  - intros [= <-]. destruct (ffill_keys_error _ _ _ Hfill) as (key & Hin & Hg & ->).
    right; left. exists key. split; [exact Hin|]. split; [|reflexivity].
    intros ->. contradiction.
Qed.

Lemma parse_errors_witness :
  parse_pivot_rules Examples.sheet_without_hosting = Err (KeyError "Hosting")
  /\ (KeyError "Hosting" = HeaderNotFound
      \/ (exists key, In key key_cols /\ key <> "Segment" /\ KeyError "Hosting" = KeyError key)
      \/ KeyError "Hosting" = NotASeries supplier_col
      \/ KeyError "Hosting" = NotASeries "Segment"
      \/ KeyError "Hosting" = NotText "Segment").
Proof.
  assert (H : parse_pivot_rules Examples.sheet_without_hosting = Err (KeyError "Hosting"))
    by (vm_compute; reflexivity).
  split; [exact H|].
  exact (parse_errors Examples.sheet_without_hosting (KeyError "Hosting") H).
Defined.

(** X25: the segment column needs a text.  With the header found, the nine
    key labels present and the supplier and segment labels on one column
    each, a sheet with data rows whose segment cells are all numbers or
    missing is refused at line 47: a column of numbers has no [.str]
    accessor. *)
Theorem segment_without_text_fails g h k :
  rectangular_grid g ->
  find_header (iterrows g) = Some h ->
  (forall key, In key key_cols -> get_loc key (below_header g h) <> []) ->
  List.length (get_loc supplier_col (below_header g h)) <= 1 ->
  get_loc "Segment" (below_header g h) = [k] ->
  rows (below_header g h) <> [] ->
  (forall r, In r (rows (below_header g h)) -> is_text (at_ k r) = false) ->
  parse_pivot_rules g = Err (NotText "Segment").
Proof.
  intros G Hh Hkeys U Hk Hrows Hno.
  destruct (found_header_row g h Hh) as (hdr & Hn & _ & Hsup).
  pose proof (header_keeps_exact_label g h hdr "Supplier / Product" Hn Hsup eq_refl)
    as Psup.
  change "Supplier / Product" with supplier_col in Psup.
  destruct (get_loc supplier_col (below_header g h)) as [|j [|j' l]] eqn:Ej;
    [contradiction | | simpl in U; lia].
  destruct (ffill_keys_total key_cols _ Hkeys) as [d1 Hfill].
  pose proof (ffill_keys_columns _ _ _ Hfill) as Hc.
  assert (Hk' : nth_error (columns (below_header g h)) k = Some (Str "Segment"))
    by (apply get_loc_In; rewrite Hk; now left).
  pose proof (ffill_keys_column "Segment" k _ d1 (rectangular_below g h G Hh) Hfill
                (or_introl eq_refl) Hk') as Hcolk.
  unfold parse_pivot_rules. rewrite Hh, clean_unfold, Hfill.
  rewrite !(get_loc_same_columns _ d1 (below_header g h) Hc), Ej, Hk.
  rewrite str_accessor_no_text; [reflexivity | |].
  - intros E. apply (f_equal (@List.length cell)) in E.
    rewrite Hcolk, infer_objects_length, ffill_length in E.
    unfold column in E. rewrite length_map in E.
    destruct (rows (below_header g h)); [now apply Hrows | discriminate].
  - rewrite Hcolk, filled_keeps by (reflexivity || apply is_text_to_float).
    destruct (existsb is_text (column k (below_header g h))) eqn:E; [|reflexivity].
    apply existsb_exists in E as (c & Hin & Ht).
    unfold column in Hin. apply in_map_iff in Hin as (r & <- & Hr).
    now rewrite (Hno r Hr) in Ht.
Qed.

Lemma segment_without_text_fails_witness :
  rectangular_grid sheet_numbered_segments
  /\ find_header (iterrows sheet_numbered_segments) = Some 0
  /\ (forall key, In key key_cols ->
        get_loc key (below_header sheet_numbered_segments 0) <> [])
  /\ List.length (get_loc supplier_col (below_header sheet_numbered_segments 0)) <= 1
  /\ get_loc "Segment" (below_header sheet_numbered_segments 0) = [0]
  /\ rows (below_header sheet_numbered_segments 0) <> []
  /\ (forall r, In r (rows (below_header sheet_numbered_segments 0)) ->
        is_text (at_ 0 r) = false)
  /\ parse_pivot_rules sheet_numbered_segments = Err (NotText "Segment").
Proof.
  assert (G : rectangular_grid sheet_numbered_segments).
  { assert (H : forall r, In r sheet_numbered_segments -> List.length r = 10).
    { intros r Hr. simpl in Hr.
      repeat (destruct Hr as [<-|Hr]; [reflexivity|]). contradiction. }
    intros r1 r2 H1 H2. now rewrite (H r1 H1), (H r2 H2). }
  assert (H1 : find_header (iterrows sheet_numbered_segments) = Some 0) by reflexivity.
  assert (H2 : forall key, In key key_cols ->
                 get_loc key (below_header sheet_numbered_segments 0) <> [])
    by (intros key Hk; simpl in Hk;
        repeat (destruct Hk as [<-|Hk]; [vm_compute; discriminate|]);
        contradiction).
  assert (H3 : List.length (get_loc supplier_col
                              (below_header sheet_numbered_segments 0)) <= 1)
    by (vm_compute; lia).
  assert (H4 : get_loc "Segment" (below_header sheet_numbered_segments 0) = [0])
    by reflexivity.
  assert (H5 : rows (below_header sheet_numbered_segments 0) <> []) by discriminate.
  assert (H6 : forall r, In r (rows (below_header sheet_numbered_segments 0)) ->
                 is_text (at_ 0 r) = false).
  { intros r Hr. simpl in Hr.
    repeat (destruct Hr as [<-|Hr]; [reflexivity|]). contradiction. }
  repeat (split; [assumption|]).
  exact (segment_without_text_fails sheet_numbered_segments 0 0 G H1 H2 H3 H4 H5 H6).
Defined.

(** X26: numbers below a gap come out as floats.  The project budget of
    the sheet is missing in the first data row and 100 in the second; the
    filled column keeps the missing cell and is a column of floats, so the
    aggregated budget reads "100.0", while the licence budget, a column of
    integers without a gap, reads "50". *)
Theorem numbers_below_gap_become_floats :
  exists df agg,
    parse_pivot_rules sheet_budget_after_gap = Ok df
    /\ column 8 df = [ NaN; Flt 100 ]
    /\ column 9 df = [ Num 50; Num 50 ]
    /\ aggregate df = Ok agg
    /\ map cells (rows agg)
       = [ [ Str "AcmeGRC"; Str "Yes"; Str "3-6m"; Str "100.0"; Str "50" ] ].
Proof.
  do 2 eexists. split; [vm_compute; reflexivity|].
  repeat split; vm_compute; reflexivity.
Qed.


End ParserErrors.

(** ** More on the forward fill *)

Section ForwardFillMore.

Lemma labelled_among_dec keys df j :
  labelled_among keys df j \/ ~ labelled_among keys df j.
Proof.
  unfold labelled_among. destruct (nth_error (columns df) j) as [c|] eqn:E.
  - destruct c as [|s|n|n].
    + right. intros (key & _ & [=]).
    + destruct (in_dec string_dec s keys) as [Hin|Hout].
      * left. eauto.
      * right. intros (key & Hk & [= ->]). contradiction.
    + right. intros (key & _ & [=]).
    + right. intros (key & _ & [=]).
  - right. intros (key & _ & [=]).
Qed.

(** X6: the fill touches the key columns only: every column that carries none
    of the nine key labels, the supplier column among them, comes out as it
    went in, under the same labels and index. *)
Theorem forward_fill_leaves_other_columns df :
  rectangular df ->
  (forall key, In key key_cols -> get_loc key df <> []) ->
  exists df',
    ffill_keys key_cols df = Ok df'
    /\ columns df' = columns df
    /\ index df' = index df
    /\ forall j, ~ labelled_among key_cols df j -> column j df' = column j df.
Proof.
  intros R Hlab. destruct (ffill_keys_total key_cols df Hlab) as [df' E].
  exists df'. split; [exact E|].
  destruct (ffill_keys_spec key_cols df df' key_cols_NoDup R E) as (Hc & _ & Hi & Hcol).
  split; [exact Hc|]. split; [exact Hi|]. intros j Hj.
  apply (proj2 (Hcol j)). intros key Hk Hn. apply Hj. now exists key.
Qed.

Lemma forward_fill_leaves_other_columns_witness :
  rectangular (below_header Examples.sheet 1)
  /\ (forall key, In key key_cols -> get_loc key (below_header Examples.sheet 1) <> [])
  /\ exists df',
       ffill_keys key_cols (below_header Examples.sheet 1) = Ok df'
       /\ columns df' = columns (below_header Examples.sheet 1)
       /\ index df' = index (below_header Examples.sheet 1)
       /\ forall j, ~ labelled_among key_cols (below_header Examples.sheet 1) j ->
                    column j df' = column j (below_header Examples.sheet 1).
Proof.
  assert (R : rectangular (below_header Examples.sheet 1)) by (repeat constructor).
  assert (L : forall key, In key key_cols ->
                get_loc key (below_header Examples.sheet 1) <> [])
    by (intros key Hk; simpl in Hk;
        repeat (destruct Hk as [<-|Hk]; [vm_compute; discriminate|]);
        contradiction).
  split; [exact R|]. split; [exact L|].
  exact (forward_fill_leaves_other_columns (below_header Examples.sheet 1) R L).
Defined.

End ForwardFillMore.

Section FillTwice.

Lemma ffill_from_idempotent xs : forall last,
  ffill_from last (ffill_from last xs) = ffill_from last xs.
Proof.
  induction xs as [|x xs IH]; intros last; [reflexivity|].
  cbn [ffill_from].
  assert (E : (if isna (if isna x then last else x) then last
               else if isna x then last else x)
              = (if isna x then last else x))
    by (destruct x; simpl; try reflexivity; now destruct (isna last)).
  rewrite E. f_equal. apply IH.
Qed.

Lemma ffill_from_to_float xs : forall last,
  ffill_from (to_float last) (map to_float xs) = map to_float (ffill_from last xs).
Proof.
  induction xs as [|x xs IH]; intros last; [reflexivity|].
  cbn [map ffill_from].
  assert (E : (if isna (to_float x) then to_float last else to_float x)
              = to_float (if isna x then last else x)) by now destruct x.
  rewrite E. f_equal. apply IH.
Qed.

Lemma to_float_idempotent xs : map to_float (map to_float xs) = map to_float xs.
Proof.
  rewrite map_map. apply map_ext. now intros [].
Qed.

(** The type inferred for a filled column does not change when the
    column is filled and typed again. *)
Lemma infer_objects_fixed ys :
  ffill ys = ys -> infer_objects (ffill (infer_objects ys)) = infer_objects ys.
Proof.
  intros Hy.
  destruct (existsb is_text ys) eqn:Et.
  { assert (E : infer_objects ys = ys) by (unfold infer_objects; now rewrite Et).
    now rewrite E, Hy. }
  destruct (existsb (fun c => isna c || is_float c) ys) eqn:Ef.
  2:{ assert (E : infer_objects ys = ys)
        by (unfold infer_objects; now rewrite Et, Ef).
      now rewrite E, Hy. }
  assert (E0 : infer_objects ys = map to_float ys)
    by (unfold infer_objects; now rewrite Et, Ef).
  assert (E : ffill (map to_float ys) = map to_float ys).
  { unfold ffill. change NaN with (to_float NaN) at 1.
    rewrite ffill_from_to_float. fold (ffill ys). now rewrite Hy. }
  rewrite E0, E. unfold infer_objects.
  rewrite (existsb_to_float is_text ys is_text_to_float), Et.
  assert (Ef' : existsb (fun c => isna c || is_float c) (map to_float ys) = true).
  { apply existsb_exists in Ef as (c & Hin & Hq). apply existsb_exists.
    exists (to_float c). split; [now apply in_map | now destruct c]. }
  now rewrite Ef', to_float_idempotent.
Qed.

Lemma rows_ext rs : forall rs',
  map label rs = map label rs' ->
  map (fun r => List.length (cells r)) rs = map (fun r => List.length (cells r)) rs' ->
  (forall j, map (at_ j) rs = map (at_ j) rs') ->
  rs = rs'.
Proof.
  induction rs as [|r rs IH]; intros [|r' rs'] Hl Hw Hc; simpl in *;
    try discriminate; [reflexivity|].
  injection Hl as Hl1 Hl2. injection Hw as Hw1 Hw2.
  f_equal.
  - destruct r as [l c], r' as [l' c']. simpl in *. subst l'. f_equal.
    apply (nth_ext c c' NaN NaN Hw1). intros n _.
    specialize (Hc n). now injection Hc.
  - apply IH; try assumption. intros j. specialize (Hc j). now injection Hc.
Qed.

Lemma frame_ext d d' :
  columns d = columns d' -> index d = index d' -> widths d = widths d' ->
  (forall j, column j d = column j d') -> d = d'.
Proof.
  destruct d as [c rs], d' as [c' rs']. unfold index, widths, column. simpl.
  intros -> Hi Hw Hc. f_equal. now apply rows_ext.
Qed.

(** X7: filling once is enough: the forward fill of the filled frame gives the
    same frame again. *)
Theorem forward_fill_twice df :
  rectangular df ->
  (forall key, In key key_cols -> get_loc key df <> []) ->
  exists df',
    ffill_keys key_cols df = Ok df' /\ ffill_keys key_cols df' = Ok df'.
Proof.
  intros R Hlab. destruct (ffill_keys_total key_cols df Hlab) as [df' E].
  exists df'. split; [exact E|].
  destruct (ffill_keys_spec key_cols df df' key_cols_NoDup R E) as (Hc & Hw & Hi & Hcol).
  assert (R' : rectangular df') by exact (rectangular_same df df' Hc Hw R).
  assert (Hlab' : forall key, In key key_cols -> get_loc key df' <> []).
  { intros key Hk. rewrite (get_loc_same_columns key df' df Hc). now apply Hlab. }
  destruct (ffill_keys_total key_cols df' Hlab') as [df'' E'].
  destruct (ffill_keys_spec key_cols df' df'' key_cols_NoDup R' E')
    as (Hc' & Hw' & Hi' & Hcol').
  rewrite E'. f_equal. apply frame_ext; try assumption. intros j.
  destruct (labelled_among_dec key_cols df' j) as [(key & Hk & Hn)|Hno].
  - rewrite (proj1 (Hcol' j) key Hk Hn).
    rewrite Hc in Hn. rewrite (proj1 (Hcol j) key Hk Hn).
    apply infer_objects_fixed. apply ffill_from_idempotent.
  - apply (proj2 (Hcol' j)). intros key Hk Hn. apply Hno. now exists key.
Qed.

Lemma forward_fill_twice_witness :
  rectangular (below_header Examples.sheet 1)
  /\ (forall key, In key key_cols -> get_loc key (below_header Examples.sheet 1) <> [])
  /\ exists df',
       ffill_keys key_cols (below_header Examples.sheet 1) = Ok df'
       /\ ffill_keys key_cols df' = Ok df'.
Proof.
  assert (R : rectangular (below_header Examples.sheet 1)) by (repeat constructor).
  assert (L : forall key, In key key_cols ->
                get_loc key (below_header Examples.sheet 1) <> [])
    by (intros key Hk; simpl in Hk;
        repeat (destruct Hk as [<-|Hk]; [vm_compute; discriminate|]);
        contradiction).
  split; [exact R|]. split; [exact L|].
  exact (forward_fill_twice (below_header Examples.sheet 1) R L).
Defined.

End FillTwice.

(** ** The index and the duplicates (lines 49-50) *)

Section IndexMore.

Lemma seq_StronglySorted n : forall b, StronglySorted lt (seq b n).
Proof.
  induction n as [|n IH]; intros b; simpl; constructor; [apply IH|].
  apply Forall_forall. intros i Hi. apply in_seq in Hi. lia.
Qed.

Lemma drop_seen_labels_sorted (R : nat -> nat -> Prop) rs : forall seen,
  StronglySorted R (map label rs) ->
  StronglySorted R (map label (drop_seen seen rs)).
Proof.
  induction rs as [|r rs IH]; intros seen H; simpl; [constructor|].
  simpl in H. apply StronglySorted_inv in H as [Hs Hf].
  destruct (cells_in (cells r) seen); [now apply IH|].
  simpl. constructor; [now apply IH|].
  rewrite Forall_forall in Hf |- *. intros i Hi.
  apply in_map_iff in Hi as (r' & <- & Hr').
  apply Hf. apply in_map. now apply (drop_seen_spec rs (cells r :: seen)).
Qed.

(** X8: the index of the frame the parser returns is strictly increasing, so
    no label occurs twice and the rows keep their order, and it starts
    at 0. *)
Theorem parsed_index_increasing g df :
  parse_pivot_rules g = Ok df ->
  StronglySorted lt (index df)
  /\ (index df = [] \/ exists l, index df = 0 :: l).
Proof.
  intros H. apply parse_inv in H as (h & _ & H).
  apply clean_inv in H as (d1 & j & k & _ & _ & _ & ->).
  unfold clean_at, index. cbn [rows drop_duplicates reset_index]. split.
  - apply drop_seen_labels_sorted. rewrite relabel_from_labels.
    apply seq_StronglySorted.
  - match goal with |- context [relabel_from 0 ?X] => destruct X as [|r0 rest] end;
      [now left|]. right. simpl. eauto.
Qed.

Lemma parsed_index_increasing_witness :
  parse_pivot_rules Examples.sheet = Ok Examples.frame
  /\ StronglySorted lt (index Examples.frame)
  /\ (index Examples.frame = [] \/ exists l, index Examples.frame = 0 :: l).
Proof.
  assert (H : parse_pivot_rules Examples.sheet = Ok Examples.frame)
    by (vm_compute; reflexivity).
  split; [exact H|].
  exact (parsed_index_increasing Examples.sheet Examples.frame H).
Defined.

Lemma drop_seen_complete rs : forall seen r,
  In r rs ->
  In (cells r) seen \/ In (cells r) (map cells (drop_seen seen rs)).
Proof.
  induction rs as [|r0 rs IH]; intros seen r; simpl; [intros []|].
  intros [<-|Hr].
  - destruct (cells_in (cells r0) seen) eqn:E.
    + left. now apply cells_in_iff.
    + right. now left.
  - destruct (cells_in (cells r0) seen) eqn:E.
    + now apply IH.
    + destruct (IH (cells r0 :: seen) r Hr) as [[<-|H]|H].
      * right. now left.
      * now left.
      * right. now right.
Qed.

Lemma drop_seen_nothing rs : forall seen,
  NoDup (map cells rs) ->
  (forall r, In r rs -> ~ In (cells r) seen) ->
  drop_seen seen rs = rs.
Proof.
  induction rs as [|r rs IH]; intros seen Hnd Hs; simpl; [reflexivity|].
  simpl in Hnd. inversion Hnd as [|? ? Hr Hnd']; subst.
  destruct (cells_in (cells r) seen) eqn:E.
  - apply cells_in_iff in E. exfalso. now apply (Hs r (or_introl eq_refl)).
  - f_equal. apply IH; [exact Hnd'|]. intros r' Hr' [Hc|Hc].
    + apply Hr. rewrite Hc. now apply in_map.
    + apply (Hs r'); [now right | exact Hc].
Qed.

(** X9: lines 49-50 lose no content: every row of the frame is still there,
    cell for cell, after re-indexing and duplicate removal; and when no two
    rows are equal nothing is removed and the index is the dense
    0..n-1. *)
Theorem reindex_then_dedup df :
  (forall r, In r (rows df) ->
             In (cells r) (map cells (rows (drop_duplicates (reset_index df)))))
  /\ (NoDup (map cells (rows df)) ->
      drop_duplicates (reset_index df) = reset_index df
      /\ index (drop_duplicates (reset_index df)) = seq 0 (List.length (rows df))).
Proof.
  split.
  - intros r Hr. cbn [rows drop_duplicates reset_index].
    assert (Hc : In (cells r) (map cells (relabel_from 0 (rows df))))
      by (rewrite relabel_from_cells; now apply in_map).
    apply in_map_iff in Hc as (r' & Heq & Hr'). rewrite <- Heq.
    destruct (drop_seen_complete _ [] r' Hr') as [[]|H]. exact H.
  - intros Hnd.
    assert (E : drop_duplicates (reset_index df) = reset_index df).
    { unfold drop_duplicates. cbn [rows columns reset_index]. unfold reset_index.
      f_equal. apply drop_seen_nothing; [now rewrite relabel_from_cells | tauto]. }
    split; [exact E|]. rewrite E. unfold index. cbn [rows reset_index].
    apply relabel_from_labels.
Qed.

End IndexMore.

(** ** More on the filter loop *)

Section FilterMore.

Lemma answers_active st : Forall active_entry (user_strategic_answers st).
Proof.
  unfold user_strategic_answers.
  repeat (apply Forall_app; split);
    match goal with
    | |- Forall _ (if ?b then _ else _) =>
        destruct b eqn:E; constructor; simpl; auto
    end.
Qed.

Lemma filter_loop_active_iff items :
  Forall active_entry items ->
  forall cur,
    (exists f, filter_loop items cur = Ok f)
    <-> forall e, In e items -> exists j, get_loc (entry_key e) cur = [j].
Proof.
  induction 1 as [|e items He Hitems IH]; intros cur.
  - simpl. split; [intros _ e [] | eauto].
  - assert (Hstep : forall keep,
              (exists f, filter_loop items (select keep cur) = Ok f)
              <-> forall e', In e' items -> exists j', get_loc (entry_key e') cur = [j'])
      by (intros keep; apply (IH (select keep cur))).
    destruct e as [key v|v]; simpl in He; cbn [filter_loop].
    + destruct He as [-> ->].
      destruct (series_loc key cur) as [j|err] eqn:E; cbn [bind].
      * apply series_loc_inv in E. rewrite Hstep. split.
        -- intros H e' [<-|He']; [exists j; exact E | now apply H].
        -- intros H e' He'. apply H. now right.
      * split; [intros [f Hf]; discriminate|]. intros H.
        destruct (H (Single key v) (or_introl eq_refl)) as [j Hj].
        simpl in Hj. rewrite (series_loc_get_loc _ _ _ Hj) in E. discriminate.
    + rewrite He.
      destruct (series_loc "Modules(tags)" cur) as [j|err] eqn:E; cbn [bind].
      * apply series_loc_inv in E. rewrite Hstep. split.
        -- intros H e' [<-|He']; [exists j; exact E | now apply H].
        -- intros H e' He'. apply H. now right.
      * split; [intros [f Hf]; discriminate|]. intros H.
        destruct (H (Modules v) (or_introl eq_refl)) as [j Hj].
        simpl in Hj. rewrite (series_loc_get_loc _ _ _ Hj) in E. discriminate.
Qed.

Lemma filter_loop_first_missing items :
  Forall active_entry items ->
  forall cur e,
    (forall e', In e' items -> List.length (get_loc (entry_key e') cur) <= 1) ->
    find (fun e' => missing_label cur (entry_key e')) items = Some e ->
    filter_loop items cur = Err (KeyError (entry_key e)).
Proof.
  induction 1 as [|e0 items He Hitems IH]; intros cur e U; [discriminate|].
  assert (Hstep : forall keep,
            find (fun e' => missing_label cur (entry_key e')) items = Some e ->
            filter_loop items (select keep cur) = Err (KeyError (entry_key e))).
  { intros keep Hf. apply IH.
    - intros e' He'. apply (U e'). now right.
    - rewrite <- Hf. apply find_same. intros e'. reflexivity. }
  pose proof (U e0 (or_introl eq_refl)) as U0.
  cbn [find]. unfold missing_label at 1.
  destruct e0 as [key v|v]; simpl in He; cbn [filter_loop entry_key] in *.
  - destruct He as [-> ->]. unfold series_loc.
    destruct (get_loc key cur) as [|j [|j' l]]; cbn [bind].
    + now intros [= <-].
    + apply Hstep.
    + simpl in U0. lia.
  - rewrite He. unfold series_loc.
    destruct (get_loc "Modules(tags)" cur) as [|j [|j' l]]; cbn [bind].
    + now intros [= <-].
    + apply Hstep.
    + simpl in U0. lia.
Qed.

(** X11: the filter loop addresses the columns of the active predicates
    only: where no label of an entry of the answers dictionary is on two
    columns, it returns a frame exactly when each of those labels is on a
    column, whatever the other labels; otherwise it stops with a
    [KeyError] for the first entry whose label no column carries. *)
Theorem filter_needs_only_active_labels df st :
  (forall e, In e (user_strategic_answers st) ->
     List.length (get_loc (entry_key e) df) <= 1) ->
  ((exists f, filter_loop (user_strategic_answers st) df = Ok f)
   <-> forall e, In e (user_strategic_answers st) -> get_loc (entry_key e) df <> [])
  /\ (forall e,
        find (fun e' => missing_label df (entry_key e')) (user_strategic_answers st)
        = Some e ->
        filter_loop (user_strategic_answers st) df = Err (KeyError (entry_key e))).
Proof.
  intros U. split.
  - rewrite (filter_loop_active_iff _ (answers_active st) df).
    split; intros H e He.
    + destruct (H e He) as [j ->]. discriminate.
    + specialize (U e He). specialize (H e He).
      destruct (get_loc (entry_key e) df) as [|j [|j' l]];
        [contradiction | eauto | simpl in U; lia].
  - intros e. now apply filter_loop_first_missing; [apply answers_active|].
Qed.

Lemma filter_needs_only_active_labels_witness :
  (forall e, In e (user_strategic_answers finance_saas) ->
     List.length (get_loc (entry_key e) frame_without_hosting) <= 1)
  /\ ((exists f, filter_loop (user_strategic_answers finance_saas)
                   frame_without_hosting = Ok f)
      <-> forall e, In e (user_strategic_answers finance_saas) ->
                    get_loc (entry_key e) frame_without_hosting <> [])
  /\ (forall e,
        find (fun e' => missing_label frame_without_hosting (entry_key e'))
             (user_strategic_answers finance_saas)
        = Some e ->
        filter_loop (user_strategic_answers finance_saas) frame_without_hosting
        = Err (KeyError (entry_key e))).
Proof.
  assert (U : forall e, In e (user_strategic_answers finance_saas) ->
                List.length (get_loc (entry_key e) frame_without_hosting) <= 1)
    by (intros e He; simpl in He;
        repeat (destruct He as [<-|He]; [vm_compute; lia|]); contradiction).
  split; [exact U|].
  exact (filter_needs_only_active_labels frame_without_hosting finance_saas U).
Defined.

Lemma entry_keep_same_columns df df' e r :
  columns df = columns df' -> entry_keep df e r = entry_keep df' e r.
Proof.
  intros H. destruct e as [k v|v]; simpl;
    now rewrite (attribute_same_columns _ df df' r H).
Qed.

Lemma forallb_same {A} (f g : A -> bool) l :
  (forall x, f x = g x) -> forallb f l = forallb g l.
Proof.
  intros H. induction l as [|x l IH]; simpl; [reflexivity | now rewrite H, IH].
Qed.

(** X12: filtering what is filtered changes nothing. *)
Theorem filter_idempotent df st :
  well_labelled df ->
  exists f,
    filter_loop (user_strategic_answers st) df = Ok f
    /\ filter_loop (user_strategic_answers st) f = Ok f.
Proof.
  intros W. eexists. split; [now apply filter_rows_spec|].
  match goal with |- filter_loop _ ?f = _ => set (fr := f) end.
  assert (Wf : well_labelled fr) by now apply (well_labelled_same_columns df fr).
  rewrite (filter_rows_spec fr st Wf).
  rewrite (filter_ext
             (fun r => forallb (fun e => entry_keep fr e r) (all_entries st))
             (fun r => forallb (fun e => entry_keep df e r) (all_entries st)))
    by (intros r; apply forallb_same; intros e;
        now apply entry_keep_same_columns).
  subst fr. cbn [columns rows]. rewrite filter_filter. f_equal. f_equal.
  apply filter_ext. intros r. apply andb_diag.
Qed.

Lemma filter_idempotent_witness :
  well_labelled Examples.frame
  /\ exists f,
       filter_loop (user_strategic_answers Examples.finance_audit) Examples.frame = Ok f
       /\ filter_loop (user_strategic_answers Examples.finance_audit) f = Ok f.
Proof.
  split; [labels_by_computation|].
  apply (filter_idempotent Examples.frame Examples.finance_audit).
  labels_by_computation.
Defined.

(** X13: widening a non-empty choice of modules loses no row: every row kept
    under the smaller list is kept under the larger one. *)
Theorem more_modules_keep_rows df st mods :
  well_labelled df ->
  mod_widget st <> [] ->
  incl (mod_widget st) mods ->
  exists f f',
    filter_loop (user_strategic_answers st) df = Ok f
    /\ filter_loop (user_strategic_answers (with_modules st mods)) df = Ok f'
    /\ forall r, In r (rows f) -> In r (rows f').
Proof.
  intros W Hne Hincl. do 2 eexists.
  split; [now apply filter_rows_spec|]. split; [now apply filter_rows_spec|].
  cbn [rows]. intros r Hr. apply filter_In in Hr as [Hr Hk]. apply filter_In.
  split; [exact Hr|]. rewrite all_entries_keep_iff in Hk |- *.
  destruct Hk as (H1 & H2 & H3). split; [exact H1|]. split; [|exact H3].
  unfold modules_ok in *. cbn [mod_widget with_modules].
  destruct H2 as [H2|(tag & Ht & Ha)]; [contradiction|].
  right. exists tag. split; [now apply Hincl | exact Ha].
Qed.

Lemma more_modules_keep_rows_witness :
  well_labelled Examples.frame
  /\ mod_widget Examples.finance_audit <> []
  /\ incl (mod_widget Examples.finance_audit) ["Risk"; "Audit"; "Policy"]
  /\ exists f f',
       filter_loop (user_strategic_answers Examples.finance_audit) Examples.frame = Ok f
       /\ filter_loop
            (user_strategic_answers
               (with_modules Examples.finance_audit ["Risk"; "Audit"; "Policy"]))
            Examples.frame = Ok f'
       /\ forall r, In r (rows f) -> In r (rows f').
Proof.
  assert (H1 : mod_widget Examples.finance_audit <> []) by discriminate.
  assert (H2 : incl (mod_widget Examples.finance_audit) ["Risk"; "Audit"; "Policy"])
    by (intros x Hx; simpl in Hx |- *; tauto).
  split; [labels_by_computation|]. split; [exact H1|]. split; [exact H2|].
  apply (more_modules_keep_rows Examples.frame Examples.finance_audit
           ["Risk"; "Audit"; "Policy"]); [labels_by_computation | exact H1 | exact H2].
Defined.

End FilterMore.

(** ** What the page shows *)

Section PageShows.

Lemma answers_nil_iff st : user_strategic_answers st = [] <-> no_selection st.
Proof.
  split; [|apply no_selection_answers].
  destruct st as [seg mods host orient reg]. unfold user_strategic_answers, no_selection.
  cbn [seg_widget mod_widget host_widget orient_widget reg_widget].
  destruct seg, mods, host, orient, reg; simpl; intros H;
    try discriminate; repeat split; reflexivity.
Qed.

(** X14: the reset button leads to the prompt: after [reset_filters] no
    predicate is active, the frame is left whole and the page asks for a
    criterion. *)
Theorem reset_returns_to_prompt df st :
  well_labelled df ->
  exists out,
    script df (reset_filters st) = Ok out
    /\ answers out = []
    /\ filtered_df out = df
    /\ shown out = info_select_criterion.
Proof.
  intros W. destruct (aggregate_total df W) as (a & Ha & _).
  exists {| answers := []; filtered_df := df; aggregated_df := a;
            shown := info_select_criterion |}.
  split; [|repeat split]. unfold script, reset_filters. cbn. now rewrite Ha.
Qed.

Lemma reset_returns_to_prompt_witness :
  well_labelled Examples.frame
  /\ exists out,
       script Examples.frame (reset_filters Examples.finance_audit) = Ok out
       /\ answers out = []
       /\ filtered_df out = Examples.frame
       /\ shown out = info_select_criterion.
Proof.
  split; [labels_by_computation|].
  apply (reset_returns_to_prompt Examples.frame Examples.finance_audit).
  labels_by_computation.
Defined.

Lemma texts_length xs : List.length (texts xs) <= List.length xs.
Proof.
  induction xs as [|c xs IH]; simpl; [lia|]. destruct c; simpl; lia.
Qed.

Lemma group_keys_length f j : List.length (group_keys j f) <= List.length (rows f).
Proof.
  unfold group_keys, sorted, set.
  rewrite (Permutation_length (sort_by_Permutation (fun s : string => s) _)).
  etransitivity.
  - apply NoDup_incl_length; [apply NoDup_nodup|].
    intros s Hs. apply nodup_In in Hs. exact Hs.
  - etransitivity; [apply texts_length|]. unfold column. now rewrite length_map.
Qed.

Lemma aggregated_length f :
  well_labelled f -> rows f <> [] ->
  exists a j,
    aggregate f = Ok a /\ get_loc supplier_col f = [j]
    /\ List.length (rows a) = List.length (group_keys j f).
Proof.
  intros W Hr.
  destruct (aggregate_rows f W (empty_false_rows f W Hr))
    as (j & d1 & d2 & d3 & d4 & Hj & _ & _ & _ & _ & Ha).
  eexists. exists j. split; [exact Ha|]. split; [exact Hj|]. cbn [rows].
  rewrite relabel_from_length.
  rewrite (Permutation_length (sort_by_Permutation _ _)).
  now rewrite relabel_from_length, length_map.
Qed.

(** X15: which of its three outcomes the page shows: the prompt exactly when no
    predicate is active; otherwise the warning when no row survives, and
    else the table, announced with its number of rows, which is at least
    one and at most the number of surviving rows. *)
Theorem page_shows df st :
  normalized df ->
  exists out,
    script df st = Ok out
    /\ (no_selection st -> shown out = info_select_criterion)
    /\ (~ no_selection st -> rows (filtered_df out) = [] ->
        shown out = warning_no_match)
    /\ (~ no_selection st -> rows (filtered_df out) <> [] ->
        shown out = success_dataframe (List.length (rows (aggregated_df out)))
                                      (aggregated_df out)
        /\ 1 <= List.length (rows (aggregated_df out))
             <= List.length (rows (filtered_df out))).
Proof.
  intros N. pose proof N as [W _].
  destruct (script_total df st W) as (f & a & Hf & Hfc & Ha & Hc & Hs).
  destruct (filter_keeps_normalized df st N) as (f' & Hf' & [Wf Tf]).
  assert (f' = f) by congruence. subst f'.
  eexists. split; [exact Hs|]. cbn [shown filtered_df aggregated_df].
  split; [|split].
  - intros Hn. now rewrite (no_selection_answers st Hn).
  - intros Hn Hr. destruct (user_strategic_answers st) eqn:E;
      [exfalso; now apply Hn, answers_nil_iff|].
    rewrite (aggregate_empty f (empty_no_rows f Hr)) in Ha. injection Ha as <-.
    reflexivity.
  - intros Hn Hr. destruct (user_strategic_answers st) eqn:E;
      [exfalso; now apply Hn, answers_nil_iff|].
    destruct (aggregated_length f Wf Hr) as (a' & j & Ha' & Hj & Hlen).
    assert (a' = a) by congruence. subst a'.
    assert (Hpos : 1 <= List.length (group_keys j f)).
    { assert (Hex : exists r, In r (rows f))
        by (destruct (rows f) as [|r rs]; [contradiction | exists r; now left]).
      destruct Hex as [r Hin_r]. destruct (Tf r Hin_r) as [s Hs'].
      assert (Hin : In s (group_keys j f))
        by (apply (group_keys_sorted_set f j Hj); now exists r).
      destruct (group_keys j f); [contradiction | simpl; lia]. }
    assert (Hemp : empty a = false).
    { unfold empty. rewrite Hc. simpl. destruct (rows a); [simpl in Hlen; lia | reflexivity]. }
    rewrite Hemp. split; [reflexivity|]. rewrite Hlen. split; [exact Hpos|].
    apply group_keys_length.
Qed.

Lemma page_shows_witness :
  normalized Examples.frame
  /\ exists out,
       script Examples.frame Examples.finance_audit = Ok out
       /\ (no_selection Examples.finance_audit -> shown out = info_select_criterion)
       /\ (~ no_selection Examples.finance_audit -> rows (filtered_df out) = [] ->
           shown out = warning_no_match)
       /\ (~ no_selection Examples.finance_audit -> rows (filtered_df out) <> [] ->
           shown out = success_dataframe (List.length (rows (aggregated_df out)))
                                         (aggregated_df out)
           /\ 1 <= List.length (rows (aggregated_df out))
                <= List.length (rows (filtered_df out))).
Proof.
  assert (N : normalized Examples.frame).
  { split; [labels_by_computation|].
    intros r Hr. simpl in Hr.
    repeat (destruct Hr as [<-|Hr]; [eexists; reflexivity|]). contradiction. }
  split; [exact N|].
  exact (page_shows Examples.frame Examples.finance_audit N).
Defined.

Lemma filter_none {A} (f : A -> bool) l :
  (forall x, In x l -> f x = false) -> filter f l = [].
Proof.
  induction l as [|x l IH]; intros H; simpl; [reflexivity|].
  rewrite (H x (or_introl eq_refl)). apply IH. intros y Hy. apply H. now right.
Qed.

(** X16: a chosen segment that no row carries is no error: no row survives,
    the aggregated frame is empty and the page shows the warning. *)
Theorem unknown_segment_gives_warning df st :
  well_labelled df ->
  seg_widget st <> "" ->
  (forall r, In r (rows df) -> attribute df "Segment" r <> Str (seg_widget st)) ->
  exists out,
    script df st = Ok out
    /\ rows (filtered_df out) = []
    /\ rows (aggregated_df out) = []
    /\ shown out = warning_no_match.
Proof.
  intros W Hv Hnone.
  destruct (script_total df st W) as (f & a & Hf & Hfc & Ha & Hc & Hs).
  pose proof (filter_rows_spec df st W) as Hf'.
  assert (Hfeq : f = {| columns := columns df;
                        rows := filter (fun r => forallb (fun e => entry_keep df e r)
                                                   (all_entries st)) (rows df) |})
    by congruence.
  assert (Hr : rows f = []).
  { rewrite Hfeq. cbn [rows]. apply filter_none. intros r Hin.
    destruct (forallb _ (all_entries st)) eqn:E; [|reflexivity].
    apply all_entries_keep_iff in E. destruct E as [[E|E] _]; [contradiction|].
    now apply Hnone in E. }
  rewrite (aggregate_empty _ (empty_no_rows _ Hr)) in Ha. injection Ha as <-.
  eexists. split; [exact Hs|]. cbn [filtered_df aggregated_df shown rows].
  split; [exact Hr|]. split; [reflexivity|].
  destruct (user_strategic_answers st) eqn:E; [|reflexivity].
  apply answers_nil_iff in E. destruct E as [E _]. contradiction.
Qed.

Lemma unknown_segment_gives_warning_witness :
  well_labelled Examples.frame
  /\ seg_widget Examples.lower_case_finance <> ""
  /\ (forall r, In r (rows Examples.frame) ->
        attribute Examples.frame "Segment" r
        <> Str (seg_widget Examples.lower_case_finance))
  /\ exists out,
       script Examples.frame Examples.lower_case_finance = Ok out
       /\ rows (filtered_df out) = []
       /\ rows (aggregated_df out) = []
       /\ shown out = warning_no_match.
Proof.
  assert (H1 : seg_widget Examples.lower_case_finance <> "") by discriminate.
  assert (H2 : forall r, In r (rows Examples.frame) ->
                 attribute Examples.frame "Segment" r
                 <> Str (seg_widget Examples.lower_case_finance))
    by (intros r Hr; simpl in Hr;
        repeat (destruct Hr as [<-|Hr]; [discriminate|]); contradiction).
  split; [labels_by_computation|]. split; [exact H1|]. split; [exact H2|].
  apply (unknown_segment_gives_warning Examples.frame Examples.lower_case_finance);
    [labels_by_computation | exact H1 | exact H2].
Defined.

End PageShows.

(** ** The aggregation depends on the set of rows only *)

Section AggregateSet.

Lemma strongly_sorted_unique l : forall l',
  StronglySorted (fun a b => (a <=? b)%string = true) l ->
  StronglySorted (fun a b => (a <=? b)%string = true) l' ->
  NoDup l -> NoDup l' ->
  (forall s, In s l <-> In s l') ->
  l = l'.
Proof.
  induction l as [|a t IH]; intros [|a' t'] Hs Hs' Hn Hn' Hin.
  - reflexivity.
  - exfalso. apply (proj2 (Hin a')). now left.
  - exfalso. apply (proj1 (Hin a)). now left.
  - apply StronglySorted_inv in Hs as [Hst Hft].
    apply StronglySorted_inv in Hs' as [Hst' Hft'].
    rewrite Forall_forall in Hft, Hft'.
    inversion Hn as [|? ? Ha Hnt]; subst. inversion Hn' as [|? ? Ha' Hnt']; subst.
    assert (E : a = a').
    { destruct (proj1 (Hin a) (or_introl eq_refl)) as [E|Hat']; [now symmetry|].
      destruct (proj2 (Hin a') (or_introl eq_refl)) as [E|Ha't]; [exact E|].
      apply String.leb_antisym; [now apply Hft | now apply Hft']. }
    subst a'. f_equal. apply IH; try assumption. intros s. split; intros H.
    + destruct (proj1 (Hin s) (or_intror H)) as [<-|H']; [contradiction | exact H'].
    + destruct (proj2 (Hin s) (or_intror H)) as [<-|H']; [contradiction | exact H'].
Qed.

Lemma sorted_set_unique l l' P : sorted_set l P -> sorted_set l' P -> l = l'.
Proof.
  intros (Hn & Hs & Hin) (Hn' & Hs' & Hin').
  apply strongly_sorted_unique; try assumption.
  intros s. now rewrite Hin, Hin'.
Qed.

Lemma sorted_set_same xs ys :
  (forall s, In s xs <-> In s ys) -> sorted (set xs) = sorted (set ys).
Proof.
  intros H. apply (sorted_set_unique _ _ (fun s => In s xs)).
  - apply sorted_is_sorted_set.
  - eapply sorted_set_ext; [|apply sorted_is_sorted_set]. intros s. cbn beta.
    now rewrite H.
Qed.

Lemma group_keys_same df rs rs' j :
  (forall r, In r rs <-> In r rs') ->
  group_keys j (with_rows df rs) = group_keys j (with_rows df rs').
Proof.
  intros H. unfold group_keys, column, with_rows. cbn [rows].
  apply sorted_set_same. intros s. rewrite !texts_In, !in_map_iff.
  split; intros (r & Hr & Hin); exists r; split; try assumption; now apply H.
Qed.

Lemma join_unique_same df rs rs' j d key :
  (forall r, In r rs <-> In r rs') ->
  join_unique (column d (group j key (with_rows df rs)))
  = join_unique (column d (group j key (with_rows df rs'))).
Proof.
  intros H. unfold join_unique, column, group, with_rows, select. cbn [rows].
  f_equal. f_equal. apply sorted_set_same. intros s. rewrite !in_map_iff.
  split; intros (c & Hc & Hin); exists c; split; try assumption;
    apply filter_In in Hin as [Hin Hna]; apply filter_In; split; try assumption;
    apply in_map_iff in Hin as (r & Hr & Hin); apply in_map_iff; exists r;
    split; try assumption;
    apply filter_In in Hin as [Hin Hk]; apply filter_In; split; try assumption;
    now apply H.
Qed.

(** X17: the aggregation looks at which rows there are, not at their order nor
    at how often a row occurs: two lists of rows with the same members
    give the same result, a frame or an error. *)
Theorem aggregate_ignores_order_and_repeats df rs rs' :
  (forall r, In r rs <-> In r rs') ->
  aggregate (with_rows df rs) = aggregate (with_rows df rs').
Proof.
  intros H. unfold aggregate.
  assert (He : empty (with_rows df rs) = empty (with_rows df rs')).
  { unfold empty, with_rows. cbn [columns rows].
    destruct (columns df); [reflexivity|].
    destruct rs as [|r rs], rs' as [|r' rs']; try reflexivity.
    - exfalso. apply (proj2 (H r')). now left.
    - exfalso. apply (proj1 (H r)). now left. }
  rewrite He. destruct (negb (empty (with_rows df rs'))); [|reflexivity].
  unfold groupby_agg.
  change (series_loc "Supplier / Product" (with_rows df rs))
    with (series_loc "Supplier / Product" (with_rows df rs')).
  destruct (series_loc "Supplier / Product" (with_rows df rs')) as [j|e];
    [|reflexivity].
  cbn [bind].
  assert (Hl : forall keys, series_locs keys (with_rows df rs)
                            = series_locs keys (with_rows df rs')).
  { induction keys as [|k keys IHk]; [reflexivity|]. cbn [series_locs].
    change (series_loc k (with_rows df rs)) with (series_loc k (with_rows df rs')).
    now rewrite IHk. }
  rewrite Hl. destruct (series_locs detail_cols (with_rows df rs')) as [ds|e];
    [|reflexivity].
  cbn [bind]. rewrite (group_keys_same df rs rs' j H).
  assert (Hm : map (agg_row (with_rows df rs) j ds) (group_keys j (with_rows df rs'))
               = map (agg_row (with_rows df rs') j ds) (group_keys j (with_rows df rs'))).
  { apply map_ext. intros key. unfold agg_row. f_equal. f_equal.
    apply map_ext. intros d. now apply join_unique_same. }
  unfold agg_row in Hm. now rewrite Hm.
Qed.

Lemma aggregate_ignores_order_and_repeats_witness :
  (forall r, In r (rows Examples.frame)
             <-> In r (rev (rows Examples.frame) ++ rows Examples.frame))
  /\ aggregate (with_rows Examples.frame (rows Examples.frame))
     = aggregate (with_rows Examples.frame
                    (rev (rows Examples.frame) ++ rows Examples.frame)).
Proof.
  assert (H : forall r, In r (rows Examples.frame)
                        <-> In r (rev (rows Examples.frame) ++ rows Examples.frame))
    by (intros r; simpl; tauto).
  split; [exact H|].
  exact (aggregate_ignores_order_and_repeats Examples.frame _ _ H).
Defined.

End AggregateSet.

(** ** The options of the sidebar (lines 99-103) *)

Section Options.

Lemma existsb_cell_iff x seen : existsb (cell_eqb x) seen = true <-> In x seen.
Proof.
  rewrite existsb_exists. split.
  - intros (y & Hy & E). apply cell_eqb_eq in E. now subst.
  - intros H. exists x. split; [exact H | apply cell_eqb_refl].
Qed.

Lemma unique_from_spec xs : forall seen,
  NoDup (unique_from seen xs)
  /\ forall x, In x (unique_from seen xs) <-> In x xs /\ ~ In x seen.
Proof.
  induction xs as [|a xs IH]; intros seen; simpl.
  - split; [constructor | intros x; tauto].
  - destruct (existsb (cell_eqb a) seen) eqn:E.
    + apply existsb_cell_iff in E. destruct (IH seen) as [Hn Hin]. split; [exact Hn|].
      intros x. rewrite Hin. split; [tauto|]. intros [[<-|H] Hs]; tauto.
    + assert (Ha : ~ In a seen)
        by (intros H; apply existsb_cell_iff in H; congruence).
      destruct (IH (a :: seen)) as [Hn Hin]. split.
      * constructor; [|exact Hn]. rewrite Hin. simpl. tauto.
      * intros x. simpl. rewrite Hin. simpl. split.
        -- intros [<-|[H1 H2]]; tauto.
        -- intros [[<-|H] Hs]; [now left|].
           destruct (cell_eq_dec a x) as [<-|Hne]; [now left | right; tauto].
Qed.

Lemma unique_values_spec j df :
  NoDup (unique (dropna (column j df)))
  /\ forall c, In c (unique (dropna (column j df)))
               <-> c <> NaN /\ exists r, In r (rows df) /\ at_ j r = c.
Proof.
  unfold unique. destruct (unique_from_spec (dropna (column j df)) []) as [Hn Hin].
  split; [exact Hn|]. intros c. rewrite Hin. unfold dropna, column.
  rewrite filter_In, in_map_iff. split.
  - intros [[(r & Hr & Hi) Hna] _]. split; [intros ->; discriminate | eauto].
  - intros [Hc (r & Hr & Hi)]. split; [|tauto]. split; [eauto|].
    now destruct c.
Qed.

Lemma all_text_inv xs ts : all_text xs = Some ts -> xs = map Str ts.
Proof.
  revert ts. induction xs as [|c xs IH]; intros ts; simpl.
  - now intros [= <-].
  - destruct c as [|s|n|n]; try discriminate.
    destruct (all_text xs) as [ts'|]; [|discriminate].
    intros [= <-]. simpl. now rewrite (IH ts' eq_refl).
Qed.

Lemma all_text_total xs :
  (forall c, In c xs -> exists s, c = Str s) -> exists ts, all_text xs = Some ts.
Proof.
  induction xs as [|c xs IH]; intros H; simpl; [eauto|].
  destruct (H c (or_introl eq_refl)) as [s ->].
  destruct IH as [ts ->]; [intros c Hc; apply H; now right | eauto].
Qed.

Lemma insert_number_Permutation x l : Permutation (insert_number x l) (x :: l).
Proof.
  induction l as [|y l IH]; simpl; [reflexivity|].
  destruct (number_value x <=? number_value y)%Z; [reflexivity|].
  rewrite IH. apply perm_swap.
Qed.

Lemma sort_numbers_Permutation l : Permutation (sort_numbers l) l.
Proof.
  induction l as [|x l IH]; simpl; [reflexivity|].
  rewrite insert_number_Permutation. now constructor.
Qed.

Lemma sorted_values_In xs ys c :
  sorted_values xs = Ok ys -> (In c ys <-> In c xs).
Proof.
  unfold sorted_values. destruct (all_text xs) as [ts|] eqn:Et.
  - intros [= <-]. rewrite (all_text_inv _ _ Et).
    split; apply Permutation_in, Permutation_map;
      [|symmetry]; apply sort_by_Permutation.
  - destruct (forallb is_number xs); [|discriminate].
    intros [= <-].
    split; apply Permutation_in; [|symmetry]; apply sort_numbers_Permutation.
Qed.

Lemma sorted_NoDup_sorted_set ts :
  NoDup ts -> sorted_set (sorted ts) (fun s => In s ts).
Proof.
  intros Hn. unfold sorted. split; [|split].
  - eapply Permutation_NoDup; [symmetry; apply sort_by_Permutation | exact Hn].
  - apply Sorted_StronglySorted; [intros a b c; apply leb_trans|].
    apply (sort_by_Sorted (fun s : string => s)).
  - intros s. split; apply Permutation_in;
      [|symmetry]; apply sort_by_Permutation.
Qed.

(** X18: for a column without numbers, the choices offered are the distinct
    texts of the column, each once and in ascending order. *)
Theorem options_of_text_column df key j :
  get_loc key df = [j] ->
  (forall r, In r (rows df) -> is_number (attribute df key r) = false) ->
  exists l,
    sorted_unique key df = Ok (map Str l)
    /\ sorted_set l (fun s => exists r, In r (rows df) /\ attribute df key r = Str s).
Proof.
  intros Hj Htext. unfold sorted_unique. rewrite (series_loc_get_loc _ _ _ Hj).
  cbn [bind]. destruct (unique_values_spec j df) as [Hn Hin].
  destruct (all_text_total (unique (dropna (column j df)))) as [ts Hts].
  { intros c Hc. apply Hin in Hc as [Hna (r & Hr & Hc)].
    specialize (Htext r Hr). rewrite (attribute_get_loc _ _ _ r Hj), Hc in Htext.
    destruct c as [|s|n|n]; [contradiction | eauto | discriminate | discriminate]. }
  exists (sorted ts). unfold sorted_values. rewrite Hts. split; [reflexivity|].
  pose proof (all_text_inv _ _ Hts) as Hx.
  eapply sorted_set_ext; [|apply sorted_NoDup_sorted_set].
  - intros s. cbn beta.
    assert (E : In s ts <-> In (Str s) (unique (dropna (column j df)))).
    { rewrite Hx, in_map_iff. split; [intros H; eauto|].
      intros (s' & [= ->] & H). exact H. }
    rewrite E, Hin. split.
    + intros [_ (r & Hr & Hc)]. exists r.
      now rewrite (attribute_get_loc _ _ _ r Hj).
    + intros (r & Hr & Hc). split; [discriminate|]. exists r.
      now rewrite <- (attribute_get_loc _ _ _ r Hj).
  - rewrite Hx in Hn. now apply NoDup_map_inv in Hn.
Qed.

Lemma options_of_text_column_witness :
  get_loc "Segment" Examples.frame = [0]
  /\ (forall r, In r (rows Examples.frame) ->
        is_number (attribute Examples.frame "Segment" r) = false)
  /\ exists l,
       sorted_unique "Segment" Examples.frame = Ok (map Str l)
       /\ sorted_set l
            (fun s => exists r, In r (rows Examples.frame)
                                /\ attribute Examples.frame "Segment" r = Str s).
Proof.
  assert (H1 : get_loc "Segment" Examples.frame = [0]) by reflexivity.
  assert (H2 : forall r, In r (rows Examples.frame) ->
                 is_number (attribute Examples.frame "Segment" r) = false)
    by (intros r Hr; simpl in Hr;
        repeat (destruct Hr as [<-|Hr]; [reflexivity|]); contradiction).
  split; [exact H1|]. split; [exact H2|].
  exact (options_of_text_column Examples.frame "Segment" 0 H1 H2).
Defined.

(** X19: a column that holds a text in one row and an integer in another has no
    sorted list of choices: building the options stops with a
    [TypeError]. *)
Theorem options_of_mixed_column_fail df key j r1 r2 s n :
  get_loc key df = [j] ->
  In r1 (rows df) -> at_ j r1 = Str s ->
  In r2 (rows df) -> at_ j r2 = Num n ->
  sorted_unique key df = Err TypeError.
Proof.
  intros Hj H1 E1 H2 E2. unfold sorted_unique. rewrite (series_loc_get_loc _ _ _ Hj).
  cbn [bind]. destruct (unique_values_spec j df) as [_ Hin].
  assert (Hs : In (Str s) (unique (dropna (column j df))))
    by (apply Hin; split; [discriminate | eauto]).
  assert (Hn : In (Num n) (unique (dropna (column j df))))
    by (apply Hin; split; [discriminate | eauto]).
  unfold sorted_values.
  destruct (all_text _) as [ts|] eqn:Et.
  - rewrite (all_text_inv _ _ Et) in Hn. apply in_map_iff in Hn as (x & [=] & _).
  - destruct (forallb is_number _) eqn:Ei; [|reflexivity].
    rewrite forallb_forall in Ei. specialize (Ei _ Hs). discriminate.
Qed.

Lemma options_of_mixed_column_fail_witness :
  get_loc "Impl" mixed_frame = [7]
  /\ In months_as_text (rows mixed_frame)
  /\ at_ 7 months_as_text = Str "3-6m"
  /\ In months_as_number (rows mixed_frame)
  /\ at_ 7 months_as_number = Num 6
  /\ sorted_unique "Impl" mixed_frame = Err TypeError.
Proof.
  assert (H1 : get_loc "Impl" mixed_frame = [7]) by reflexivity.
  assert (H2 : In months_as_text (rows mixed_frame)) by (left; reflexivity).
  assert (H3 : at_ 7 months_as_text = Str "3-6m") by reflexivity.
  assert (H4 : In months_as_number (rows mixed_frame)) by (right; left; reflexivity).
  assert (H5 : at_ 7 months_as_number = Num 6) by reflexivity.
  repeat (split; [assumption|]).
  exact (options_of_mixed_column_fail mixed_frame "Impl" 7 months_as_text
           months_as_number "3-6m" 6 H1 H2 H3 H4 H5).
Defined.

Lemma sidebar_options_inv df sb :
  sidebar_options df = Ok sb ->
  exists seg, sorted_unique "Segment" df = Ok seg /\ seg_opts sb = Str "" :: seg.
Proof.
  unfold sidebar_options.
  destruct (sorted_unique "Segment" df) as [seg|]; [|discriminate]. cbn [bind].
  destruct (sorted_unique "Modules(tags)" df); [|discriminate]. cbn [bind].
  destruct (sorted_unique "Hosting" df); [|discriminate]. cbn [bind].
  destruct (sorted_unique "Orientation" df); [|discriminate]. cbn [bind].
  destruct (sorted_unique "Regulatory focus (typical)" df); [|discriminate].
  cbn [bind]. intros [= <-]. eauto.
Qed.

(** X20: an offered segment always matches: chosen alone, every choice of the
    segment selectbox other than the blank one leaves at least one row. *)
Theorem offered_segment_matches df sb v :
  well_labelled df ->
  sidebar_options df = Ok sb ->
  In (Str v) (seg_opts sb) -> v <> "" ->
  exists f,
    filter_loop (user_strategic_answers (only_segment v)) df = Ok f
    /\ rows f <> [].
Proof.
  intros W Hsb Hin Hv.
  destruct (sidebar_options_inv df sb Hsb) as (seg & Hseg & Hopts).
  rewrite Hopts in Hin. destruct Hin as [[= E]|Hin]; [now subst|].
  unfold sorted_unique in Hseg.
  destruct (W "Segment") as [j Hj]; [simpl; tauto|].
  rewrite (series_loc_get_loc _ _ _ Hj) in Hseg. cbn [bind] in Hseg.
  apply (sorted_values_In _ _ (Str v) Hseg) in Hin.
  apply unique_values_spec in Hin as [_ (r & Hr & Hat)].
  eexists. split; [now apply filter_rows_spec|]. cbn [rows].
  assert (Hk : In r (filter (fun r => forallb (fun e => entry_keep df e r)
                                        (all_entries (only_segment v))) (rows df))).
  { apply filter_In. split; [exact Hr|]. apply all_entries_keep_iff.
    unfold satisfies, single_ok, modules_ok, only_segment. simpl.
    rewrite (attribute_get_loc _ _ _ r Hj). tauto. }
  intros E. now rewrite E in Hk.
Qed.

Lemma offered_segment_matches_witness :
  well_labelled Examples.frame
  /\ sidebar_options Examples.frame = Ok frame_sidebar
  /\ In (Str "Health") (seg_opts frame_sidebar)
  /\ "Health" <> ""
  /\ exists f,
       filter_loop (user_strategic_answers (only_segment "Health")) Examples.frame = Ok f
       /\ rows f <> [].
Proof.
  assert (W : well_labelled Examples.frame) by labels_by_computation.
  assert (H1 : sidebar_options Examples.frame = Ok frame_sidebar)
    by (vm_compute; reflexivity).
  assert (H2 : In (Str "Health") (seg_opts frame_sidebar)) by (simpl; tauto).
  assert (H3 : "Health" <> "") by discriminate.
  repeat (split; [assumption|]).
  exact (offered_segment_matches Examples.frame frame_sidebar "Health" W H1 H2 H3).
Defined.

End Options.

(** ** The line of active filters (lines 134-158) *)

Section Banner.

Lemma active_filters_answers st :
  exists l,
    active_filters st (user_strategic_answers st) = Ok l
    /\ List.length l = List.length (user_strategic_answers st).
Proof.
  unfold user_strategic_answers.
  destruct (nonempty_str (seg_widget st)) eqn:E1,
           (nonempty_list (mod_widget st)) eqn:E2,
           (nonempty_str (host_widget st)) eqn:E3,
           (nonempty_str (orient_widget st)) eqn:E4,
           (nonempty_str (reg_widget st)) eqn:E5;
    cbn [app active_filters];
    rewrite ?E1, ?E2, ?E3, ?E4, ?E5; cbn;
    eexists; split; reflexivity.
Qed.

(** X21: the line of active filters never fails, and it is there exactly when
    the page shows something else than the prompt, that is, when some
    predicate is active. *)
Theorem banner_matches_page df st :
  well_labelled df ->
  exists out b,
    script df st = Ok out
    /\ filters_banner st = Ok b
    /\ (b = None <-> no_selection st)
    /\ (b = None <-> shown out = info_select_criterion).
Proof.
  intros W. destruct (script_total df st W) as (f & a & _ & _ & _ & _ & Hs).
  destruct (active_filters_answers st) as (l & Hl & Hlen).
  eexists. exists (match l with [] => None | _ => Some (join " &nbsp; | &nbsp; " l) end).
  split; [exact Hs|]. split; [unfold filters_banner; rewrite Hl; now destruct l|].
  cbn [shown]. rewrite <- answers_nil_iff.
  destruct (user_strategic_answers st) as [|e es], l as [|s l'];
    simpl in Hlen; try discriminate.
  - split; split; reflexivity.
  - split; split; try discriminate. destruct (empty a); discriminate.
Qed.

Lemma banner_matches_page_witness :
  well_labelled Examples.frame
  /\ exists out b,
       script Examples.frame Examples.finance_audit = Ok out
       /\ filters_banner Examples.finance_audit = Ok b
       /\ (b = None <-> no_selection Examples.finance_audit)
       /\ (b = None <-> shown out = info_select_criterion).
Proof.
  split; [labels_by_computation|].
  apply (banner_matches_page Examples.frame Examples.finance_audit).
  labels_by_computation.
Defined.

End Banner.

(** ** The session state (lines 62-83) *)

Section Session.

Lemma dict_get_set d key v key' :
  dict_get (dict_set d key v) key'
  = if (key =? key')%string then Some v else dict_get d key'.
Proof.
  induction d as [|[k w] d IH]; simpl.
  - reflexivity.
  - destruct (k =? key)%string eqn:E; simpl.
    + apply String.eqb_eq in E. subst k. now destruct (key =? key')%string.
    + rewrite IH. destruct (k =? key')%string eqn:E'; [|reflexivity].
      apply String.eqb_eq in E'. subst k. now rewrite String.eqb_sym, E.
Qed.

Lemma init_keeps keys : forall d key v,
  dict_get d key = Some v -> dict_get (init_session_state keys d) key = Some v.
Proof.
  induction keys as [|k keys IH]; intros d key v H; simpl; [exact H|].
  apply IH. destruct (dict_get d k) eqn:E; [exact H|].
  assert (Hne : (k =? key)%string = false).
  { destruct (k =? key)%string eqn:E'; [|reflexivity].
    apply String.eqb_eq in E'. subst k. congruence. }
  destruct (contains "mod" k); now rewrite dict_get_set, Hne.
Qed.

Lemma init_binds keys : forall d key,
  In key keys -> exists v, dict_get (init_session_state keys d) key = Some v.
Proof.
  induction keys as [|k keys IH]; intros d key; simpl; [intros []|].
  intros [<-|Hin]; [|now apply IH].
  destruct (dict_get d k) as [v|] eqn:E.
  - exists v. now apply init_keeps.
  - destruct (contains "mod" k); eexists; apply init_keeps;
      now rewrite dict_get_set, String.eqb_refl.
Qed.

Lemma init_bound_id keys : forall d,
  (forall key, In key keys -> exists v, dict_get d key = Some v) ->
  init_session_state keys d = d.
Proof.
  induction keys as [|k keys IH]; intros d H; simpl; [reflexivity|].
  destruct (H k (or_introl eq_refl)) as [v ->]. apply IH.
  intros key Hk. apply H. now right.
Qed.

(** X22: the initialisation completes the session state and overwrites
    nothing: afterwards each of the five widget keys is bound, every value
    bound before is still bound to the same value, and a second run
    changes nothing. *)
Theorem init_completes_and_keeps d :
  (forall key, In key widget_keys ->
     exists v, dict_get (init_session_state widget_keys d) key = Some v)
  /\ (forall key v, dict_get d key = Some v ->
        dict_get (init_session_state widget_keys d) key = Some v)
  /\ init_session_state widget_keys (init_session_state widget_keys d)
     = init_session_state widget_keys d.
Proof.
  split; [intros key; apply init_binds|]. split; [apply init_keeps|].
  apply init_bound_id. intros key. apply init_binds.
Qed.

(** X23: a fresh session starts where the reset button leads: initialising a
    session state that binds none of the widget keys, and resetting any
    state, both leave the five widgets blank, as [reset_filters] has
    them. *)
Theorem fresh_session_is_reset d d' st :
  (forall key, In key widget_keys -> dict_get d key = None) ->
  read_widgets (init_session_state widget_keys d) = Some (reset_filters st)
  /\ read_widgets (reset_dict d') = Some (reset_filters st).
Proof.
  intros H. split.
  - assert (H1 : dict_get d "seg_widget" = None) by (apply H; simpl; tauto).
    assert (H2 : dict_get d "mod_widget" = None) by (apply H; simpl; tauto).
    assert (H3 : dict_get d "host_widget" = None) by (apply H; simpl; tauto).
    assert (H4 : dict_get d "orient_widget" = None) by (apply H; simpl; tauto).
    assert (H5 : dict_get d "reg_widget" = None) by (apply H; simpl; tauto).
    unfold widget_keys. cbn [init_session_state]. rewrite H1.
    change (contains "mod" "seg_widget") with false. cbv iota.
    rewrite !dict_get_set. cbn [String.eqb Ascii.eqb Bool.eqb]. rewrite H2.
    change (contains "mod" "mod_widget") with true. cbv iota.
    rewrite !dict_get_set. cbn [String.eqb Ascii.eqb Bool.eqb]. rewrite H3.
    change (contains "mod" "host_widget") with false. cbv iota.
    rewrite !dict_get_set. cbn [String.eqb Ascii.eqb Bool.eqb]. rewrite H4.
    change (contains "mod" "orient_widget") with false. cbv iota.
    rewrite !dict_get_set. cbn [String.eqb Ascii.eqb Bool.eqb]. rewrite H5.
    change (contains "mod" "reg_widget") with false. cbv iota.
    unfold read_widgets. rewrite !dict_get_set. cbn [String.eqb Ascii.eqb Bool.eqb].
    now rewrite ?H1, ?H2, ?H3, ?H4, ?H5.
  - unfold read_widgets, reset_dict. rewrite !dict_get_set. reflexivity.
Qed.

Lemma fresh_session_is_reset_witness :
  (forall key, In key widget_keys -> dict_get [] key = None)
  /\ read_widgets (init_session_state widget_keys []) = Some (reset_filters Examples.finance)
  /\ read_widgets (reset_dict [("seg_widget", VStr "Finance")])
     = Some (reset_filters Examples.finance).
Proof.
  assert (H : forall key, In key widget_keys -> dict_get [] key = None)
    by (intros key _; reflexivity).
  split; [exact H|].
  exact (fresh_session_is_reset [] [("seg_widget", VStr "Finance")] Examples.finance H).
Defined.

End Session.

(** ** Rows above the header *)

Section LeadingRows.

Lemma find_header_shift g : forall b,
  find_header (rows_from (S b) g) = option_map S (find_header (rows_from b g)).
Proof.
  induction g as [|v g IH]; intros b; [reflexivity|].
  rewrite !rows_from_cons. simpl. destruct (is_header v); [reflexivity | apply IH].
Qed.

Lemma find_header_leading junk : forall g b,
  (forall vals, In vals junk -> ~ both_markers vals) ->
  find_header (rows_from b (junk ++ g))
  = option_map (fun h => List.length junk + h) (find_header (rows_from b g)).
Proof.
  induction junk as [|v junk IH]; intros g b H.
  - simpl. now destruct (find_header (rows_from b g)).
  - simpl app. rewrite rows_from_cons. simpl find_header.
    assert (E : is_header v = false) by (apply is_header_false, H; now left).
    rewrite E, IH by (intros vals Hv; apply H; now right).
    rewrite find_header_shift. destruct (find_header (rows_from b g)); simpl;
      [f_equal; lia | reflexivity].
Qed.

Lemma below_header_leading junk g h :
  columns (below_header (junk ++ g) (List.length junk + h)) = columns (below_header g h)
  /\ map cells (rows (below_header (junk ++ g) (List.length junk + h)))
     = map cells (rows (below_header g h)).
Proof.
  unfold below_header, iterrows. cbn [columns rows]. split.
  - now rewrite app_nth2_plus.
  - rewrite !skipn_cells, !rows_from_cells.
    replace (List.length junk + h + 1) with (List.length junk + (h + 1)) by lia.
    now rewrite skipn_app, skipn_all2, Nat.add_comm, Nat.add_sub by lia.
Qed.

Lemma set_values_same_cells j vals rs : forall rs',
  map cells rs = map cells rs' ->
  map cells (set_values j vals rs) = map cells (set_values j vals rs').
Proof.
  revert vals. induction rs as [|r rs IH]; intros vals [|r' rs'] H;
    simpl in H; try discriminate; [reflexivity|].
  injection H as H1 H2. destruct vals as [|v vals]; simpl.
  - now rewrite H1, H2.
  - now rewrite H1, (IH vals rs' H2).
Qed.

Lemma at_same_cells j r r' : cells r = cells r' -> at_ j r = at_ j r'.
Proof. unfold at_. now intros ->. Qed.

Lemma map_at_cells j rs :
  map (at_ j) rs = map (fun cs => nth j cs NaN) (map cells rs).
Proof. now rewrite map_map. Qed.

Lemma column_same_cells j d d' :
  map cells (rows d) = map cells (rows d') -> column j d = column j d'.
Proof. unfold column. intros H. now rewrite !map_at_cells, H. Qed.

Lemma filter_same_cells (f : row -> bool) rs : forall rs',
  (forall r r', cells r = cells r' -> f r = f r') ->
  map cells rs = map cells rs' ->
  map cells (filter f rs) = map cells (filter f rs').
Proof.
  induction rs as [|r rs IH]; intros [|r' rs'] Hf H; simpl in H;
    try discriminate; [reflexivity|].
  injection H as H1 H2. simpl. rewrite (Hf r r' H1).
  destruct (f r'); simpl; [rewrite H1; f_equal|]; now apply IH.
Qed.

Lemma relabel_same_cells rs : forall rs' b,
  map cells rs = map cells rs' -> relabel_from b rs = relabel_from b rs'.
Proof.
  induction rs as [|r rs IH]; intros [|r' rs'] b H; simpl in H;
    try discriminate; [reflexivity|].
  injection H as H1 H2. simpl. rewrite H1. f_equal. now apply IH.
Qed.

Lemma fill_positions_same_cells js : forall d d',
  columns d = columns d' -> map cells (rows d) = map cells (rows d') ->
  let step := fun d j => set_column j (infer_objects (ffill (column j d))) d in
  columns (fold_left step js d) = columns (fold_left step js d')
  /\ map cells (rows (fold_left step js d)) = map cells (rows (fold_left step js d')).
Proof.
  induction js as [|a js IH]; intros d d' Hc Hr; simpl; [now split|].
  apply IH; [exact Hc|]. cbn [rows set_column].
  rewrite (column_same_cells a d d' Hr). now apply set_values_same_cells.
Qed.

Lemma ffill_keys_same_cells keys : forall d d',
  columns d = columns d' -> map cells (rows d) = map cells (rows d') ->
  match ffill_keys keys d, ffill_keys keys d' with
  | Ok d1, Ok d1' =>
      columns d1 = columns d1' /\ map cells (rows d1) = map cells (rows d1')
  | Err e, Err e' => e = e'
  | _, _ => False
  end.
Proof.
  induction keys as [|k keys IH]; intros d d' Hc Hr; simpl; [now split|].
  unfold ffill_label. rewrite <- (get_loc_same_columns k d d' Hc).
  destruct (get_loc k d) as [|a js]; cbn [bind]; [reflexivity|].
  destruct (fill_positions_same_cells (a :: js) d d' Hc Hr) as [Hc1 Hr1].
  now apply IH.
Qed.

Lemma supplier_rows_same_cells j d d' :
  map cells (rows d) = map cells (rows d') ->
  map cells (rows (supplier_rows j d)) = map cells (rows (supplier_rows j d')).
Proof.
  intros Hr. unfold supplier_rows, select, set_column. cbn [columns rows].
  assert (H0 : map cells (filter (fun r => forallb (fun j0 => negb (isna (at_ j0 r))) [j]) (rows d))
               = map cells (filter (fun r => forallb (fun j0 => negb (isna (at_ j0 r))) [j]) (rows d')))
    by (apply filter_same_cells; [|exact Hr];
        intros r r' E; simpl; now rewrite (at_same_cells j r r' E)).
  repeat (apply filter_same_cells;
          [intros r r' E; now rewrite (at_same_cells _ r r' E)|]).
  unfold column. cbn [rows]. rewrite !map_at_cells, H0.
  now apply set_values_same_cells.
Qed.

Lemma clean_at_same_cells j k d d' :
  columns d = columns d' -> map cells (rows d) = map cells (rows d') ->
  clean_at j k d = clean_at j k d'.
Proof.
  intros Hc Hr.
  change (clean_at j k d)
    with (drop_duplicates
            (reset_index
               (select (fun r => negb (str_contains_nocase "Grand Total" (at_ k r)))
                       (supplier_rows j d)))).
  change (clean_at j k d')
    with (drop_duplicates
            (reset_index
               (select (fun r => negb (str_contains_nocase "Grand Total" (at_ k r)))
                       (supplier_rows j d')))).
  unfold drop_duplicates, reset_index, select. cbn [columns rows].
  change (columns (supplier_rows j d)) with (columns d).
  change (columns (supplier_rows j d')) with (columns d').
  rewrite Hc. f_equal. f_equal.
  apply relabel_same_cells. apply filter_same_cells.
  - intros r r' E. now rewrite (at_same_cells _ r r' E).
  - now apply supplier_rows_same_cells.
Qed.

Lemma clean_same_cells d d' :
  columns d = columns d' -> map cells (rows d) = map cells (rows d') ->
  clean d = clean d'.
Proof.
  intros Hc Hr. rewrite !clean_unfold.
  pose proof (ffill_keys_same_cells key_cols d d' Hc Hr) as H.
  destruct (ffill_keys key_cols d) as [d1|e], (ffill_keys key_cols d') as [d1'|e'];
    try contradiction; [|now subst].
  destruct H as [Hc1 Hr1].
  rewrite <- !(get_loc_same_columns _ d1 d1' Hc1).
  destruct (get_loc supplier_col d1) as [|j [|j' js]]; try reflexivity.
  destruct (get_loc "Segment" d1) as [|k [|k' ks]]; try reflexivity.
  rewrite (column_same_cells k d1 d1' Hr1).
  rewrite (column_same_cells k _ _ (supplier_rows_same_cells j d1 d1' Hr1)).
  now rewrite (clean_at_same_cells j k d1 d1' Hc1 Hr1).
Qed.

(** X10: rows above the header do not count: putting rows that do not hold
    both markers on top of a sheet, the grid staying rectangular, changes
    nothing in what the parser returns, a frame or an error. *)
Theorem parse_ignores_leading_rows junk g :
  rectangular_grid (junk ++ g) ->
  (forall vals, In vals junk -> ~ both_markers vals) ->
  parse_pivot_rules (junk ++ g) = parse_pivot_rules g.
Proof.
  intros _ H. unfold parse_pivot_rules, iterrows.
  rewrite (find_header_leading junk g 0 H).
  destruct (find_header (rows_from 0 g)) as [h|]; [|reflexivity]. simpl option_map.
  destruct (below_header_leading junk g h) as [Hc Hr].
  now apply clean_same_cells.
Qed.

Lemma parse_ignores_leading_rows_witness :
  rectangular_grid (title_rows ++ Examples.sheet)
  /\ (forall vals, In vals title_rows -> ~ both_markers vals)
  /\ parse_pivot_rules (title_rows ++ Examples.sheet)
     = parse_pivot_rules Examples.sheet.
Proof.
  assert (G : rectangular_grid (title_rows ++ Examples.sheet)).
  { assert (H : forall r, In r (title_rows ++ Examples.sheet) -> List.length r = 10).
    { intros r Hr. simpl in Hr.
      repeat (destruct Hr as [<-|Hr]; [reflexivity|]). contradiction. }
    intros r1 r2 H1 H2. now rewrite (H r1 H1), (H r2 H2). }
  assert (H : forall vals, In vals title_rows -> ~ both_markers vals).
  { intros vals Hv [_ Hs]. simpl in Hv.
    destruct Hv as [<-|[<-|[]]]; simpl in Hs;
      repeat (destruct Hs as [Hs|Hs]; [discriminate|]); contradiction. }
  split; [exact G|]. split; [exact H|].
  exact (parse_ignores_leading_rows title_rows Examples.sheet G H).
Defined.

End LeadingRows.

(** ** No valid row is lost *)

Section Kept.

Lemma set_values_In_fwd j (f : cell -> cell) rs r :
  In r rs ->
  In {| label := label r; cells := set_nth j (f (at_ j r)) (cells r) |}
     (set_values j (map f (map (at_ j) rs)) rs).
Proof.
  induction rs as [|r0 rs IH]; simpl; [intros []|].
  intros [<-|H]; [now left | right; now apply IH].
Qed.

Lemma relabel_from_In_fwd rs : forall b r,
  In r rs -> In (cells r) (map cells (relabel_from b rs)).
Proof.
  intros b r H. rewrite relabel_from_cells. now apply in_map.
Qed.

Lemma clean_at_keeps j k d1 r :
  j <> k ->
  In r (rows d1) ->
  at_ j r <> NaN ->
  strip (py_str (at_ j r)) <> "" ->
  ~ has_marker (strip (py_str (at_ j r))) ->
  (forall t, at_ k r = Str t -> ~ has_marker t) ->
  In (set_nth j (Str (strip (py_str (at_ j r)))) (cells r))
     (map cells (rows (clean_at j k d1))).
Proof.
  intros Hjk Hr Hna Hne Hnm Hseg.
  set (r3 := {| label := label r;
                cells := set_nth j (Str (strip (py_str (at_ j r)))) (cells r) |}).
  assert (Hat : at_ j r3 = Str (strip (py_str (at_ j r))))
    by (unfold at_ at 1; simpl; apply nth_set_nth_same; now apply at_not_missing).
  assert (Hk : at_ k r3 = at_ k r)
    by (unfold at_; simpl; now apply nth_set_nth_other).
  unfold clean_at. cbn [rows drop_duplicates reset_index select set_column].
  match goal with |- In _ (map cells (drop_seen [] (relabel_from 0 ?R))) =>
    assert (H3 : In r3 R) end.
  { apply filter_In. split; [apply filter_In; split; [apply filter_In; split|]|].
    - unfold astype_str_strip, column. cbn [rows select].
      apply (set_values_In_fwd j (fun c => Str (strip (py_str c)))).
      apply filter_In. split; [exact Hr|]. cbn [forallb].
      rewrite andb_true_r. now destruct (at_ j r).
    - rewrite Hat. apply negb_true_iff.
      destruct (cell_eqb _ _) eqn:E; [|reflexivity].
      apply cell_eqb_eq in E. congruence.
    - rewrite Hat. simpl. apply negb_true_iff.
      destruct (contains_nocase _ _) eqn:E; [|reflexivity].
      apply contains_marker_iff in E. contradiction.
    - rewrite Hk. apply negb_true_iff. destruct (at_ k r) as [|t|n|n] eqn:Et;
        try reflexivity. simpl.
      destruct (contains_nocase _ _) eqn:E; [|reflexivity].
      apply contains_marker_iff in E. exfalso. now apply (Hseg t). }
  apply (in_map cells) in H3.
  rewrite <- (relabel_from_cells _ 0) in H3.
  apply in_map_iff in H3 as (r4 & Hc & H4).
  destruct (drop_seen_complete _ [] r4 H4) as [[]|H5].
  now rewrite Hc in H5.
Qed.

(** X24: no valid row is lost: a forward-filled data row whose supplier is
    there, is not blank once stripped and does not contain the marker,
    and whose segment does not contain it either, is in the frame the
    parser returns, cell for cell, with its supplier as stripped text. *)
Theorem valid_rows_are_kept g h d1 df j k r :
  find_header (iterrows g) = Some h ->
  ffill_keys key_cols (below_header g h) = Ok d1 ->
  parse_pivot_rules g = Ok df ->
  series_loc supplier_col df = Ok j ->
  series_loc "Segment" df = Ok k ->
  In r (rows d1) ->
  at_ j r <> NaN ->
  strip (py_str (at_ j r)) <> "" ->
  ~ has_marker (strip (py_str (at_ j r))) ->
  (forall t, at_ k r = Str t -> ~ has_marker t) ->
  In (set_nth j (Str (strip (py_str (at_ j r)))) (cells r)) (map cells (rows df)).
Proof.
  intros Hh Hfill Hp Hj Hk Hr Hna Hne Hnm Hseg.
  unfold parse_pivot_rules in Hp. rewrite Hh in Hp.
  apply clean_inv in Hp as (d1' & j' & k' & Hfill' & Hj' & Hk' & ->).
  assert (d1' = d1) by congruence. subst d1'.
  apply series_loc_inv in Hj, Hk.
  assert (Hc : columns (clean_at j' k' d1) = columns d1) by reflexivity.
  rewrite (get_loc_same_columns supplier_col _ _ Hc) in Hj.
  rewrite (get_loc_same_columns "Segment" _ _ Hc) in Hk.
  assert (j' = j) by congruence. assert (k' = k) by congruence. subst j' k'.
  apply clean_at_keeps; try assumption.
  intros ->.
  assert (H1 : In k (get_loc supplier_col d1)) by (rewrite Hj; now left).
  assert (H2 : In k (get_loc "Segment" d1)) by (rewrite Hk; now left).
  apply get_loc_In in H1, H2. rewrite H1 in H2. discriminate.
Qed.

Lemma valid_rows_are_kept_witness :
  find_header (iterrows Examples.sheet) = Some 1
  /\ ffill_keys key_cols (below_header Examples.sheet 1) = Ok filled_sheet
  /\ parse_pivot_rules Examples.sheet = Ok Examples.frame
  /\ series_loc supplier_col Examples.frame = Ok 5
  /\ series_loc "Segment" Examples.frame = Ok 0
  /\ In audit_row (rows filled_sheet)
  /\ at_ 5 audit_row <> NaN
  /\ strip (py_str (at_ 5 audit_row)) <> ""
  /\ ~ has_marker (strip (py_str (at_ 5 audit_row)))
  /\ (forall t, at_ 0 audit_row = Str t -> ~ has_marker t)
  /\ In (set_nth 5 (Str (strip (py_str (at_ 5 audit_row)))) (cells audit_row))
        (map cells (rows Examples.frame)).
Proof.
  assert (H1 : find_header (iterrows Examples.sheet) = Some 1) by reflexivity.
  assert (H2 : ffill_keys key_cols (below_header Examples.sheet 1) = Ok filled_sheet)
    by (vm_compute; reflexivity).
  assert (H3 : parse_pivot_rules Examples.sheet = Ok Examples.frame)
    by (vm_compute; reflexivity).
  assert (H4 : series_loc supplier_col Examples.frame = Ok 5) by reflexivity.
  assert (H5 : series_loc "Segment" Examples.frame = Ok 0) by reflexivity.
  assert (H6 : In audit_row (rows filled_sheet))
    by (vm_compute; right; right; left; reflexivity).
  assert (H7 : at_ 5 audit_row <> NaN) by discriminate.
  assert (H8 : strip (py_str (at_ 5 audit_row)) <> "") by (vm_compute; discriminate).
  assert (H9 : ~ has_marker (strip (py_str (at_ 5 audit_row))))
    by (rewrite <- contains_marker_iff; vm_compute; discriminate).
  assert (H10 : forall t, at_ 0 audit_row = Str t -> ~ has_marker t)
    by (intros t [= <-]; rewrite <- contains_marker_iff; vm_compute; discriminate).
  repeat (split; [assumption|]).
  exact (valid_rows_are_kept Examples.sheet 1 filled_sheet Examples.frame 5 0
           audit_row H1 H2 H3 H4 H5 H6 H7 H8 H9 H10).
Defined.

End Kept.
